(** * zap_gradle and release: shallow embeddings of [scripts/zap_gradle.py]
    and [scripts/release.py]

    The first script is a thin layer over the file system, so the
    development starts with a small model of what the Python standard
    library does there ([pathlib], [os.walk], [glob], [shutil.rmtree] and
    [subprocess.run]); the functions of the script follow, in the order of
    the source file.  The second script follows, over a record of the
    library functions it calls, and then the properties of both. *)

From Stdlib Require Import Bool List String Ascii ZArith Lia Eqdep_dec DecimalString.
Import ListNotations.
Local Open Scope string_scope.
Local Open Scope list_scope.

Set Implicit Arguments.
Set Warnings "-register-all".

(* ===================================================================== *)
(** ** Path components *)
(* ===================================================================== *)

(** A component of a [pathlib] path is never empty and holds no separator:
    the parser of [pathlib] splits on ['/'] and drops empty parts. *)

Definition sep : string := "/".

Fixpoint has_sep (s : string) : bool :=
  match s with
  | EmptyString => false
  | String c s' => Ascii.eqb c "/" || has_sep s'
  end.

Definition valid_name (s : string) : bool :=
  match s with
  | EmptyString => false
  | _ => negb (has_sep s)
  end.

Record name : Type := Name { name_str : string; name_ok : valid_name name_str = true }.

Definition name_eqb (a b : name) : bool := String.eqb (name_str a) (name_str b).

Declare Scope name_scope.
Delimit Scope name_scope with name.
Notation "# s" := (@Name s eq_refl) (at level 1, format "# s") : name_scope.
Local Open Scope name_scope.

Definition dot : name := #".".
Definition dotdot : name := #"..".

(** [d in {...}] on the names of a Python set literal. *)
Definition name_in (a : name) (l : list name) : bool := existsb (name_eqb a) l.

(* ===================================================================== *)
(** ** Paths ([pathlib.Path]) *)
(* ===================================================================== *)

(** A path is anchored at the root ['/'] or relative to the working
    directory of the process. *)
Record Path : Type := mkPath { anchored : bool; parts : list name }.

(** [path / child] *)
Definition joinpath (p : Path) (c : name) : Path :=
  mkPath (anchored p) (parts p ++ [c]).
Notation "p // c" := (joinpath p c) (at level 40, left associativity).

Definition joinparts (p : Path) (cs : list name) : Path :=
  mkPath (anchored p) (parts p ++ cs).

Fixpoint join_names (l : list name) : string :=
  match l with
  | [] => ""
  | [a] => name_str a
  | a :: l' => name_str a ++ sep ++ join_names l'
  end.

(** [str(path)] *)
Definition str (p : Path) : string :=
  if anchored p then sep ++ join_names (parts p)
  else match parts p with
       | [] => "."
       | _ => join_names (parts p)
       end.

Definition abs_path (l : list name) : Path := mkPath true l.

(** [s.startswith(prefix)] *)
Definition startswith (s prefix : string) : bool := String.prefix prefix s.

(* ===================================================================== *)
(** ** The file system *)
(* ===================================================================== *)

(** A tree of files, symbolic links and directories.  Every entry carries a
    flag [locked]: removing a locked entry ([unlink], [rmdir]) fails, as it
    does for an entry of a read-only directory or an immutable file.  The
    entries of a directory are kept in the order in which [scandir] lists
    them. *)
Inductive node : Type :=
| File (locked : bool)
| Link (locked : bool) (target : Path)
| Dir (locked : bool) (entries : list (name * node)).

Definition is_Dir (n : option node) : bool :=
  match n with Some (Dir _ _) => true | _ => false end.

Definition is_Link (n : option node) : bool :=
  match n with Some (Link _ _) => true | _ => false end.

Definition node_locked (n : node) : bool :=
  match n with File l | Link l _ | Dir l _ => l end.

Fixpoint assoc (es : list (name * node)) (k : name) : option node :=
  match es with
  | [] => None
  | (k', n) :: es' => if name_eqb k k' then Some n else assoc es' k
  end.

(** The entry at a path that holds no link, no ["."] and no [".."]. *)
Fixpoint lookup (fs : node) (p : list name) : option node :=
  match p with
  | [] => Some fs
  | c :: p' =>
      match fs with
      | Dir _ es => match assoc es c with
                    | Some n => lookup n p'
                    | None => None
                    end
      | _ => None
      end
  end.

(** Resolution gives up after 40 links, as the kernel does in [stat]
    (ELOOP).  [Path.resolve()] has no such bound: it follows a chain of links
    of any length and raises on a loop of links only.  On a path that leads
    through more than 40 links and no loop, [resolve] below reports the
    failure where [Path.resolve()] gives the target; [confirm_under_home],
    which answers [False] on the failure, is then stricter here than in the
    script. *)
Definition MAXSYMLINKS : nat := 40.

(** [os.path.realpath]: [done] is the part already resolved, [todo] the
    components still to read.  With [strict] a missing component, or a
    component read below something that is no directory, is an error (this
    is what [stat] does); without, it is kept as it is (this is
    [Path.resolve()], whose only error is the link loop). *)
Fixpoint realpath_from (fs : node) (strict : bool) (fuel : nat)
  : list name -> list name -> option (list name) :=
  fix go (done todo : list name) {struct todo} : option (list name) :=
    match todo with
    | [] => Some done
    | c :: rest =>
        if strict && negb (is_Dir (lookup fs done)) then None
        else if name_eqb c dot then go done rest
        else if name_eqb c dotdot then go (removelast done) rest
        else match lookup fs (done ++ [c]) with
             | Some (Link _ tgt) =>
                 match fuel with
                 | O => None
                 | S fuel' =>
                     realpath_from fs strict fuel'
                       (if anchored tgt then [] else done) (parts tgt ++ rest)
                 end
             | Some _ => go (done ++ [c]) rest
             | None => if strict then None else go (done ++ [c]) rest
             end
    end.

(** The working directory of the process is part of the environment of a
    file-system call: relative paths are read from it. *)
Definition absolute (cwd : list name) (p : Path) : list name :=
  if anchored p then parts p else cwd ++ parts p.

(** [Path.resolve()]; [None] stands for the exception it raises. *)
Definition resolve (cwd : list name) (fs : node) (p : Path) : option (list name) :=
  realpath_from fs false MAXSYMLINKS [] (absolute cwd p).

(** [os.stat]: follows links; [None] is any [OSError]. *)
Definition stat (cwd : list name) (fs : node) (p : Path) : option node :=
  match realpath_from fs true MAXSYMLINKS [] (absolute cwd p) with
  | Some r => lookup fs r
  | None => None
  end.

Fixpoint split_last (l : list name) : option (list name * name) :=
  match l with
  | [] => None
  | [a] => Some ([], a)
  | a :: l' => match split_last l' with
               | Some (d, c) => Some (a :: d, c)
               | None => None
               end
  end.

(** Where the last component of a path lives: the resolved directory and the
    name in it.  A path that ends in ["."] or [".."], or has no component,
    names a directory by itself and has no such place. *)
Definition locate (cwd : list name) (fs : node) (p : Path)
  : option (list name * name) :=
  match split_last (absolute cwd p) with
  | Some (d, c) =>
      if name_eqb c dot || name_eqb c dotdot then None
      else match realpath_from fs true MAXSYMLINKS [] d with
           | Some rd => if is_Dir (lookup fs rd) then Some (rd, c) else None
           | None => None
           end
  | None => None
  end.

(** [os.lstat]: as [stat], but a link in last position is not followed. *)
Definition lstat (cwd : list name) (fs : node) (p : Path) : option node :=
  match locate cwd fs p with
  | Some (rd, c) => lookup fs (rd ++ [c])
  | None => stat cwd fs p
  end.

(** [Path.exists()], [Path.is_dir()], [Path.is_symlink()], [os.path.lexists] *)
Definition path_exists cwd fs p : bool :=
  match stat cwd fs p with Some _ => true | None => false end.
Definition path_is_dir cwd fs p : bool := is_Dir (stat cwd fs p).
Definition path_is_symlink cwd fs p : bool := is_Link (lstat cwd fs p).
Definition path_lexists cwd fs p : bool :=
  match lstat cwd fs p with Some _ => true | None => false end.

(** The names that [scandir] lists, in its order; nothing for what is no
    directory. *)
Definition listdir cwd fs p : list name :=
  match stat cwd fs p with
  | Some (Dir _ es) => map fst es
  | _ => []
  end.

(** What [unlink] and [rmdir] do to one entry, and [shutil.rmtree] with
    [ignore_errors=True] to a directory: every entry that can be removed is
    removed, an entry that cannot is left where it is, together with the
    directories above it, and no error is reported.  [None] means that the
    entry is gone. *)
Fixpoint rmtree_node (n : node) : option node :=
  match n with
  | File l => if l then Some n else None
  | Link l _ => if l then Some n else None
  | Dir l es =>
      let es' :=
        (fix go (es : list (name * node)) : list (name * node) :=
           match es with
           | [] => []
           | (k, c) :: tl =>
               match rmtree_node c with
               | None => go tl
               | Some c' => (k, c') :: go tl
               end
           end) es in
      match es', l with
      | [], false => None      (* [os.rmdir] of the emptied directory *)
      | _, _ => Some (Dir l es')
      end
  end.

Definition drop_name (k : name) (es : list (name * node)) : list (name * node) :=
  filter (fun e => negb (name_eqb k (fst e))) es.

(** Replace ([Some]) or delete ([None]) the entry called [k]. *)
Fixpoint alter_assoc (g : node -> option node) (k : name)
  (es : list (name * node)) : list (name * node) :=
  match es with
  | [] => []
  | (k', n) :: es' =>
      if name_eqb k k'
      then match g n with
           | Some n' => (k', n') :: es'
           | None => drop_name k es'
           end
      else (k', n) :: alter_assoc g k es'
  end.

(** Rewrite the node at a resolved path. *)
Fixpoint alter (g : node -> node) (p : list name) (n : node) : node :=
  match p with
  | [] => g n
  | c :: p' =>
      match n with
      | Dir l es => Dir l (alter_assoc (fun m => Some (alter g p' m)) c es)
      | _ => n
      end
  end.

(** Replace or delete the entry [c] of the directory at [rd]. *)
Definition alter_entry (g : node -> option node) (rd : list name) (c : name)
  (fs : node) : node :=
  alter (fun d => match d with
                  | Dir l es => Dir l (alter_assoc g c es)
                  | _ => d
                  end) rd fs.

(* ===================================================================== *)
(** ** Effects: state, output and exceptions *)
(* ===================================================================== *)

Inductive exn_kind : Type :=
| FileNotFoundError | IsADirectoryError | PermissionError | RuntimeError
| OtherError.

(** An instance of [Exception] and the text that [str(ex)] gives. *)
Record exn : Type := Exn { kind : exn_kind; message : string }.

(** [repr] of a string, as [str] of an [OSError] prints the file name:
    between single quotes, or between double quotes when the text holds a
    single quote and no double one; a backslash and the quote in use follow
    a backslash, and a control character is written as an escape.  (The
    bytes above 127 are kept as they are; [repr] writes those of them that
    do not print as escapes too.) *)
Definition squote : ascii := ascii_of_nat 39.
Definition dquote : ascii := ascii_of_nat 34.
Definition backslash : ascii := ascii_of_nat 92.

Fixpoint has_char (c : ascii) (s : string) : bool :=
  match s with
  | EmptyString => false
  | String c' s' => Ascii.eqb c c' || has_char c s'
  end.

Definition hex_digit (n : nat) : ascii :=
  if Nat.ltb n 10 then ascii_of_nat (48 + n) else ascii_of_nat (87 + n).

Definition escape_char (quote c : ascii) : string :=
  let n := nat_of_ascii c in
  if Ascii.eqb c quote || Ascii.eqb c backslash then String backslash (String c EmptyString)
  else if Nat.eqb n 9 then String backslash "t"
  else if Nat.eqb n 10 then String backslash "n"
  else if Nat.eqb n 13 then String backslash "r"
  else if Nat.ltb n 32 || Nat.eqb n 127
       then String backslash
              (String "x" (String (hex_digit (n / 16))
                             (String (hex_digit (n mod 16)) EmptyString)))
  else String c EmptyString.

Fixpoint escape (quote : ascii) (s : string) : string :=
  match s with
  | EmptyString => EmptyString
  | String c s' => escape_char quote c ++ escape quote s'
  end.

Definition repr (s : string) : string :=
  let quote := if has_char squote s && negb (has_char dquote s) then dquote else squote in
  String quote (escape quote s ++ String quote EmptyString).

(** The state of a run: the file system, the lines printed so far, and a
    history of the paths [safe_rm] was called with (kept only to state the
    invariants of the orchestrator; the script does not read it). *)
Record state : Type := mkState {
  fs : node;
  stdout : list string;
  rm_calls : list Path
}.

Inductive result (A : Type) : Type :=
| Ok (a : A)
| Raise (e : exn).
Arguments Raise {A} e.

Definition M (A : Type) : Type := state -> result A * state.

Definition ret {A} (a : A) : M A := fun st => (Ok a, st).

Definition bind {A B} (m : M A) (k : A -> M B) : M B :=
  fun st => match m st with
            | (Ok a, st') => k a st'
            | (Raise e, st') => (Raise e, st')
            end.

(** [try: body except Exception as ex: handler(ex)] *)
Definition try_except {A} (body : M A) (handler : exn -> M A) : M A :=
  fun st => match body st with
            | (Raise e, st') => handler e st'
            | r => r
            end.

(** [try: body except IsADirectoryError: handler] *)
Definition try_except_isdir {A} (body : M A) (handler : M A) : M A :=
  fun st => match body st with
            | (Raise e, st') =>
                match kind e with
                | IsADirectoryError => handler st'
                | _ => (Raise e, st')
                end
            | r => r
            end.

Declare Scope monad_scope.
Delimit Scope monad_scope with monad.
Notation "x <- m ;; k" := (bind m (fun x => k))
  (at level 61, m at next level, right associativity) : monad_scope.
Notation "m ;; k" := (bind m (fun _ => k))
  (at level 61, right associativity) : monad_scope.
Local Open Scope monad_scope.

Definition print (line : string) : M unit :=
  fun st => (Ok tt, mkState (fs st) (stdout st ++ [line]) (rm_calls st)).
Definition record_rm (p : Path) : M unit :=
  fun st => (Ok tt, mkState (fs st) (stdout st) (rm_calls st ++ [p])).

Definition when (b : bool) (m : M unit) : M unit := if b then m else ret tt.

(** [for x in l: body(x)] *)
Fixpoint for_each {A} (l : list A) (body : A -> M unit) : M unit :=
  match l with
  | [] => ret tt
  | x :: l' => body x ;; for_each l' body
  end.

(* ===================================================================== *)
(** ** The environment of a run *)
(* ===================================================================== *)

(** What [subprocess.run(cmd, cwd=..., check=False)] comes to: the child ran
    and left an exit status and a file system, or could not be started and
    the call raised.  What the child prints is not kept. *)
Inductive completed : Type :=
| Completed (returncode : Z) (fs_after : node)
| NotStarted (e : exn).

Record Env : Type := mkEnv {
  getcwd : list name;                         (* the resolved working directory *)
  home_dir : Path;                            (* [Path.home()] *)
  shutil_which : string -> option string;     (* [shutil.which] *)
  spawn : list string -> Path -> node -> completed
}.

Section Script.

Variable env : Env.

Definition Path_cwd : Path := abs_path (getcwd env).
Definition Path_home : Path := home_dir env.

(** *** File-system calls in the monad *)

(** [Path.exists()], [Path.is_dir()] and [Path.is_symlink()] answer [False]
    when [os.stat] fails because the entry is missing, a component is no
    directory or the links do not end (ENOENT, ENOTDIR, ELOOP, and EBADF): these are
    the failures that the tree above can show, and on it the three calls
    never raise.  Any other failure of [os.stat] (EACCES in a directory that
    may not be searched, ENAMETOOLONG, EIO) they raise again; such failures
    are the subject of the section on the errors of [os.stat] below, and the
    properties of the script stated over the calls of this section are those
    of a run in which [os.stat] fails in no other way. *)
Definition Path_exists (p : Path) : M bool :=
  fun st => (Ok (path_exists (getcwd env) (fs st) p), st).
Definition Path_is_dir (p : Path) : M bool :=
  fun st => (Ok (path_is_dir (getcwd env) (fs st) p), st).
Definition Path_is_symlink (p : Path) : M bool :=
  fun st => (Ok (path_is_symlink (getcwd env) (fs st) p), st).

Definition Path_resolve (p : Path) : M Path :=
  fun st => match resolve (getcwd env) (fs st) p with
            | Some r => (Ok (abs_path r), st)
            | None => (Raise (Exn RuntimeError ("Symlink loop from " ++ repr (str p))), st)
            end.

(** [Path.unlink()] on a file system: the file system without the entry,
    or the exception raised, whose text ends with the [repr] of the path. *)
Definition unlink_fs (p : Path) (fs0 : node) : result node :=
  match locate (getcwd env) fs0 p with
  | Some (rd, c) =>
      match lookup fs0 (rd ++ [c]) with
      | None =>
          Raise (Exn FileNotFoundError
                   ("[Errno 2] No such file or directory: " ++ repr (str p)))
      | Some (Dir _ _) =>
          Raise (Exn IsADirectoryError ("[Errno 21] Is a directory: " ++ repr (str p)))
      | Some n =>
          if node_locked n
          then Raise (Exn PermissionError
                        ("[Errno 1] Operation not permitted: " ++ repr (str p)))
          else Ok (alter_entry (fun _ => None) rd c fs0)
      end
  | None =>
      if path_exists (getcwd env) fs0 p
      then Raise (Exn IsADirectoryError ("[Errno 21] Is a directory: " ++ repr (str p)))
      else Raise (Exn FileNotFoundError
                    ("[Errno 2] No such file or directory: " ++ repr (str p)))
  end.

Definition Path_unlink (p : Path) : M unit :=
  fun st =>
    match unlink_fs p (fs st) with
    | Ok fs' => (Ok tt, mkState fs' (stdout st) (rm_calls st))
    | Raise e => (Raise e, st)
    end.

(** What is left of a directory whose entries [rmtree] went through while the
    directory itself cannot be removed. *)
Definition rmtree_inside (n : node) : node :=
  match n with
  | Dir l es =>
      match rmtree_node (Dir true es) with
      | Some (Dir _ es') => Dir l es'
      | _ => n
      end
  | _ => n
  end.

(** [shutil.rmtree(path, ignore_errors=True)] on a file system.  It refuses a
    link and fails on a file, silently; a directory is emptied as far as
    possible and then removed if it can be. *)
Definition rmtree_fs (p : Path) (fs0 : node) : node :=
  match lstat (getcwd env) fs0 p with
  | Some (Dir _ _) =>
      match locate (getcwd env) fs0 p with
      | Some (rd, c) => alter_entry rmtree_node rd c fs0
      | None =>
          match realpath_from fs0 true MAXSYMLINKS [] (absolute (getcwd env) p) with
          | Some r => alter rmtree_inside r fs0
          | None => fs0
          end
      end
  | _ => fs0
  end.

(** It never raises. *)
Definition shutil_rmtree (p : Path) : M unit :=
  fun st => (Ok tt, mkState (rmtree_fs p (fs st)) (stdout st) (rm_calls st)).

(** [subprocess.run(cmd, cwd=str(cwd), check=False)] *)
Definition subprocess_run (cmd : list string) (cwd : Path) : M Z :=
  fun st =>
    match spawn env cmd cwd (fs st) with
    | Completed rc fs' => (Ok rc, mkState fs' (stdout st) (rm_calls st))
    | NotStarted e => (Raise e, st)
    end.

(** *** Patterns of [glob] *)

(** [glob.has_magic]: the text holds one of the characters that [glob]
    reads as a wildcard. *)
Definition has_magic (s : string) : bool :=
  has_char "*" s || has_char "?" s || has_char "[" s.

(** The last component of a pattern: a plain name, or a prefix followed by
    ["*"]; the components before it are plain in every pattern of the
    script.  The script hands [str(base / pat)] to [glob], which reads a
    wildcard in the names of [base] as it reads one in [pat]; [glob_hits]
    below reads the names of [base] as they are, and is what [glob] does
    for a base without wildcard, [has_magic (str base) = false].  For
    another base the hits of the script lie elsewhere ([/home/u/g[x]] is
    searched as [/home/u/gx]), and the properties that speak of what is
    found or removed below [base] take the condition as a hypothesis. *)
Inductive wildcard : Type :=
| Literal (n : name)
| Star (prefix : string).

Record pattern : Type := mkPattern { pat_dir : list name; pat_base : wildcard }.

Definition is_hidden (s : string) : bool := String.prefix "." s.

(** [fnmatch] of a name against [prefix*]; [glob] hides the names that start
    with a dot from a pattern that does not. *)
Definition glob_match (prefix : string) (k : name) : bool :=
  String.prefix prefix (name_str k)
  && (is_hidden prefix || negb (is_hidden (name_str k))).

(** [glob.glob(str(base / pat))] on a file system, with the hits made paths
    again.  A pattern without wildcard is a hit if it is there at all, be
    it a link that leads nowhere. *)
Definition glob_hits (base : Path) (pat : pattern) (fs0 : node) : list Path :=
  let dir := joinparts base (pat_dir pat) in
  match pat_base pat with
  | Literal n => if path_lexists (getcwd env) fs0 (dir // n) then [dir // n] else []
  | Star prefix =>
      map (fun k => dir // k) (filter (glob_match prefix) (listdir (getcwd env) fs0 dir))
  end.

Definition glob_glob (base : Path) (pat : pattern) : M (list Path) :=
  fun st => (Ok (glob_hits base pat (fs st)), st).

(** [path.glob("*")]: every entry of a directory *)
Definition Path_glob_star (p : Path) : M (list Path) :=
  fun st => (Ok (map (fun k => p // k) (listdir (getcwd env) (fs st) p)), st).

(* ===================================================================== *)
(** ** The script *)
(* ===================================================================== *)

Definition VERSION : string := "1.1.0".

Fixpoint join_with (d : string) (l : list string) : string :=
  match l with
  | [] => ""
  | [a] => a
  | a :: l' => a ++ d ++ join_with d l'
  end.

Definition str_bool (b : bool) : string := if b then "True" else "False".

(** [which] *)
Definition which (cmd : string) : option string := shutil_which env cmd.

(** [run_cmd] *)
Definition run_cmd (cmd : list string) (cwd : Path) (dry_run verbose : bool) : M Z :=
  if dry_run then
    print ("DRY-RUN: would run: " ++ join_with " " cmd ++ " (cwd=" ++ str cwd ++ ")") ;;
    ret 0%Z
  else
    try_except
      (when verbose
         (print ("RUN: " ++ join_with " " cmd ++ " (cwd=" ++ str cwd ++ ")")) ;;
       returncode <- subprocess_run cmd cwd ;;
       ret returncode)
      (fun ex =>
         print ("WARN: command failed: " ++ join_with " " cmd ++ " -> " ++ message ex) ;;
         ret 1%Z).

(** [confirm_under_home] *)
Definition confirm_under_home (path home : Path) : M bool :=
  try_except
    (path <- Path_resolve path ;;
     home <- Path_resolve home ;;
     ret (startswith (str path) (str home ++ sep)))
    (fun _ => ret false).

(** [safe_rm]; the first line keeps the history of the calls. *)
Definition safe_rm (path : Path) (dry_run verbose : bool) : M unit :=
  record_rm path ;;
  there <- Path_exists path ;;
  if negb there then ret tt
  else if dry_run then print ("DRY-RUN: rm -rf " ++ str path)
  else
    try_except
      (is_dir <- Path_is_dir path ;;
       real_dir <- (if is_dir
                    then (l <- Path_is_symlink path ;; ret (negb l))
                    else ret false) ;;
       (if real_dir then shutil_rmtree path
        else try_except_isdir (Path_unlink path) (shutil_rmtree path)) ;;
       when verbose (print ("removed: " ++ str path)))
      (fun ex => print ("WARN: failed to remove " ++ str path ++ ": " ++ message ex)).

(** [glob_and_remove] *)
Definition glob_and_remove (base : Path) (patterns : list pattern)
  (dry_run verbose : bool) : M unit :=
  for_each patterns (fun pat =>
    hits <- glob_glob base pat ;;
    for_each hits (fun hit => safe_rm hit dry_run verbose)).

(** [os.walk(top, topdown=True)], as the loop of
    [find_project_dirs_to_remove] drives it.  At a directory [cur], [dirs]
    holds the names of the entries for which [DirEntry.is_dir()] holds (a
    link to a directory is one of them); the body of the loop reads [dirs]
    and then replaces its contents ([dirs[:] = ...]), and the walk goes on
    into what the body left there, links apart ([followlinks=False]).  What
    cannot be listed yields nothing. *)
Definition prune : list name :=
  [#".git"; #".idea"; #".vscode"; #".venv"; #"venv"; #"node_modules";
   #"build"; #".gradle"].

Definition artifact_names : list name := [#"build"; #".gradle"].

Definition entry_is_dir (fs0 : node) (cur : Path) (e : name * node) : bool :=
  match snd e with
  | Dir _ _ => true
  | Link _ _ => path_is_dir (getcwd env) fs0 (cur // fst e)
  | File _ => false
  end.

Definition descends (e : name * node) (dirs : list name) : bool :=
  match snd e with
  | Dir _ _ => name_in (fst e) dirs
  | _ => false
  end.

Fixpoint walk_targets (fs0 : node) (cur : Path) (n : node) : list Path :=
  match n with
  | Dir _ es =>
      let dirs := map fst (filter (entry_is_dir fs0 cur) es) in
      (* the body of the loop *)
      let targets := map (fun d => cur // d)
                         (filter (fun d => name_in d artifact_names) dirs) in
      let dirs := filter (fun d => negb (name_in d prune)) dirs in
      (* the walk goes on *)
      targets ++
      (fix go (es : list (name * node)) : list Path :=
         match es with
         | [] => []
         | (k, c) :: tl =>
             (if descends (k, c) dirs then walk_targets fs0 (cur // k) c else [])
             ++ go tl
         end) es
  | _ => []
  end.

(** [find_project_dirs_to_remove] *)
Definition find_project_dirs_to_remove (root : Path) : M (list Path) :=
  fun st =>
    (Ok match stat (getcwd env) (fs st) root with
        | Some n => walk_targets (fs st) root n
        | None => []
        end, st).

(** The result of [parse_args]. *)
Record Args : Type := mkArgs {
  arg_gradlew : Path;
  arg_gradle_user_home : Path;
  arg_xdg_cache_home : Path;
  arg_dry_run : bool;
  arg_aggressive : bool;
  arg_include_kotlin_native : bool;
  arg_verbose : bool
}.

(** What the command line comes to: the pseudo-command [help] or [usage],
    options that [argparse] accepts, or an exit of [argparse] itself (a usage
    error, [--version], [-h]).  [help_text] is what [parser.print_help()]
    writes: the usage line, the description, the options with their help
    texts and the epilog, laid out by [argparse] for the width of the
    terminal. *)
Inductive cmdline : Type :=
| CmdHelp (help_text : string)
| CmdArgs (args : Args)
| CmdExit (status : Z).

Section Main.

Variable args : Args.

Let root := Path_cwd.
Let home := Path_home.
Let gradlew := arg_gradlew args.
Let gradle_user_home := arg_gradle_user_home args.
Let xdg_cache_home := arg_xdg_cache_home args.
Let dry_run := arg_dry_run args.
Let aggressive := arg_aggressive args.
Let include_konan := arg_include_kotlin_native args.
Let verbose := arg_verbose args.

Definition print_banner : M unit :=
  print "== zap_gradle ==" ;;
  print (" version: " ++ VERSION) ;;
  print (" root: " ++ str root) ;;
  print (" gradlew: " ++ str gradlew) ;;
  print (" GRADLE_USER_HOME: " ++ str gradle_user_home) ;;
  print (" XDG_CACHE_HOME: " ++ str xdg_cache_home) ;;
  print (" dry_run=" ++ str_bool dry_run ++ " aggressive=" ++ str_bool aggressive
         ++ " include_kotlin_native=" ++ str_bool include_konan
         ++ " verbose=" ++ str_bool verbose).

(** 1) Stop daemons *)
Definition stop_daemons : M unit :=
  there <- Path_exists gradlew ;;
  if there then
    run_cmd [str gradlew; "--stop"] root dry_run verbose ;; ret tt
  else match which "gradle" with
       | Some _ => run_cmd ["gradle"; "--stop"] root dry_run verbose ;; ret tt
       | None => print "WARN: gradle/gradlew not found to stop daemons; continuing"
       end.

(** 2) Clean build cache (best effort) *)
Definition clean_build_cache : M unit :=
  there <- Path_exists gradlew ;;
  if there then
    run_cmd [str gradlew; "-q"; "cleanBuildCache"] root dry_run verbose ;; ret tt
  else ret tt.

(** 3) Project-local build artifacts *)
Definition remove_project_local : M unit :=
  print ">> Removing project-local `.gradle/` and `build/` directories" ;;
  targets <- find_project_dirs_to_remove root ;;
  for_each targets (fun pth => safe_rm pth dry_run verbose).

Definition safe_patterns : list pattern :=
  [mkPattern [#"caches"] (Star "build-cache-"); mkPattern [] (Star "vcs-")].

Definition aggressive_patterns : list pattern :=
  [mkPattern [#"caches"] (Literal #"modules-2");
   mkPattern [#"caches"] (Star "jars-");
   mkPattern [#"caches"] (Star "transforms-");
   mkPattern [#"wrapper"] (Literal #"dists")].

(** The branch of step 4 taken when the guard holds, with step 5 in it. *)
Definition prune_user_caches : M unit :=
  print ">> Pruning user-level Gradle caches (safe subset)" ;;
  for_each [#"daemon"; #"notifications"] (fun sub =>
    safe_rm (gradle_user_home // sub) dry_run verbose) ;;
  glob_and_remove gradle_user_home safe_patterns dry_run verbose ;;
  let caches_dir := gradle_user_home // #"caches" in
  there <- Path_exists caches_dir ;;
  when there
    (subdirs <- Path_glob_star caches_dir ;;
     for_each subdirs (fun subdir =>
       is_dir <- Path_is_dir subdir ;;
       when is_dir (safe_rm (subdir // #"kotlin") dry_run verbose))) ;;
  let xdg_gradle := xdg_cache_home // #"gradle" in
  there <- Path_exists xdg_gradle ;;
  when there (safe_rm xdg_gradle dry_run verbose) ;;
  (* 5) Aggressive *)
  when aggressive
    (print ">> AGGRESSIVE: removing dependency caches and wrapper dists" ;;
     glob_and_remove gradle_user_home aggressive_patterns dry_run verbose).

Definition safety_warning : string :=
  "SAFETY: GRADLE_USER_HOME (" ++ str gradle_user_home ++ ") is not under HOME ("
  ++ str home ++ "); skipping user-level prune".

(** 4) User-level Gradle caches (safe subset), and 5) *)
Definition user_level_prune : M unit :=
  ok <- confirm_under_home gradle_user_home home ;;
  if negb ok then print safety_warning
  else prune_user_caches.

(** 6) Kotlin/Native toolchains *)
Definition remove_konan : M unit :=
  when include_konan
    (let konan := home // #".konan" in
     ok <- confirm_under_home konan home ;;
     if ok then
       print ">> Removing ~/.konan (Kotlin/Native)" ;;
       safe_rm konan dry_run verbose
     else print "SAFETY: refusing to remove ~/.konan outside HOME").

(** The body of [main] after [parse_args]. *)
Definition run_args : M Z :=
  print_banner ;;
  stop_daemons ;;
  clean_build_cache ;;
  remove_project_local ;;
  user_level_prune ;;
  remove_konan ;;
  print ">> zap complete" ;;
  ret 0%Z.

End Main.

(** [main] *)
Definition main (argv : cmdline) : M Z :=
  match argv with
  | CmdHelp help_text => print help_text ;; ret 0%Z
  | CmdArgs args => run_args args
  | CmdExit status => ret status
  end.

End Script.

(* ===================================================================== *)
(** ** The errors of [os.stat] that [pathlib] raises again *)
(* ===================================================================== *)

(** [Path.exists()] and [Path.is_dir()] call [os.stat], [Path.is_symlink()]
    calls [os.lstat]; each answers [False] on ENOENT, ENOTDIR, EBADF and
    ELOOP and raises any other [OSError] again.  Which paths fail that way
    is no matter of the tree (it is one of permissions, of the length of
    the names, of the device), so it is given from outside: [stat_error p
    fs] is the exception that [os.stat] raises on [p], if it raises one
    that [pathlib] lets through, and [lstat_error] the same for
    [os.lstat]. *)
Module Faults.

Section Faults.

Variable env : Env.
Variable stat_error : Path -> node -> option exn.
Variable lstat_error : Path -> node -> option exn.

(** A call that raises what the oracle says, and is [m] where it says
    nothing. *)
Definition or_raise {A} (error : node -> option exn) (m : M A) : M A :=
  fun st => match error (fs st) with
            | Some e => (Raise e, st)
            | None => m st
            end.

Definition exists_ (p : Path) : M bool := or_raise (stat_error p) (Path_exists env p).
Definition is_dir_ (p : Path) : M bool := or_raise (stat_error p) (Path_is_dir env p).
Definition is_symlink_ (p : Path) : M bool :=
  or_raise (lstat_error p) (Path_is_symlink env p).

(** [safe_rm], lines 45 to 62 of the script: [path.exists()] stands before
    the [try], [path.is_dir()] and [path.is_symlink()] inside it. *)
Definition safe_rm (path : Path) (dry_run verbose : bool) : M unit :=
  record_rm path ;;
  there <- exists_ path ;;
  if negb there then ret tt
  else if dry_run then print ("DRY-RUN: rm -rf " ++ str path)
  else
    try_except
      (is_dir <- is_dir_ path ;;
       real_dir <- (if is_dir
                    then (l <- is_symlink_ path ;; ret (negb l))
                    else ret false) ;;
       (if real_dir then shutil_rmtree env path
        else try_except_isdir (Path_unlink env path) (shutil_rmtree env path)) ;;
       when verbose (print ("removed: " ++ str path)))
      (fun ex => print ("WARN: failed to remove " ++ str path ++ ": " ++ message ex)).

End Faults.

End Faults.

(* ===================================================================== *)
(** ** Definitions used to state the properties *)
(* ===================================================================== *)

(** The text of an anchored path, one ["/name"] per component. *)
Fixpoint render (l : list name) : string :=
  match l with
  | [] => ""
  | a :: l' => sep ++ name_str a ++ render l'
  end.

(** What [confirm_under_home] answers, as a function of the file system. *)
Definition under_home (cwd : list name) (fs0 : node) (path home : Path) : bool :=
  match resolve cwd fs0 path with
  | Some p =>
      match resolve cwd fs0 home with
      | Some h => startswith (str (abs_path p)) (str (abs_path h) ++ sep)
      | None => false
      end
  | None => false
  end.

(** [p] lies strictly below [q]. *)
Definition descendant (p q : Path) : Prop :=
  anchored p = anchored q /\ exists x rest, parts p = parts q ++ x :: rest.

Definition pruned (k : name) : bool := name_in k prune.
Definition artifact (k : name) : bool := name_in k artifact_names.

(** The scanner in the words of the specification: below the directory [n]
    at [cur], [p] is a child directory (or a link to one) with the name of
    an artifact, reached through directories that are not pruned (through
    directories, not through links to them). *)
Inductive artifact_at (env : Env) (fs0 : node) : Path -> node -> Path -> Prop :=
| artifact_here cur l es k c :
    In (k, c) es ->
    entry_is_dir env fs0 cur (k, c) = true ->
    artifact k = true ->
    artifact_at env fs0 cur (Dir l es) (cur // k)
| artifact_below cur l es k l' es' p :
    In (k, Dir l' es') es ->
    pruned k = false ->
    artifact_at env fs0 (cur // k) (Dir l' es') p ->
    artifact_at env fs0 cur (Dir l es) p.

Definition artifact_under (env : Env) (fs0 : node) (root p : Path) : Prop :=
  exists n, stat (getcwd env) fs0 root = Some n /\ artifact_at env fs0 root n p.

(** The walk below one directory, entry by entry. *)
Definition walk_entries (env : Env) (fs0 : node) (cur : Path) (dirs : list name)
  (es : list (name * node)) : list Path :=
  flat_map (fun e => if descends e dirs
                     then walk_targets env fs0 (cur // fst e) (snd e)
                     else []) es.

(** Updates of the state. *)
Definition called (p : Path) (st : state) : state :=
  mkState (fs st) (stdout st) (rm_calls st ++ [p]).
Definition printed (lines : list string) (st : state) : state :=
  mkState (fs st) (stdout st ++ lines) (rm_calls st).
Definition with_fs (fs' : node) (st : state) : state :=
  mkState fs' (stdout st) (rm_calls st).

(** A computation that returns: no exception leaves it. *)
Definition returns {A} (m : M A) : Prop :=
  forall st, exists a st', m st = (Ok a, st').

(** A computation that leaves the file system as it is. *)
Definition keeps_fs {A} (m : M A) : Prop :=
  forall st, fs (snd (m st)) = fs st.

(** What [safe_rm] prints after a removal. *)
Definition report_removed (verbose : bool) (p : Path) (st : state) : state :=
  if verbose then printed [("removed: " ++ str p)%string] st else st.

(** The state that [safe_rm] leaves, branch by branch. *)
Definition safe_rm_state (env : Env) (path : Path) (dry_run verbose : bool)
  (st : state) : state :=
  let cwd := getcwd env in
  if negb (path_exists cwd (fs st) path) then called path st
  else if dry_run
  then printed [("DRY-RUN: rm -rf " ++ str path)%string] (called path st)
  else if path_is_dir cwd (fs st) path && negb (path_is_symlink cwd (fs st) path)
  then report_removed verbose path
         (with_fs (rmtree_fs env path (fs st)) (called path st))
  else match unlink_fs env path (fs st) with
       | Ok fs' => report_removed verbose path (with_fs fs' (called path st))
       | Raise e =>
           match kind e with
           | IsADirectoryError =>
               report_removed verbose path
                 (with_fs (rmtree_fs env path (fs st)) (called path st))
           | _ =>
               printed
                 [("WARN: failed to remove " ++ str path ++ ": " ++ message e)%string]
                 (called path st)
           end
       end.

(** Something in the tree cannot be removed. *)
Fixpoint locked_inside (n : node) : bool :=
  match n with
  | File l => l
  | Link l _ => l
  | Dir l es =>
      l || (fix any (es : list (name * node)) : bool :=
              match es with
              | [] => false
              | (_, c) :: tl => locked_inside c || any tl
              end) es
  end.

(** What [run_cmd] prints before it starts a process. *)
Definition announce_run (verbose : bool) (cmd : list string) (cwd : Path)
  (st : state) : state :=
  if verbose
  then printed [("RUN: " ++ join_with " " cmd ++ " (cwd=" ++ str cwd ++ ")")%string] st
  else st.

(** The steps of a run before and after the user-level tier. *)
Definition before_project_local (env : Env) (args : Args) : M unit :=
  (print_banner env args ;; stop_daemons env args ;; clean_build_cache env args)%monad.

Definition after_user_level (env : Env) (args : Args) : M Z :=
  (remove_konan env args ;; print ">> zap complete" ;; ret 0%Z)%monad.

(** A computation whose calls of [safe_rm] all satisfy [P]. *)
Definition calls_only {A} (P : Path -> Prop) (m : M A) : Prop :=
  forall st, exists new,
    rm_calls (snd (m st)) = rm_calls st ++ new /\ Forall P new.

(** A computation whose value, when it returns one, satisfies [Q]. *)
Definition yields {A} (Q : A -> Prop) (m : M A) : Prop :=
  forall st a st', m st = (Ok a, st') -> Q a.

(** A name that a wildcard accepts. *)
Definition accepts (w : wildcard) (k : name) : Prop :=
  match w with
  | Literal n => k = n
  | Star prefix => glob_match prefix k = true
  end.

(** [p] has the form of a hit of the pattern below [base]. *)
Definition fits (base : Path) (pat : pattern) (p : Path) : Prop :=
  exists k, p = joinparts base (pat_dir pat) // k /\ accepts (pat_base pat) k.

(** The last component of [p] is [k]. *)
Definition ends_with (p : Path) (k : name) : Prop :=
  exists d, parts p = d ++ [k].


(** Two nodes of the same kind: same lock, same target. *)
Definition same_kind (a b : node) : Prop :=
  match a, b with
  | File l, File l' => l = l'
  | Link l t, Link l' t' => l = l' /\ t = t'
  | Dir l _, Dir l' _ => l = l'
  | _, _ => False
  end.

(** [a] is [b] with some entries taken away. *)
Definition shrinks (a b : node) : Prop :=
  forall q n', lookup a q = Some n' -> exists n, lookup b q = Some n /\ same_kind n' n.

Definition any_locked (es : list (name * node)) : bool :=
  existsb (fun e => locked_inside (snd e)) es.

(** A path that ends in a plain name. *)
Definition plain_end (p : Path) : Prop :=
  exists d c, parts p = d ++ [c] /\ name_eqb c dot = false /\ name_eqb c dotdot = false.

(** Computations that only take entries away from a file system where
    nothing is locked. *)
Definition only_removes {A} (m : M A) : Prop :=
  forall st, locked_inside (fs st) = false ->
             locked_inside (fs (snd (m st))) = false /\
             shrinks (fs (snd (m st))) (fs st).

(** A pattern without wildcard but the star at its end: what the script
    hands to [glob] for it, below a base without wildcard, is read by [glob]
    as [glob_hits] reads it. *)
Definition star_only (pat : pattern) : bool :=
  forallb (fun k => negb (has_magic (name_str k))) (pat_dir pat)
  && match pat_base pat with
     | Literal n => negb (has_magic (name_str n))
     | Star prefix => negb (has_magic prefix)
     end.

(** A pattern that accepts plain names only. *)
Definition plain_pattern (pat : pattern) : Prop :=
  forall k, accepts (pat_base pat) k ->
            name_eqb k dot = false /\ name_eqb k dotdot = false.


(** A small world to run the script in:
<<
   /home/u/.gradle/daemon/x
                  /caches/build-cache-1/
                  /caches/modules-2/kotlin/k
                  /caches/modules-2/m
                  /caches/jars-9/j            (j cannot be removed)
                  /wrapper/dists/
   /home/u/proj/build/o
               /build/.gradle/
               /src/build/
               /src/main/.gradle              (a file)
               /src/main/build -> /tmp
               /.git/build/
   /home/u/loop -> /home/u/loop
   /tmp/cache/gradle/z
>>
    The working directory is [/home/u/proj], the home [/home/u]; there is no
    [gradlew] and no [gradle], and no process can be started. *)
Module Sample.

Definition d (es : list (name * node)) : node := Dir false es.
Definition f : node := File false.

Definition dot_gradle : node :=
  d [(#"daemon", d [(#"x", f)]);
     (#"caches", d [(#"build-cache-1", d []);
                    (#"modules-2", d [(#"kotlin", d [(#"k", f)]); (#"m", f)]);
                    (#"jars-9", d [(#"j", File true)])]);
     (#"wrapper", d [(#"dists", d [])])].

Definition proj : node :=
  d [(#"build", d [(#"o", f); (#".gradle", d [])]);
     (#"src", d [(#"build", d []);
                 (#"main", d [(#".gradle", f);
                              (#"build", Link false (abs_path [#"tmp"]))])]);
     (#".git", d [(#"build", d [])])].

Definition u_home : Path := abs_path [#"home"; #"u"].

Definition disk : node :=
  d [(#"home", d [(#"u", d [(#".gradle", dot_gradle);
                            (#"proj", proj);
                            (#"loop", Link false (u_home // #"loop"))])]);
     (#"tmp", d [(#"cache", d [(#"gradle", d [(#"z", f)])])])].

Definition no_process (cmd : list string) (cwd : Path) (fs0 : node) : completed :=
  NotStarted (Exn FileNotFoundError
                ("[Errno 2] No such file or directory: " ++ repr (hd EmptyString cmd))).

Definition world : Env :=
  mkEnv [#"home"; #"u"; #"proj"] u_home (fun _ => None) no_process.

(** The same machine with a [gradle] on the path that succeeds and changes
    nothing. *)
Definition gradle_succeeds (cmd : list string) (cwd : Path) (fs0 : node) : completed :=
  Completed 0%Z fs0.

Definition world_with_gradle : Env :=
  mkEnv [#"home"; #"u"; #"proj"] u_home (fun _ => Some "/usr/bin/gradle")
        gradle_succeeds.

(** The same machine for a user whose home is the root directory. *)
Definition world_root_home : Env :=
  mkEnv [#"home"; #"u"; #"proj"] (abs_path []) (fun _ => None) no_process.

(** The same machine for a run from the home directory. *)
Definition world_at_home : Env :=
  mkEnv [#"home"; #"u"] u_home (fun _ => None) no_process.

Definition start : state := mkState disk [] [].

(** The same disk without the file that cannot be removed. *)
Definition dot_gradle_unlocked : node :=
  d [(#"daemon", d [(#"x", f)]);
     (#"caches", d [(#"build-cache-1", d []);
                    (#"modules-2", d [(#"kotlin", d [(#"k", f)]); (#"m", f)]);
                    (#"jars-9", d [(#"j", f)])]);
     (#"wrapper", d [(#"dists", d [])])].

Definition disk_unlocked : node :=
  d [(#"home", d [(#"u", d [(#".gradle", dot_gradle_unlocked);
                            (#"proj", proj);
                            (#"loop", Link false (u_home // #"loop"))])]);
     (#"tmp", d [(#"cache", d [(#"gradle", d [(#"z", f)])])])].

Definition start_unlocked : state := mkState disk_unlocked [] [].

Definition options (gradle_user_home xdg_cache_home : Path)
  (dry_run aggressive : bool) : Args :=
  mkArgs (mkPath false [#"gradlew"]) gradle_user_home xdg_cache_home
         dry_run aggressive false false.

(** The same machine after [chmod 000 /home/u/.gradle]: [os.stat] and
    [os.lstat] of what lies inside fail with EACCES. *)
Definition denied (p : Path) : exn :=
  Exn PermissionError ("[Errno 13] Permission denied: " ++ repr (str p)).

Definition no_search (p : Path) (fs0 : node) : option exn :=
  if startswith (str p) "/home/u/.gradle/" then Some (denied p) else None.

Definition no_error (p : Path) (fs0 : node) : option exn := None.

End Sample.

(* ===================================================================== *)
(** ** More definitions used to state the properties *)
(* ===================================================================== *)

(** A tree as [scandir] can list it: in every directory a name occurs once,
    and no entry is called ["."] or [".."]. *)
Fixpoint tidy (n : node) : bool :=
  match n with
  | Dir _ es =>
      (fix go (es : list (name * node)) : bool :=
         match es with
         | [] => true
         | (k, c) :: tl =>
             negb (name_eqb k dot) && negb (name_eqb k dotdot)
             && negb (name_in k (map fst tl)) && tidy c && go tl
         end) es
  | _ => true
  end.

(** [a] is the beginning of [b]. *)
Fixpoint prefixb (a b : list name) : bool :=
  match a, b with
  | [], _ => true
  | x :: a', y :: b' => name_eqb x y && prefixb a' b'
  | _ :: _, [] => false
  end.

(** Two places of which one lies at or below the other. *)
Definition related (a b : list name) : bool := prefixb a b || prefixb b a.

(** The place of the entry that a path names: the resolved directory of its
    last component and the name in it; for a path that ends in ["."] or
    [".."], or has no component, the directory it leads to. *)
Definition place (cwd : list name) (fs0 : node) (p : Path) : option (list name) :=
  match locate cwd fs0 p with
  | Some (rd, c) => Some (rd ++ [c])
  | None => realpath_from fs0 true MAXSYMLINKS [] (absolute cwd p)
  end.

(** [safe_rm p] has something to remove at, above or below the place [q]:
    [p] exists and names an entry there. *)
Definition touches (cwd : list name) (fs0 : node) (p : Path) (q : list name) : bool :=
  path_exists cwd fs0 p
  && match place cwd fs0 p with
     | Some r => related r q
     | None => false
     end.

(** The processes that the run starts leave the file system as it is. *)
Definition processes_keep_fs (env : Env) : Prop :=
  forall cmd cwd fs0 rc fs', spawn env cmd cwd fs0 = Completed rc fs' -> fs' = fs0.

(** [a] is [b] with some entries taken away, and what could be removed in
    [b] can be removed in [a]. *)
Definition wanes (a b : node) : Prop :=
  forall q n', lookup a q = Some n' ->
    exists n, lookup b q = Some n /\ same_kind n' n
              /\ (locked_inside n = false -> locked_inside n' = false).

(** A computation that, on a tidy file system, only takes entries away, and
    only at, above or below the places that its calls of [safe_rm] name. *)
Definition careful {A} (env : Env) (m : M A) : Prop :=
  forall st, tidy (fs st) = true ->
    tidy (fs (snd (m st))) = true /\
    wanes (fs (snd (m st))) (fs st) /\
    exists new,
      rm_calls (snd (m st)) = rm_calls st ++ new /\
      forall q, (forall p, In p new -> touches (getcwd env) (fs st) p q = false) ->
                lookup (fs (snd (m st))) q = lookup (fs st) q.



(** The entries that [rmtree] leaves in a directory. *)
Fixpoint rmtree_entries (es : list (name * node)) : list (name * node) :=
  match es with
  | [] => []
  | (k, c) :: tl =>
      match rmtree_node c with
      | None => rmtree_entries tl
      | Some c' => (k, c') :: rmtree_entries tl
      end
  end.

(* ===================================================================== *)
(** * release: a shallow embedding of [scripts/release.py] *)
(* ===================================================================== *)

(** The release script works on text files, regular expressions and child
    processes.  What the standard library does there is taken as given, in a
    record of functions over an abstract world; the methods of
    [ReleaseManager] are written out over it, in the order of the source. *)

Module Release.

Definition quote : string := String "034"%char "".
Definition nl : string := String "010"%char "".

(** What [subprocess.run(cmd, cwd=..., text=True)] comes to: the child ran
    and left an exit status and the text of its two streams, or the call
    raised (the program was not found, say). *)
Inductive finished : Type :=
| Exited (returncode : Z) (out err : string)
| NotRun (e : exn).

Record Host (W : Type) : Type := mkHost {
  (* [subprocess.run] on a command and a working directory *)
  spawn_process : list string -> Path -> W -> finished * W;
  (* [str(e)] of the [CalledProcessError] for a command and its status *)
  called_process_error : list string -> Z -> string;
  (* [open(p, 'r', encoding='utf-8').read()] *)
  read_text : Path -> W -> result string;
  (* [open(p, 'w', encoding='utf-8').write(text)] *)
  write_text : Path -> string -> W -> result unit * W;
  (* [list(root.glob(pattern))] *)
  path_glob : Path -> string -> W -> result (list Path);
  (* [re.search(pattern, text, flags)]: [None], or a match with the text of
     its group 1 (empty when the pattern has no group) *)
  re_search : string -> bool -> string -> option string;
  (* [re.sub(pattern, repl, text, flags=flags)] *)
  re_sub : string -> string -> bool -> string -> result string;
  (* [re.match(pattern, text)], as a truth value *)
  re_match : string -> string -> bool;
  re_escape : string -> string;
  (* [text.strip()] *)
  strip : string -> string;
  (* [os.getenv] *)
  getenv : string -> option string;
  (* [datetime.now().strftime(format)] *)
  strftime_now : string -> string
}.

(** The state of a run: the world, the lines printed so far, and a history
    of the commands handed to [subprocess.run] (kept only to state the
    properties; the script does not read it). *)
Record session (W : Type) : Type := mkSession {
  world : W;
  output : list string;
  commands : list (list string)
}.

Declare Scope release_scope.
Delimit Scope release_scope with release.

Section Program.

Variable W : Type.
Variable host : Host W.

Definition R (A : Type) : Type := session W -> result A * session W.

Definition ret {A} (a : A) : R A := fun s => (Ok a, s).

Definition bind {A B} (m : R A) (k : A -> R B) : R B :=
  fun s => match m s with
           | (Ok a, s') => k a s'
           | (Raise e, s') => (Raise e, s')
           end.

Notation "x <- m ;; k" := (bind m (fun x => k))
  (at level 61, m at next level, right associativity) : release_scope.
Notation "m ;; k" := (bind m (fun _ => k))
  (at level 61, right associativity) : release_scope.
Local Open Scope release_scope.

(** [try: body except Exception as e: handler(e)] *)
Definition try_except {A} (body : R A) (handler : exn -> R A) : R A :=
  fun s => match body s with
           | (Raise e, s') => handler e s'
           | r => r
           end.

Definition print (line : string) : R unit :=
  fun s => (Ok tt, mkSession (world s) (output s ++ [line]) (commands s)).

Definition when (b : bool) (m : R unit) : R unit := if b then m else ret tt.

Definition open_read (p : Path) : R string :=
  fun s => (read_text host p (world s), s).

Definition open_write (p : Path) (text : string) : R unit :=
  fun s => let (r, w) := write_text host p text (world s) in
           (r, mkSession w (output s) (commands s)).

Definition Path_glob (root : Path) (pattern : string) : R (list Path) :=
  fun s => (path_glob host root pattern (world s), s).

(** [subprocess.run(cmd, cwd=cwd, capture_output=..., text=True, check=True)]:
    the result, or the [CalledProcessError] that [check=True] raises for a
    status other than 0.  The streams are [None] unless they are captured. *)
Inductive run_outcome : Type :=
| CompletedProcess (stdout : option string)
| CalledProcessError (returncode : Z) (stdout stderr : option string).

Definition subprocess_run (cmd : list string) (cwd : Path) (capture_output : bool)
  : R run_outcome :=
  fun s =>
    let (r, w) := spawn_process host cmd cwd (world s) in
    let s' := mkSession w (output s) (commands s ++ [cmd]) in
    match r with
    | NotRun e => (Raise e, s')
    | Exited rc out err =>
        let captured (t : string) := if capture_output then Some t else None in
        if (rc =? 0)%Z then (Ok (CompletedProcess (captured out)), s')
        else (Ok (CalledProcessError rc (captured out) (captured err)), s')
    end.

(** The truth value of an optional string: [None] and [""] are false. *)
Definition truthy (o : option string) : bool :=
  match o with
  | Some t => negb (t =? "")
  | None => false
  end.

(** [a or b] on optional strings *)
Definition py_or (a b : option string) : option string :=
  if truthy a then a else b.

Definition text_of (o : option string) : string :=
  match o with Some t => t | None => "None" end.

Definition is_some {A} (o : option A) : bool :=
  match o with Some _ => true | None => false end.

Definition str_nat (n : nat) : string := NilEmpty.string_of_uint (Nat.to_uint n).

(** [path.parent] *)
Definition parent (p : Path) : Path := mkPath (anchored p) (removelast (parts p)).

Fixpoint strip_prefix (pre l : list name) : option (list name) :=
  match pre, l with
  | [], _ => Some l
  | a :: pre', b :: l' => if name_eqb a b then strip_prefix pre' l' else None
  | _ :: _, [] => None
  end.

(** [path.relative_to(root)]; the text of the [ValueError] is not kept. *)
Definition relative_to (p root : Path) : R Path :=
  match (if Bool.eqb (anchored p) (anchored root)
         then strip_prefix (parts root) (parts p) else None) with
  | Some rest => ret (mkPath false rest)
  | None => fun s => (Raise (Exn OtherError "ValueError"), s)
  end.

(** [class ReleaseManager] *)
Record ReleaseManager : Type := mkReleaseManager {
  project_root : Path;
  date_str : string
}.

(** [__init__]; the paths of this model are what [Path(text)] gives, so the
    [str] of [main] and the [Path] here cancel. *)
Definition ReleaseManager_init (root : Path) : ReleaseManager :=
  mkReleaseManager root (strftime_now host "%B %Y").

Section Methods.

Variable self : ReleaseManager.

(** The second loop of [find_markdown_files]. *)
Fixpoint with_version_header (md_files : list Path) : R (list Path) :=
  match md_files with
  | [] => ret []
  | md_file :: rest =>
      keep <- try_except
                (content <- open_read md_file ;;
                 ret (is_some (re_search host "\*\*Version:\*\*" false content)))
                (fun e =>
                   print ("Warning: Could not read " ++ str md_file ++ ": " ++ message e) ;;
                   ret false) ;;
      versioned_files <- with_version_header rest ;;
      ret (if keep then md_file :: versioned_files else versioned_files)
  end.

Definition find_markdown_files : R (list Path) :=
  all_md <- Path_glob (project_root self) "**/*.md" ;;
  readmes <- Path_glob (project_root self) "**/README.md" ;;
  with_version_header (all_md ++ readmes).

Definition lift {A} (r : result A) : R A := fun s => (r, s).

Definition update_markdown_version (file_path : Path) (new_version : string) : R bool :=
  try_except
    (content <- open_read file_path ;;
     content <- lift (re_sub host "\*\*Version:\*\* [^\s]+"
                        ("**Version:** " ++ new_version) false content) ;;
     content <- lift (re_sub host "\*\*Date:\*\* [^\n]+"
                        ("**Date:** " ++ date_str self) false content) ;;
     open_write file_path content ;;
     ret true)
    (fun e =>
       print ("Error updating " ++ str file_path ++ ": " ++ message e) ;;
       ret false).

Definition update_gradle_version (new_version : string) : R bool :=
  let gradle_file := project_root self // #"build.gradle.kts" in
  try_except
    (content <- open_read gradle_file ;;
     content <- lift (re_sub host ("version = " ++ quote ++ "[^" ++ quote ++ "]+" ++ quote)
                        ("version = " ++ quote ++ new_version ++ quote) false content) ;;
     open_write gradle_file content ;;
     ret true)
    (fun e =>
       print ("Error updating gradle version: " ++ message e) ;;
       ret false).

Definition release_section (new_version unreleased_content : string) : string :=
  join_with nl
    [ ("## [" ++ new_version ++ "] - " ++ date_str self)%string; "";
      unreleased_content; "";
      "## [Unreleased]"; "";
      "### Added"; ""; "";
      "### Changed"; ""; "";
      "### Fixed"; ""; "";
      "### Removed"; ""; "";
      "### Security"; ""; "" ].

Definition update_changelog (new_version : string) : R bool :=
  let changelog_file := project_root self // #"CHANGELOG.md" in
  try_except
    (content <- open_read changelog_file ;;
     match re_search host "## \[Unreleased\]\s*\n(.*?)(?=\n## |\Z)" true content with
     | Some group1 =>
         let unreleased_content := strip host group1 in
         content <- lift (re_sub host "## \[Unreleased\]\s*\n.*?(?=\n## |\Z)"
                            (release_section new_version unreleased_content)
                            true content) ;;
         open_write changelog_file content ;;
         ret true
     | None =>
         print "Could not find [Unreleased] section in CHANGELOG.md" ;;
         ret false
     end)
    (fun e =>
       print ("Error updating changelog: " ++ message e) ;;
       ret false).

Definition run_command (cmd : list string) (capture_output : bool) : R (option string) :=
  result <- subprocess_run cmd (project_root self) capture_output ;;
  match result with
  | CompletedProcess stdout => ret (if capture_output then stdout else None)
  | CalledProcessError rc stdout stderr =>
      print ("Command failed: " ++ join_with " " cmd) ;;
      print ("Error: " ++ called_process_error host cmd rc) ;;
      when (truthy stdout) (print ("Stdout: " ++ text_of stdout)) ;;
      when (truthy stderr) (print ("Stderr: " ++ text_of stderr)) ;;
      ret None
  end.

Definition verify_clean_working_tree : R bool :=
  result <- run_command ["git"; "status"; "--porcelain"] true ;;
  match result with
  | None => ret false
  | Some text => ret (String.length (strip host text) =? 0)%nat
  end.

(** [for cmd in commands: ...; if self.run_command(cmd) is None: return False]
    followed by [return True]; three of the four loops of this shape print
    the command first. *)
Fixpoint run_each (announce : bool) (cmds : list (list string)) : R bool :=
  match cmds with
  | [] => ret true
  | cmd :: rest =>
      when announce (print ("Running: " ++ join_with " " cmd)) ;;
      result <- run_command cmd false ;;
      match result with
      | None => ret false
      | Some _ => run_each announce rest
      end
  end.

Definition verify_tests_pass : R bool :=
  print "Running tests and quality checks..." ;;
  run_each true [ ["./gradlew"; "clean"; "build"; "test"; "check"];
                  ["make"; "test-arch"] ].

Definition verify_security_scan : R bool :=
  print "Running security scan..." ;;
  result <- run_command ["./gradlew"; "dependencyCheckAggregate"] false ;;
  ret (is_some result).

Definition create_git_tag (version : string) : R bool :=
  let tag_name := ("v" ++ version)%string in
  let message := ("Release version " ++ version)%string in
  result <- run_command ["git"; "tag"; "-a"; tag_name; "-m"; message] false ;;
  ret (is_some result).

Definition push_changes (version : string) : R bool :=
  run_each false [ ["git"; "push"; "origin"; "main"];
                   ["git"; "push"; "origin"; ("v" ++ version)%string] ].

Definition build_distribution_artifacts (version : string) : R bool :=
  print "Building distribution artifacts..." ;;
  run_each true [ ["./gradlew"; "clean"; "build"];
                  ["./gradlew"; "jar"; "sourcesJar"; "javadocJar"];
                  ["make"; "diagrams"] ].

(** [for module in [...]: jar_files.extend(list(root.glob(...)))] *)
Fixpoint module_jars (modules : list string) : R (list Path) :=
  match modules with
  | [] => ret []
  | module :: rest =>
      jars <- Path_glob (project_root self) (module ++ "/build/libs/*.jar") ;;
      more <- module_jars rest ;;
      ret (jars ++ more)
  end.

Definition create_github_release (version : string) : R bool :=
  let changelog_file := project_root self // #"CHANGELOG.md" in
  release_notes <-
    try_except
      (content <- open_read changelog_file ;;
       let version_pattern :=
         ("## \[" ++ re_escape host version ++ "\][^\n]*\n(.*?)(?=\n## |\Z)")%string in
       match re_search host version_pattern true content with
       | Some group1 => ret (strip host group1)
       | None => ret ("Release version " ++ version)%string
       end)
      (fun e =>
         print ("Warning: Could not extract release notes: " ++ message e) ;;
         ret ("Release version " ++ version)%string) ;;
  built <- build_distribution_artifacts version ;;
  if negb built then
    print "❌ Failed to build distribution artifacts" ;;
    ret false
  else
    jar_files <- module_jars ["bootstrap"; "domain"; "application";
                              "infrastructure"; "presentation"] ;;
    let cmd := ["gh"; "release"; "create"; ("v" ++ version)%string;
                "--title"; ("Release " ++ version)%string;
                "--notes"; release_notes] ++ map str jar_files in
    result <- run_command cmd false ;;
    ret (is_some result).

(** The loop of [prepare_release] over the markdown files. *)
Fixpoint update_each (md_files : list Path) (version : string) : R bool :=
  match md_files with
  | [] => ret true
  | md_file :: rest =>
      updated <- update_markdown_version md_file version ;;
      if negb updated then ret false
      else
        shown <- relative_to md_file (project_root self) ;;
        print ("  ✓ " ++ str shown) ;;
        update_each rest version
  end.

Definition prepare_release (version : string) : R bool :=
  print ("Preparing release " ++ version ++ "...") ;;
  md_files <- find_markdown_files ;;
  print ("Updating " ++ str_nat (List.length md_files) ++ " markdown files...") ;;
  updated <- update_each md_files version ;;
  if negb updated then ret false
  else
    print "Updating Gradle version..." ;;
    updated <- update_gradle_version version ;;
    if negb updated then ret false
    else
      print "  ✓ build.gradle.kts" ;;
      print "Updating CHANGELOG.md..." ;;
      updated <- update_changelog version ;;
      if negb updated then ret false
      else
        print "  ✓ CHANGELOG.md" ;;
        passed <- verify_tests_pass ;;
        if negb passed then
          print "❌ Tests or quality checks failed" ;;
          ret false
        else
          print "  ✓ All tests and quality checks passed" ;;
          passed <- verify_security_scan ;;
          if negb passed then
            print "❌ Security scan failed" ;;
            ret false
          else
            print "  ✓ Security scan passed" ;;
            print (nl ++ "✅ Release " ++ version ++ " prepared successfully!") ;;
            print (nl ++ "Next steps:") ;;
            print "1. Review the changes" ;;
            print "2. Commit the changes: git add -A && git commit -m 'Prepare release {version}'" ;;
            print ("3. Run: python scripts/release.py release " ++ version) ;;
            ret true.

Definition create_release (version : string) : R bool :=
  print ("Creating release " ++ version ++ "...") ;;
  clean <- verify_clean_working_tree ;;
  if negb clean then
    print "❌ Working tree is not clean. Please commit changes first." ;;
    ret false
  else
    print "Creating git tag..." ;;
    tagged <- create_git_tag version ;;
    if negb tagged then ret false
    else
      print ("  ✓ Created tag v" ++ version) ;;
      print "Pushing to origin..." ;;
      pushed <- push_changes version ;;
      if negb pushed then ret false
      else
        print "  ✓ Pushed changes and tag" ;;
        print "Creating GitHub release..." ;;
        created <- create_github_release version ;;
        if negb created then ret false
        else
          print "  ✓ Created GitHub release" ;;
          print (nl ++ "🎉 Release " ++ version ++ " created successfully!") ;;
          ret true.

Definition verify_maven_credentials : R bool :=
  let username := py_or (getenv host "GPR_USER") (getenv host "GITHUB_ACTOR") in
  let token := py_or (getenv host "GPR_TOKEN") (getenv host "GITHUB_TOKEN") in
  if negb (truthy username) || negb (truthy token) then
    print "❌ Maven publishing credentials not found" ;;
    print "Required environment variables:" ;;
    print "  - GPR_USER (or GITHUB_ACTOR)" ;;
    print "  - GPR_TOKEN (or GITHUB_TOKEN)" ;;
    print (nl ++ "To set up GitHub Packages publishing:") ;;
    print "1. Create a personal access token with 'write:packages' scope" ;;
    print "2. Export GPR_USER=your-github-username" ;;
    print "3. Export GPR_TOKEN=your-personal-access-token" ;;
    ret false
  else ret true.

Definition publish_to_maven (version : string) : R bool :=
  print ("Publishing " ++ version ++ " to GitHub Packages...") ;;
  found <- verify_maven_credentials ;;
  if negb found then ret false
  else
    done <- run_each true
              [ ["./gradlew"; "clean"; "build"];
                ["./gradlew"; "publishAllPublicationsToGitHubPackagesRepository"] ] ;;
    if negb done then ret false
    else
      print ("✅ Successfully published " ++ version ++ " to GitHub Packages") ;;
      print "📦 Packages available at: https://github.com/your-username/kotlin-hybrid-architecture-template/packages" ;;
      ret true.

End Methods.

(** The [action] of the command line; [argparse] admits no other. *)
Inductive action : Type := prepare | release | publish.

Record Args : Type := mkArgs { arg_action : action; arg_version : string }.

(** What [parser.parse_args()] comes to: the arguments, or an exit of
    [argparse] itself, with status 0 after [-h] and with status 2 after a
    usage error (no action or an unknown one, no version, an unknown
    option). *)
Inductive cmdline : Type :=
| CmdArgs (args : Args)
| CmdExit (status : Z).

(** [main], with the path of the script; the value is the status with which
    the process ends, handed to [sys.exit] by the last line of the script or
    by [argparse]. *)
Definition main (script_file : Path) (argv : cmdline) : R Z :=
  match argv with
  | CmdExit status => ret status
  | CmdArgs args =>
      if negb (re_match host "^\d+\.\d+\.\d+$" (arg_version args)) then
        print "Error: Version must be in format X.Y.Z (e.g., 1.0.0)" ;;
        ret 1%Z
      else
        let script_dir := parent script_file in
        let project_root := parent script_dir in
        let release_manager := ReleaseManager_init project_root in
        success <- match arg_action args with
                   | prepare => prepare_release release_manager (arg_version args)
                   | release => create_release release_manager (arg_version args)
                   | publish => publish_to_maven release_manager (arg_version args)
                   end ;;
        ret (if success then 0%Z else 1%Z)
  end.

End Program.

(** ** Definitions used to state the properties of the release script *)

Section Statements.

Variable W : Type.

(** A computation that never answers [True]. *)
Definition never_true (m : R W bool) : Prop :=
  forall s, fst (m s) <> Ok true.

(** A computation that starts no process. *)
Definition quiet {A} (m : R W A) : Prop :=
  forall s, commands (snd (m s)) = commands s.

(** A computation that leaves the world as it is. *)
Definition reads_only {A} (m : R W A) : Prop :=
  forall s, world (snd (m s)) = world s.

(** The file can be read and its text has a version header. *)
Definition has_version_header (host : Host W) (w : W) (md_file : Path) : bool :=
  match read_text host md_file w with
  | Ok content => is_some (re_search host "\*\*Version:\*\*" false content)
  | Raise _ => false
  end.

(** One of the two variables holds a text that is not empty. *)
Definition env_set (host : Host W) (var other : string) : bool :=
  truthy (getenv host var) || truthy (getenv host other).

End Statements.

(** A small host to run the release script on.  The world is the list of
    the files written so far; the project holds a README with a version
    header, a changelog with an unreleased section and a build file; the
    working tree is clean, every command succeeds and the credentials are
    set.  The regular expressions are stand-ins that look at the start of
    the text only. *)
Module Sample.

Definition files : Type := list (Path * string).

Definition readme : string := "**Version:** 0.9.0".
Definition changelog : string := "## [Unreleased]" ++ nl ++ "### Added" ++ nl.

Definition read (p : Path) (w : files) : result string :=
  match find (fun entry => str (fst entry) =? str p) (rev w) with
  | Some entry => Ok (snd entry)
  | None =>
      if str p =? "README.md" then Ok readme
      else if str p =? "CHANGELOG.md" then Ok changelog
      else if str p =? "build.gradle.kts" then Ok "version = 0.9.0"
      else Raise (Exn FileNotFoundError "[Errno 2] No such file or directory")
  end.

Definition glob (root : Path) (pattern : string) (w : files) : result (list Path) :=
  if pattern =? "**/*.md" then Ok [root // #"README.md"; root // #"docs" // #"guide.md"]
  else if pattern =? "**/README.md" then Ok [root // #"README.md"]
  else Ok [].

Definition search (pattern : string) (dotall : bool) (text : string) : option string :=
  if pattern =? "\*\*Version:\*\*" then
    if String.prefix "**Version:**" text then Some "" else None
  else if String.prefix "## [Unreleased]" text then Some "### Added" else None.

Definition succeed (out : string) (cmd : list string) (cwd : Path) (w : files)
  : finished * files :=
  (Exited 0%Z out "", w).

Definition host_with (status_out : string) (secret : option string) : Host files :=
  mkHost
    (succeed status_out)
    (fun cmd rc => "Command returned non-zero exit status")
    read
    (fun p text w => (Ok tt, w ++ [(p, text)]))
    glob
    search
    (fun pattern repl dotall text => Ok repl)
    (fun pattern text => true)
    (fun text => text)
    (fun text => text)
    (fun var => secret)
    (fun format => "November 2026").

Definition host : Host files := host_with "" (Some "secret").

(** The same host with a working tree that has changes. *)
Definition host_dirty : Host files := host_with " M README.md" (Some "secret").

(** The same host without credentials in the environment. *)
Definition host_anonymous : Host files := host_with "" None.

Definition start : session files := mkSession [] [] [].

(** A start where the changelog was overwritten and has no unreleased
    section any more. *)
Definition start_released : session files :=
  mkSession [(mkPath false [#"CHANGELOG.md"], "## [1.0.0] - October 2026")] [] [].

Definition script : Path := mkPath false [#"scripts"; #"release.py"].

Definition manager : ReleaseManager := ReleaseManager_init host (parent (parent script)).

End Sample.

End Release.

(* ===================================================================== *)
(** * Properties *)
(* ===================================================================== *)

Unset Implicit Arguments.

(** ** Names and the text of a path *)

Lemma name_ext (a b : name) : name_str a = name_str b -> a = b.
Proof.
  destruct a as [s Hs], b as [t Ht]; simpl; intros E; subst t.
  f_equal. apply UIP_dec. apply bool_dec.
Qed.

Lemma name_eqb_eq (a b : name) : name_eqb a b = true <-> a = b.
Proof.
  unfold name_eqb; split.
  - intros H; apply name_ext, String.eqb_eq, H.
  - intros ->; apply String.eqb_refl.
Qed.

Lemma name_eqb_refl (a : name) : name_eqb a a = true.
Proof. apply name_eqb_eq; reflexivity. Qed.

Lemma name_eqb_neq (a b : name) : name_eqb a b = false <-> a <> b.
Proof.
  split.
  - intros H E; apply name_eqb_eq in E; congruence.
  - intros H; destruct (name_eqb a b) eqn:E; [|reflexivity].
    apply name_eqb_eq in E; contradiction.
Qed.

Lemma name_eqb_sym (a b : name) : name_eqb a b = name_eqb b a.
Proof. unfold name_eqb; apply String.eqb_sym. Qed.

Lemma name_in_In (a : name) (l : list name) : name_in a l = true <-> In a l.
Proof.
  unfold name_in; rewrite existsb_exists; split.
  - intros [x [Hx E]]; apply name_eqb_eq in E; subst; exact Hx.
  - intros H; exists a; split; [exact H|apply name_eqb_refl].
Qed.

Lemma name_no_sep (a : name) : has_sep (name_str a) = false.
Proof.
  destruct a as [s Hs]; simpl. unfold valid_name in Hs.
  destruct s; [discriminate|]. apply negb_true_iff, Hs.
Qed.

Lemma name_not_empty (a : name) : name_str a <> "".
Proof. destruct a as [s Hs]; simpl; destruct s; [discriminate Hs|discriminate]. Qed.

Lemma append_nil_r (s : string) : (s ++ "")%string = s.
Proof. induction s; simpl; congruence. Qed.

Lemma append_assoc (s t u : string) : ((s ++ t) ++ u = s ++ (t ++ u))%string.
Proof. induction s; simpl; congruence. Qed.

Lemma sep_join_render (l : list name) :
  l <> [] -> (sep ++ join_names l)%string = render l.
Proof.
  induction l as [|a l IH]; [congruence|intros _].
  destruct l as [|b l].
  - simpl. rewrite append_nil_r; reflexivity.
  - change (join_names (a :: b :: l))
      with (name_str a ++ sep ++ join_names (b :: l))%string.
    rewrite IH by discriminate. reflexivity.
Qed.

Lemma str_abs_nil : str (abs_path []) = sep.
Proof. reflexivity. Qed.

Lemma str_abs_cons (a : name) (l : list name) :
  str (abs_path (a :: l)) = render (a :: l).
Proof. unfold str; simpl anchored; simpl parts. apply sep_join_render; discriminate. Qed.

Lemma prefix_cons (a b : ascii) (s t : string) :
  String.prefix (String a s) (String b t) = Ascii.eqb a b && String.prefix s t.
Proof.
  simpl. destruct (ascii_dec a b) as [->|N].
  - rewrite Ascii.eqb_refl; reflexivity.
  - apply Ascii.eqb_neq in N; rewrite N; reflexivity.
Qed.

Lemma prefix_app (s t u : string) : String.prefix (s ++ t)%string (s ++ u)%string = String.prefix t u.
Proof.
  induction s as [|a s IH]; [reflexivity|].
  change (String.prefix (String a (s ++ t)%string) (String a (s ++ u)%string)
          = String.prefix t u).
  rewrite prefix_cons, Ascii.eqb_refl; exact IH.
Qed.

Lemma prefix_length (s t : string) :
  String.prefix s t = true -> String.length s <= String.length t.
Proof.
  revert t; induction s as [|a s IH]; intros [|b t]; simpl; try lia; try discriminate.
  destruct (ascii_dec a b); [|discriminate]. intros H; apply IH in H; lia.
Qed.

Lemma length_append (s t : string) :
  String.length (s ++ t)%string = String.length s + String.length t.
Proof. induction s; simpl; congruence. Qed.

(** Two names in front of a separator: one text starts with the other only
    if the names are the same. *)
Lemma prefix_names (s t X Y : string) :
  has_sep s = false -> has_sep t = false ->
  (Y = "" \/ exists Y', Y = (sep ++ Y')%string) ->
  String.prefix (s ++ sep ++ X)%string (t ++ Y)%string = true ->
  s = t /\ String.prefix (sep ++ X)%string Y = true.
Proof.
  revert t; induction s as [|a s IH]; intros t Hs Ht HY H.
  - destruct t as [|b t]; [split; [reflexivity|exact H]|].
    exfalso. change (String.prefix (String "/" X) (String b (t ++ Y)%string) = true) in H.
    rewrite prefix_cons in H. apply andb_true_iff in H as [H _].
    simpl in Ht. apply orb_false_iff in Ht as [Ht _].
    rewrite Ascii.eqb_sym in Ht. congruence.
  - simpl in Hs. apply orb_false_iff in Hs as [Ha Hs].
    destruct t as [|b t].
    + exfalso. destruct HY as [->|[Y' ->]]; [discriminate H|].
      change (String.prefix (String a (s ++ sep ++ X)%string) (String "/" Y') = true) in H.
      rewrite prefix_cons in H. apply andb_true_iff in H as [H _]. congruence.
    + change (String.prefix (String a (s ++ sep ++ X)%string) (String b (t ++ Y)%string)
              = true) in H.
      rewrite prefix_cons in H. apply andb_true_iff in H as [E H].
      apply Ascii.eqb_eq in E; subst b.
      simpl in Ht. apply orb_false_iff in Ht as [_ Ht].
      destruct (IH t Hs Ht HY H) as [-> H']. split; [reflexivity|exact H'].
Qed.

Lemma render_shape (l : list name) :
  render l = "" \/ exists Y', render l = (sep ++ Y')%string.
Proof. destruct l as [|a l]; [left; reflexivity|right; eexists; reflexivity]. Qed.

Lemma render_sep_shape (l : list name) :
  exists X, (render l ++ sep)%string = (sep ++ X)%string.
Proof.
  destruct l as [|a l]; [exists ""; reflexivity|].
  exists (name_str a ++ render l ++ sep)%string.
  simpl. rewrite append_assoc; reflexivity.
Qed.

(** The text of [o] starts with the text of [r] and a separator exactly when
    [o] has the components of [r] and at least one more. *)
Lemma render_prefix_iff (r o : list name) :
  String.prefix (render r ++ sep)%string (render o) = true <->
  exists x rest, o = r ++ x :: rest.
Proof.
  revert o; induction r as [|a r IH]; intros o.
  - destruct o as [|b o]; simpl.
    + split; [discriminate|intros (x & rest & E); discriminate E].
    + split; [intros _; exists b, o; reflexivity|intros _].
      destruct (name_str b ++ render o)%string; reflexivity.
  - destruct o as [|b o].
    + split; [discriminate|intros (x & rest & E); discriminate E].
    + replace (render (a :: r) ++ sep)%string
        with (sep ++ (name_str a ++ render r ++ sep))%string
        by (simpl; rewrite append_assoc; reflexivity).
      change (render (b :: o)) with (sep ++ (name_str b ++ render o))%string.
      rewrite prefix_app. split.
      * intros H.
        destruct (render_sep_shape r) as [X EX]. rewrite EX in H.
        apply prefix_names in H; try apply name_no_sep; try apply render_shape.
        destruct H as [E H]. apply name_ext in E; subst b.
        rewrite <- EX in H.
        apply IH in H as (x & rest & ->). exists x, rest; reflexivity.
      * intros (x & rest & E). injection E as -> ->.
        rewrite prefix_app. apply IH. exists x, rest; reflexivity.
Qed.

Lemma startswith_abs_iff (o r : list name) :
  startswith (str (abs_path o)) (str (abs_path r) ++ sep) = true <->
  r <> [] /\ exists x rest, o = r ++ x :: rest.
Proof.
  unfold startswith. destruct r as [|a r].
  - split; [|intros [N _]; congruence].
    intros H; exfalso. rewrite str_abs_nil in H.
    destruct o as [|b o]; [discriminate H|].
    rewrite str_abs_cons in H.
    change (String.prefix (sep ++ sep)%string (sep ++ (name_str b ++ render o))%string
            = true) in H.
    rewrite prefix_app in H.
    pose proof (name_no_sep b) as Hb. pose proof (name_not_empty b) as Ne.
    destruct (name_str b) as [|c s]; [congruence|].
    change (String.prefix (String "/" "") (String c (s ++ render o)%string) = true) in H.
    rewrite prefix_cons in H. apply andb_true_iff in H as [H _].
    simpl in Hb. apply orb_false_iff in Hb as [Hb _].
    rewrite Ascii.eqb_sym in Hb. congruence.
  - rewrite str_abs_cons. destruct o as [|b o].
    + split.
      * intros H. apply prefix_length in H. rewrite str_abs_nil in H.
        simpl in H. pose proof (name_not_empty a) as Ne.
        destruct (name_str a); [congruence|simpl in H; lia].
      * intros [_ (x & rest & E)]. discriminate E.
    + rewrite str_abs_cons, render_prefix_iff. split.
      * intros H; split; [discriminate|exact H].
      * intros [_ H]; exact H.
Qed.

(** ** Resolution of paths *)

Lemma realpath_from_nil fs strict fuel done :
  realpath_from fs strict fuel done [] = Some done.
Proof. destruct fuel; reflexivity. Qed.

Lemma realpath_from_cons fs strict fuel done c rest :
  realpath_from fs strict fuel done (c :: rest) =
  if strict && negb (is_Dir (lookup fs done)) then None
  else if name_eqb c dot then realpath_from fs strict fuel done rest
  else if name_eqb c dotdot then realpath_from fs strict fuel (removelast done) rest
  else match lookup fs (done ++ [c]) with
       | Some (Link _ tgt) =>
           match fuel with
           | O => None
           | S fuel' =>
               realpath_from fs strict fuel'
                 (if anchored tgt then [] else done) (parts tgt ++ rest)
           end
       | Some _ => realpath_from fs strict fuel (done ++ [c]) rest
       | None => if strict then None
                 else realpath_from fs strict fuel (done ++ [c]) rest
       end.
Proof. destruct fuel; reflexivity. Qed.

(** A last component that is a plain name and no link is appended to what
    the components before it resolve to. *)
Lemma realpath_from_snoc fs fuel (x : name) :
  name_eqb x dot = false -> name_eqb x dotdot = false ->
  forall todo done r,
    realpath_from fs false fuel done todo = Some r ->
    is_Link (lookup fs (r ++ [x])) = false ->
    realpath_from fs false fuel done (todo ++ [x]) = Some (r ++ [x]).
Proof.
  intros Hd Hdd. induction fuel as [|fuel IHf].
  - induction todo as [|c rest IH]; intros done r H L.
    + rewrite realpath_from_nil in H; injection H as <-.
      simpl app. rewrite realpath_from_cons, Hd, Hdd. simpl.
      destruct (lookup fs (done ++ [x])) as [[| |]|]; simpl in L;
        try discriminate L; first [reflexivity | apply realpath_from_nil].
    + simpl app. rewrite realpath_from_cons in H |- *. simpl andb in *.
      destruct (name_eqb c dot); [eauto|].
      destruct (name_eqb c dotdot); [eauto|].
      destruct (lookup fs (done ++ [c])) as [[| |]|]; eauto; discriminate H.
  - induction todo as [|c rest IH]; intros done r H L.
    + rewrite realpath_from_nil in H; injection H as <-.
      simpl app. rewrite realpath_from_cons, Hd, Hdd. simpl.
      destruct (lookup fs (done ++ [x])) as [[| |]|]; simpl in L;
        try discriminate L; first [reflexivity | apply realpath_from_nil].
    + simpl app. rewrite realpath_from_cons in H |- *. simpl andb in *.
      destruct (name_eqb c dot); [eauto|].
      destruct (name_eqb c dotdot); [eauto|].
      destruct (lookup fs (done ++ [c])) as [[| |]|]; eauto.
      rewrite app_assoc. apply IHf; assumption.
Qed.

Lemma absolute_joinpath cwd (p : Path) (x : name) :
  absolute cwd (p // x) = absolute cwd p ++ [x].
Proof.
  unfold absolute, joinpath; simpl. destruct (anchored p); [reflexivity|].
  apply app_assoc.
Qed.

Lemma resolve_child cwd fs (h : Path) (x : name) (r : list name) :
  resolve cwd fs h = Some r ->
  name_eqb x dot = false -> name_eqb x dotdot = false ->
  is_Link (lookup fs (r ++ [x])) = false ->
  resolve cwd fs (h // x) = Some (r ++ [x]).
Proof.
  unfold resolve; intros H Hd Hdd L. rewrite absolute_joinpath.
  apply realpath_from_snoc; assumption.
Qed.

(** ** The Safety Guard *)

Lemma confirm_under_home_run env (path home : Path) (st : state) :
  confirm_under_home env path home st
  = (Ok (under_home (getcwd env) (fs st) path home), st).
Proof.
  unfold confirm_under_home, under_home, try_except, bind, Path_resolve, ret.
  destruct (resolve (getcwd env) (fs st) path); [|reflexivity].
  destruct (resolve (getcwd env) (fs st) home); reflexivity.
Qed.

Lemma under_home_iff cwd fs0 (path home : Path) :
  under_home cwd fs0 path home = true <->
  exists h x rest,
    resolve cwd fs0 home = Some h /\ h <> [] /\
    resolve cwd fs0 path = Some (h ++ x :: rest).
Proof.
  unfold under_home. split.
  - destruct (resolve cwd fs0 path) as [p|]; [|discriminate].
    destruct (resolve cwd fs0 home) as [h|]; [|discriminate].
    intros H. apply startswith_abs_iff in H as [N (x & rest & ->)].
    exists h, x, rest; auto.
  - intros (h & x & rest & -> & N & ->).
    apply startswith_abs_iff. split; [exact N|]. exists x, rest; reflexivity.
Qed.

Lemma under_home_self cwd fs0 (h : Path) : under_home cwd fs0 h h = false.
Proof.
  destruct (under_home cwd fs0 h h) eqn:E; [|reflexivity].
  apply under_home_iff in E as (r & x & rest & H1 & _ & H2).
  rewrite H1 in H2. injection H2 as H2.
  apply (f_equal (@List.length name)) in H2. rewrite List.length_app in H2. simpl in H2. lia.
Qed.

Lemma under_home_root cwd fs0 (path home : Path) :
  resolve cwd fs0 home = Some [] -> under_home cwd fs0 path home = false.
Proof.
  intros H. destruct (under_home cwd fs0 path home) eqn:E; [|reflexivity].
  apply under_home_iff in E as (r & x & rest & H1 & N & _).
  rewrite H in H1. injection H1 as <-. congruence.
Qed.

Lemma user_level_prune_rejected env args st :
  under_home (getcwd env) (fs st) (arg_gradle_user_home args) (Path_home env) = false ->
  user_level_prune env args st = print (safety_warning env args) st.
Proof.
  intros H. unfold user_level_prune, bind.
  rewrite confirm_under_home_run, H. reflexivity.
Qed.

Module Guard.

(** C2, as the code has it.  The guard never raises and never touches the
    state; a home is not under itself; a child [h/x] is under [h] when [h]
    resolves to a directory other than the root and [x] is a plain name that
    is no link there; a path whose resolved form starts with another
    component than the resolved home is not under it; and when the
    resolution of either argument fails, the answer is [False]. *)
Theorem confirm_under_home_cases (env : Env) (st : state) (h : Path) :
  (forall p, exists b, confirm_under_home env p h st = (Ok b, st)) /\
  confirm_under_home env h h st = (Ok false, st) /\
  (forall (x : name) (r : list name),
      resolve (getcwd env) (fs st) h = Some r -> r <> [] ->
      name_eqb x dot = false -> name_eqb x dotdot = false ->
      is_Link (lookup (fs st) (r ++ [x])) = false ->
      confirm_under_home env (h // x) h st = (Ok true, st)) /\
  (forall (other : Path) (o r : list name),
      resolve (getcwd env) (fs st) other = Some o ->
      resolve (getcwd env) (fs st) h = Some r ->
      hd_error o <> hd_error r ->
      confirm_under_home env other h st = (Ok false, st)) /\
  (forall p : Path,
      resolve (getcwd env) (fs st) p = None \/
      resolve (getcwd env) (fs st) h = None ->
      confirm_under_home env p h st = (Ok false, st)).
Proof.
  repeat split.
  - intros p; eexists; apply confirm_under_home_run.
  - rewrite confirm_under_home_run, under_home_self; reflexivity.
  - intros x r Hr N Hd Hdd L. rewrite confirm_under_home_run. f_equal. f_equal.
    apply under_home_iff. exists r, x, []. repeat split; try assumption.
    apply resolve_child; assumption.
  - intros other o r Ho Hr N. rewrite confirm_under_home_run. f_equal. f_equal.
    destruct (under_home (getcwd env) (fs st) other h) eqn:E; [|reflexivity].
    exfalso. apply under_home_iff in E as (r' & x & rest & H1 & N' & H2).
    rewrite Hr in H1; injection H1 as <-. rewrite Ho in H2; injection H2 as ->.
    apply N. destruct r; [congruence|reflexivity].
  - intros p H. rewrite confirm_under_home_run. f_equal. f_equal.
    unfold under_home. destruct H as [-> | ->]; [reflexivity|].
    destruct (resolve (getcwd env) (fs st) p); reflexivity.
Qed.

(** The cases of [confirm_under_home_cases] in the sample world: the Gradle
    directory of the user is under the home, [/tmp] is not, and a link that
    points to itself is not either. *)
Lemma confirm_under_home_cases_witness :
  confirm_under_home Sample.world (Sample.u_home // #".gradle") Sample.u_home
    Sample.start = (Ok true, Sample.start) /\
  confirm_under_home Sample.world (abs_path [#"tmp"]) Sample.u_home
    Sample.start = (Ok false, Sample.start) /\
  confirm_under_home Sample.world (Sample.u_home // #"loop") Sample.u_home
    Sample.start = (Ok false, Sample.start).
Proof.
  destruct (confirm_under_home_cases Sample.world Sample.start Sample.u_home)
    as (_ & _ & Hchild & Hother & Hfail).
  split; [|split].
  - apply Hchild with (r := [#"home"; #"u"]);
      [reflexivity | discriminate | reflexivity | reflexivity | reflexivity].
  - apply Hother with (o := [#"tmp"]) (r := [#"home"; #"u"]);
      [reflexivity | reflexivity | discriminate].
  - apply Hfail. left. reflexivity.
Defined.

(** C2 as the specification has it fails for a home that is the root
    directory: [/x] is a child of [/], and the guard answers [False]. *)
Lemma child_of_root_rejected :
  confirm_under_home Sample.world (abs_path [] // #"x") (abs_path [])
    Sample.start = (Ok false, Sample.start).
Proof. reflexivity. Qed.

(** C10.  When the home resolves to the root directory, the prefix that
    [confirm_under_home] asks for is ["//"]: the guard answers [False] for
    every path, and the user-level tier does nothing but print its
    warning. *)
Theorem root_home_rejects_all (env : Env) (st : state) :
  resolve (getcwd env) (fs st) (Path_home env) = Some [] ->
  (str (abs_path []) ++ sep = "//")%string /\
  (forall path, confirm_under_home env path (Path_home env) st = (Ok false, st)) /\
  (forall args,
      user_level_prune env args st
      = (Ok tt, mkState (fs st) (stdout st ++ [safety_warning env args]) (rm_calls st))).
Proof.
  intros H. split; [reflexivity|]. split.
  - intros path. rewrite confirm_under_home_run, under_home_root by exact H.
    reflexivity.
  - intros args. rewrite user_level_prune_rejected; [reflexivity|].
    apply under_home_root, H.
Qed.

Lemma root_home_rejects_all_witness :
  confirm_under_home Sample.world_root_home (abs_path [#"home"; #"u"; #".gradle"])
    (abs_path []) Sample.start = (Ok false, Sample.start).
Proof.
  apply (root_home_rejects_all Sample.world_root_home Sample.start). reflexivity.
Defined.

End Guard.

(** ** The Project Tree Scanner *)

(** Induction on a tree, with the hypothesis for every entry of a
    directory. *)
Lemma node_tree_ind (P : node -> Prop) :
  (forall l, P (File l)) ->
  (forall l t, P (Link l t)) ->
  (forall l es, Forall (fun e => P (snd e)) es -> P (Dir l es)) ->
  forall n, P n.
Proof.
  intros HF HL HD.
  fix IH 1. intros [l|l t|l es]; [apply HF|apply HL|].
  apply HD. induction es as [|[k c] es IHes]; constructor.
  - simpl. apply IH.
  - exact IHes.
Qed.

Lemma walk_targets_Dir env fs0 cur l es :
  walk_targets env fs0 cur (Dir l es) =
  let dirs := map fst (filter (entry_is_dir env fs0 cur) es) in
  map (fun d => cur // d) (filter artifact dirs)
  ++ walk_entries env fs0 cur (filter (fun d => negb (pruned d)) dirs) es.
Proof.
  cbn [walk_targets]. cbv zeta. unfold walk_entries, artifact, pruned. f_equal.
  generalize (filter (fun d => negb (name_in d prune))
                (map fst (filter (entry_is_dir env fs0 cur) es))) as dirs.
  intros dirs. induction es as [|[k c] tl IH]; [reflexivity|].
  cbn [flat_map fst snd]. rewrite <- IH. reflexivity.
Qed.

(** The walk goes into an entry exactly when it is a directory, not a link,
    and its name is not pruned. *)
Lemma descends_iff env fs0 cur es k c :
  In (k, c) es ->
  descends (k, c)
    (filter (fun d => negb (pruned d)) (map fst (filter (entry_is_dir env fs0 cur) es)))
  = match c with Dir _ _ => negb (pruned k) | _ => false end.
Proof.
  intros Hin. unfold descends; simpl. destruct c as [l|l t|l es']; try reflexivity.
  destruct (pruned k) eqn:Hp; simpl.
  - destruct (name_in k _) eqn:E; [|reflexivity].
    apply name_in_In, filter_In in E as [_ E]. rewrite Hp in E; discriminate.
  - apply name_in_In, filter_In. split; [|rewrite Hp; reflexivity].
    apply in_map_iff. exists (k, Dir l es'). split; [reflexivity|].
    apply filter_In. split; [exact Hin|reflexivity].
Qed.

Lemma walk_targets_iff env fs0 (n : node) :
  forall cur p, In p (walk_targets env fs0 cur n) <-> artifact_at env fs0 cur n p.
Proof.
  induction n as [l|l t|l es IH] using node_tree_ind; intros cur p.
  - split; [intros []|intros H; inversion H].
  - split; [intros []|intros H; inversion H].
  - rewrite walk_targets_Dir. cbv zeta. rewrite in_app_iff. split.
    + intros [H|H].
      * apply in_map_iff in H as (k & <- & H).
        apply filter_In in H as [H Ha].
        apply in_map_iff in H as ([k' c] & E & H). simpl in E; subst k'.
        apply filter_In in H as [Hin Hd].
        eapply artifact_here; eassumption.
      * unfold walk_entries in H. apply in_flat_map in H as ([k c] & Hin & H).
        rewrite descends_iff in H by exact Hin. simpl in H.
        destruct c as [l'|l' t'|l' es']; try contradiction.
        destruct (pruned k) eqn:Hp; [contradiction|]. simpl in H.
        rewrite Forall_forall in IH. apply (IH _ Hin) in H.
        eapply artifact_below; eassumption.
    + intros H. inversion H as [? ? ? k c Hin Hd Ha | ? ? ? k l' es' ? Hin Hp Hb]; subst.
      * left. apply in_map_iff. exists k. split; [reflexivity|].
        apply filter_In. split; [|exact Ha].
        apply in_map_iff. exists (k, c). split; [reflexivity|].
        apply filter_In. split; assumption.
      * right. unfold walk_entries. apply in_flat_map.
        exists (k, Dir l' es'). split; [exact Hin|].
        rewrite descends_iff by exact Hin. rewrite Hp. simpl.
        rewrite Forall_forall in IH. apply (IH _ Hin). exact Hb.
Qed.

Lemma joinparts_joinpath (cur : Path) (k : name) (cs : list name) :
  joinparts (cur // k) cs = joinparts cur (k :: cs).
Proof. unfold joinparts, joinpath; simpl. rewrite <- app_assoc. reflexivity. Qed.

(** Every target is the root followed by names that are not pruned and, in
    last position, the name of an artifact. *)
Lemma artifact_at_shape env fs0 cur n p :
  artifact_at env fs0 cur n p ->
  exists cs d,
    p = joinparts cur (cs ++ [d]) /\
    Forall (fun c => pruned c = false) cs /\ artifact d = true.
Proof.
  induction 1 as [cur l es k c Hin Hd Ha | cur l es k l' es' p Hin Hp Hb IH].
  - exists [], k. repeat split; [constructor|exact Ha].
  - destruct IH as (cs & d & -> & Hcs & Ha).
    exists (k :: cs), d. rewrite joinparts_joinpath. repeat split; [|exact Ha].
    constructor; assumption.
Qed.

Lemma artifact_pruned (k : name) : artifact k = true -> pruned k = true.
Proof.
  unfold artifact, pruned. intros H. apply name_in_In in H. apply name_in_In.
  simpl in H |- *. intuition.
Qed.

Lemma find_project_dirs_to_remove_run env root st :
  find_project_dirs_to_remove env root st
  = (Ok match stat (getcwd env) (fs st) root with
        | Some n => walk_targets env (fs st) root n
        | None => []
        end, st).
Proof. reflexivity. Qed.

Lemma find_project_dirs_iff env root st targets st' :
  find_project_dirs_to_remove env root st = (Ok targets, st') ->
  st' = st /\ forall p, In p targets <-> artifact_under env (fs st) root p.
Proof.
  rewrite find_project_dirs_to_remove_run. intros E. injection E as <- <-.
  split; [reflexivity|]. intros p. unfold artifact_under.
  destruct (stat (getcwd env) (fs st) root) as [n|].
  - rewrite walk_targets_iff. split.
    + intros H; exists n; auto.
    + intros (n' & E & H). injection E as <-. exact H.
  - split; [intros []|intros (n' & E & _); discriminate E].
Qed.

Lemma artifact_under_shape env fs0 root p :
  artifact_under env fs0 root p ->
  exists cs d,
    p = joinparts root (cs ++ [d]) /\
    Forall (fun c => pruned c = false) cs /\ artifact d = true.
Proof. intros (n & _ & H). eapply artifact_at_shape; eassumption. Qed.

(** A target is never below another one: the name of the upper one would be
    a pruned name on the way to the lower one. *)
Lemma targets_not_nested env fs0 root p q :
  artifact_under env fs0 root p -> artifact_under env fs0 root q ->
  ~ descendant p q.
Proof.
  intros Hp Hq [_ (x & rest & E)].
  apply artifact_under_shape in Hp as (cs & d & -> & Hcs & _).
  apply artifact_under_shape in Hq as (cs' & d' & -> & _ & Hd').
  simpl in E. rewrite <- !app_assoc in E. apply app_inv_head in E.
  assert (Hin : In d' cs).
  { clear - E. revert cs E. induction cs' as [|a cs' IH]; intros cs E.
    - simpl in E. destruct cs as [|b cs]; simpl in E.
      + injection E as _ E. discriminate E.
      + injection E as -> _. left; reflexivity.
    - destruct cs as [|b cs]; simpl in E.
      + injection E as _ E. destruct cs'; discriminate E.
      + injection E as _ E. right. apply IH, E. }
  rewrite Forall_forall in Hcs. apply Hcs in Hin.
  apply artifact_pruned in Hd'. congruence.
Qed.

Module Scanner.

(** C4.  [find_project_dirs_to_remove] returns, without touching the state,
    exactly the child directories named [build] or [.gradle] that are
    reached from the root through directories whose names are not pruned;
    each path it returns is the root, then names that are not pruned, then
    the name of an artifact (so none lies inside [.git] or another pruned
    directory); and it returns nothing below a directory it returned. *)
Theorem find_project_dirs_exact (env : Env) (root : Path) (st : state) :
  exists targets,
    find_project_dirs_to_remove env root st = (Ok targets, st) /\
    (forall p, In p targets <-> artifact_under env (fs st) root p) /\
    (forall p, In p targets ->
       exists cs d,
         p = joinparts root (cs ++ [d]) /\
         Forall (fun c => name_in c prune = false) cs /\
         name_in d artifact_names = true) /\
    (forall p q, In p targets -> In q targets -> ~ descendant p q).
Proof.
  eexists. split; [apply find_project_dirs_to_remove_run|].
  destruct (find_project_dirs_iff env root st _ _
              (find_project_dirs_to_remove_run env root st)) as [_ Hiff].
  split; [exact Hiff|]. split.
  - intros p Hp. apply Hiff in Hp. apply artifact_under_shape in Hp. exact Hp.
  - intros p q Hp Hq. apply Hiff in Hp, Hq. eapply targets_not_nested; eassumption.
Qed.

(** In the sample world the scanner finds [build] at the top, [src/build]
    and the link [src/main/build], and neither [.git/build] nor what lies
    inside [build]. *)
Lemma find_project_dirs_exact_witness :
  let root := Path_cwd Sample.world in
  artifact_under Sample.world Sample.disk root (root // #"src" // #"build") /\
  ~ artifact_under Sample.world Sample.disk root (root // #".git" // #"build") /\
  ~ artifact_under Sample.world Sample.disk root (root // #"build" // #".gradle").
Proof.
  intros root.
  destruct (find_project_dirs_exact Sample.world root Sample.start)
    as (targets & E & Hiff & _ & _).
  assert (Et : targets = [root // #"build"; root // #"src" // #"build";
                          root // #"src" // #"main" // #"build"]).
  { vm_compute in E. injection E as <-. reflexivity. }
  subst targets. split; [|split].
  - apply Hiff. right; left; reflexivity.
  - intros H. apply Hiff in H. simpl in H.
    destruct H as [H|[H|[H|[]]]]; discriminate H.
  - intros H. apply Hiff in H. simpl in H.
    destruct H as [H|[H|[H|[]]]]; discriminate H.
Defined.

(** C9.  The list of [find_project_dirs_to_remove] never holds the root of
    the traversal, whatever its name, and holds no path below another path
    of the list. *)
Theorem find_project_dirs_no_root_no_nesting
  (env : Env) (root : Path) (st st' : state) (targets : list Path) :
  find_project_dirs_to_remove env root st = (Ok targets, st') ->
  ~ In root targets /\
  (forall p q, In p targets -> In q targets -> ~ descendant p q).
Proof.
  intros E. apply find_project_dirs_iff in E as [_ Hiff]. split.
  - intros H. apply Hiff, artifact_under_shape in H as (cs & d & E & _).
    apply (f_equal parts) in E. simpl in E.
    apply (f_equal (@List.length name)) in E.
    rewrite !List.length_app in E. simpl in E. lia.
  - intros p q Hp Hq. apply Hiff in Hp, Hq. eapply targets_not_nested; eassumption.
Qed.

(** Started in [/home/u/proj/build], the scanner returns [.gradle] in it and
    not the directory [build] it started from. *)
Lemma find_project_dirs_no_root_no_nesting_witness :
  let root := Path_cwd Sample.world // #"build" in
  find_project_dirs_to_remove Sample.world root Sample.start
  = (Ok [root // #".gradle"], Sample.start) /\
  ~ In root [root // #".gradle"].
Proof.
  intros root. split; [reflexivity|].
  exact (proj1 (find_project_dirs_no_root_no_nesting Sample.world root Sample.start
                  Sample.start [root // #".gradle"] eq_refl)).
Defined.

End Scanner.

(** ** Computations that return *)

Lemma returns_ret {A} (a : A) : returns (ret a).
Proof. intros st; do 2 eexists; reflexivity. Qed.

Lemma returns_bind {A B} (m : M A) (k : A -> M B) :
  returns m -> (forall a, returns (k a)) -> returns (bind m k).
Proof.
  intros Hm Hk st. destruct (Hm st) as (a & st' & E).
  destruct (Hk a st') as (b & st'' & E').
  exists b, st''. unfold bind. rewrite E. exact E'.
Qed.

Lemma returns_print line : returns (print line).
Proof. intros st; do 2 eexists; reflexivity. Qed.

Lemma returns_when b (m : M unit) : returns m -> returns (when b m).
Proof. destruct b; [auto|intros _; apply returns_ret]. Qed.

Lemma returns_for_each {A} (l : list A) (body : A -> M unit) :
  (forall x, returns (body x)) -> returns (for_each l body).
Proof.
  intros H. induction l as [|x l IH]; simpl.
  - apply returns_ret.
  - apply returns_bind; [apply H|intros _; exact IH].
Qed.

Lemma returns_try_except {A} (body : M A) (handler : exn -> M A) :
  (forall e, returns (handler e)) -> returns (try_except body handler).
Proof.
  intros H st. unfold try_except. destruct (body st) as [[a|e] st'].
  - exists a, st'; reflexivity.
  - apply H.
Qed.

Lemma returns_if {A} (b : bool) (m1 m2 : M A) :
  returns m1 -> returns m2 -> returns (if b then m1 else m2).
Proof. destruct b; auto. Qed.


(** ** Computations that keep the file system *)

Lemma keeps_fs_ret {A} (a : A) : keeps_fs (ret a).
Proof. intros st; reflexivity. Qed.

Lemma keeps_fs_bind {A B} (m : M A) (k : A -> M B) :
  keeps_fs m -> (forall a, keeps_fs (k a)) -> keeps_fs (bind m k).
Proof.
  intros Hm Hk st. unfold bind. specialize (Hm st).
  destruct (m st) as [[a|e] st']; simpl in Hm.
  - rewrite Hk. exact Hm.
  - exact Hm.
Qed.

Lemma keeps_fs_print line : keeps_fs (print line).
Proof. intros st; reflexivity. Qed.

Lemma keeps_fs_record_rm p : keeps_fs (record_rm p).
Proof. intros st; reflexivity. Qed.

Lemma keeps_fs_when b (m : M unit) : keeps_fs m -> keeps_fs (when b m).
Proof. destruct b; [auto|intros _; apply keeps_fs_ret]. Qed.

Lemma keeps_fs_for_each {A} (l : list A) (body : A -> M unit) :
  (forall x, keeps_fs (body x)) -> keeps_fs (for_each l body).
Proof.
  intros H. induction l as [|x l IH]; simpl.
  - apply keeps_fs_ret.
  - apply keeps_fs_bind; [apply H|intros _; exact IH].
Qed.

Lemma keeps_fs_if {A} (b : bool) (m1 m2 : M A) :
  keeps_fs m1 -> keeps_fs m2 -> keeps_fs (if b then m1 else m2).
Proof. destruct b; auto. Qed.

Lemma keeps_fs_read {A} (f : state -> A) : keeps_fs (fun st => (Ok (f st), st)).
Proof. intros st; reflexivity. Qed.

Lemma keeps_fs_try_except {A} (body : M A) (handler : exn -> M A) :
  keeps_fs body -> (forall e, keeps_fs (handler e)) ->
  keeps_fs (try_except body handler).
Proof.
  intros Hb Hh st. unfold try_except. specialize (Hb st).
  destruct (body st) as [[a|e] st']; simpl in Hb.
  - exact Hb.
  - rewrite Hh. exact Hb.
Qed.

(** ** The Deletion Primitive *)

Lemma safe_rm_run env path dry_run verbose st :
  safe_rm env path dry_run verbose st
  = (Ok tt, safe_rm_state env path dry_run verbose st).
Proof.
  destruct st as [fs0 out calls].
  unfold safe_rm, safe_rm_state, bind, record_rm, Path_exists, ret, print,
    try_except, try_except_isdir, Path_is_dir, Path_is_symlink, Path_unlink,
    shutil_rmtree, when, report_removed, printed, with_fs, called.
  cbv beta iota delta [fs stdout rm_calls].
  destruct (path_exists (getcwd env) fs0 path); cbn [negb]; [|reflexivity].
  destruct dry_run; [reflexivity|].
  destruct (path_is_dir (getcwd env) fs0 path); cbn [andb].
  - destruct (path_is_symlink (getcwd env) fs0 path); cbn [negb].
    + destruct (unlink_fs env path fs0) as [fs'|e].
      * destruct verbose; reflexivity.
      * destruct (kind e); destruct verbose; reflexivity.
    + destruct verbose; reflexivity.
  - destruct (unlink_fs env path fs0) as [fs'|e].
    + destruct verbose; reflexivity.
    + destruct (kind e); destruct verbose; reflexivity.
Qed.

Lemma returns_safe_rm env path dry_run verbose :
  returns (safe_rm env path dry_run verbose).
Proof. intros st; do 2 eexists; apply safe_rm_run. Qed.

(** [rmtree] removes a tree entirely exactly when nothing in it is locked. *)
Lemma rmtree_node_None_iff (n : node) :
  rmtree_node n = None <-> locked_inside n = false.
Proof.
  induction n as [l|l t|l es IH] using node_tree_ind.
  - destruct l; simpl; split; congruence.
  - destruct l; simpl; split; congruence.
  - cbn [rmtree_node locked_inside].
    set (go := fix go (es : list (name * node)) : list (name * node) :=
                 match es with
                 | [] => []
                 | (k, c) :: tl =>
                     match rmtree_node c with
                     | None => go tl
                     | Some c' => (k, c') :: go tl
                     end
                 end).
    set (any := fix any (es : list (name * node)) : bool :=
                  match es with
                  | [] => false
                  | (_, c) :: tl => locked_inside c || any tl
                  end).
    assert (H : go es = [] <-> any es = false).
    { induction es as [|[k c] tl IHtl]; [simpl; tauto|].
      inversion IH as [|? ? Hc Htl]; subst. simpl in Hc. specialize (IHtl Htl).
      cbn [go any]. destruct (rmtree_node c) as [c'|] eqn:Ec.
      - split; [discriminate|]. intros H. apply orb_false_iff in H as [H _].
        apply Hc in H. discriminate H.
      - rewrite (proj1 Hc eq_refl). simpl. exact IHtl. }
    destruct (go es) as [|e tl] eqn:Eg; destruct l; simpl.
    + split; discriminate.
    + rewrite (proj1 H eq_refl). tauto.
    + split; discriminate.
    + split; [discriminate|]. intros Ha. apply H in Ha. discriminate Ha.
Qed.

Lemma path_is_dir_exists cwd fs0 p :
  path_is_dir cwd fs0 p = true -> path_exists cwd fs0 p = true.
Proof.
  unfold path_is_dir, path_exists. destruct (stat cwd fs0 p); [reflexivity|discriminate].
Qed.

(** Where [os.stat] and [os.lstat] fail in no other way, the script is the
    one of the section [Script]. *)
Lemma safe_rm_without_faults env stat_error lstat_error path dry_run verbose st :
  stat_error path (fs st) = None ->
  lstat_error path (fs st) = None ->
  Faults.safe_rm env stat_error lstat_error path dry_run verbose st
  = safe_rm env path dry_run verbose st.
Proof.
  intros Hs Hl. destruct st as [fs0 out calls]. simpl in Hs, Hl.
  unfold Faults.safe_rm, safe_rm, Faults.exists_, Faults.is_dir_, Faults.is_symlink_,
    Faults.or_raise, bind, record_rm, try_except, Path_exists, Path_is_dir,
    Path_is_symlink.
  cbv beta iota delta [fs stdout rm_calls]. rewrite Hs.
  destruct (path_exists (getcwd env) fs0 path); cbn [negb]; [|reflexivity].
  destruct dry_run; [reflexivity|].
  rewrite Hs.
  destruct (path_is_dir (getcwd env) fs0 path); [|reflexivity].
  rewrite Hl. reflexivity.
Qed.

(** The outcomes of [safe_rm] where [os.stat] fails in no other way: it
    returns; on a path that does not exist it changes nothing and prints
    nothing; a dry run only prints what it would remove; otherwise either it
    went through the removal, or it prints that it failed, with the cause,
    and nothing was removed. *)
Lemma safe_rm_outcomes (env : Env) (path : Path) (dry_run verbose : bool)
  (st : state) :
  exists st',
    safe_rm env path dry_run verbose st = (Ok tt, st') /\
    (path_exists (getcwd env) (fs st) path = false ->
       fs st' = fs st /\ stdout st' = stdout st) /\
    (dry_run = true -> path_exists (getcwd env) (fs st) path = true ->
       fs st' = fs st /\
       stdout st' = stdout st ++ ["DRY-RUN: rm -rf " ++ str path]%string) /\
    (dry_run = false -> path_exists (getcwd env) (fs st) path = true ->
       (stdout st' = stdout st ++ (if verbose then ["removed: " ++ str path]%string else [])
        /\ (fs st' = rmtree_fs env path (fs st)
            \/ unlink_fs env path (fs st) = Ok (fs st')))
       \/ exists cause,
            stdout st'
            = stdout st ++ ["WARN: failed to remove " ++ str path ++ ": " ++ cause]%string
            /\ fs st' = fs st
            /\ path_exists (getcwd env) (fs st') path = true).
Proof.
  exists (safe_rm_state env path dry_run verbose st).
  split; [apply safe_rm_run|]. unfold safe_rm_state. cbv zeta.
  split; [|split].
  - intros ->. simpl. auto.
  - intros -> ->. simpl. auto.
  - intros -> He. rewrite He. cbn [negb].
    destruct (path_is_dir (getcwd env) (fs st) path
              && negb (path_is_symlink (getcwd env) (fs st) path)).
    { left. destruct verbose; simpl; rewrite ?app_nil_r; auto. }
    destruct (unlink_fs env path (fs st)) as [fs'|e].
    { left. destruct verbose; simpl; rewrite ?app_nil_r; auto. }
    destruct (kind e);
      try (right; exists (message e); simpl; repeat split; [exact He]);
      left; destruct verbose; simpl; rewrite ?app_nil_r; auto.
Qed.

Module Removal.

(** C5.  The specification has every exception of the file system caught
    in [safe_rm] and turned into a reported failure.  The script attempts
    it, with the [try] round the removal and the warning in its handler, and
    misses the first call: [path.exists()] stands before the [try].  When
    [os.stat] fails there with an error that [pathlib] raises again,
    [safe_rm] raises it to its caller, in a dry run as in a real one, and
    has printed and removed nothing.  That is the one way out: when the
    first call does not fail, [safe_rm] returns, whatever fails after it
    ([is_symlink], [unlink], the removals inside [rmtree]), and a path that
    does not exist is skipped without a word. *)
Theorem safe_rm_raises_from_exists (env : Env)
  (stat_error lstat_error : Path -> node -> option exn)
  (path : Path) (dry_run verbose : bool) (st : state) :
  (forall e, stat_error path (fs st) = Some e ->
     Faults.safe_rm env stat_error lstat_error path dry_run verbose st
     = (Raise e, called path st)) /\
  (stat_error path (fs st) = None ->
     (exists st',
        Faults.safe_rm env stat_error lstat_error path dry_run verbose st = (Ok tt, st'))
     /\ (path_exists (getcwd env) (fs st) path = false ->
         Faults.safe_rm env stat_error lstat_error path dry_run verbose st
         = (Ok tt, called path st))).
Proof.
  destruct st as [fs0 out calls].
  unfold Faults.safe_rm, Faults.exists_, Faults.is_dir_, Faults.is_symlink_,
    Faults.or_raise, bind, record_rm, called, printed.
  cbv beta iota delta [fs stdout rm_calls].
  split.
  - intros e ->. reflexivity.
  - intros Hs. rewrite Hs. unfold Path_exists. cbv beta iota delta [fs stdout rm_calls].
    split.
    + destruct (path_exists (getcwd env) fs0 path); cbn [negb];
        [|eexists; reflexivity].
      destruct dry_run; [eexists; reflexivity|].
      unfold try_except, try_except_isdir, Path_is_dir, Path_is_symlink, Path_unlink,
        shutil_rmtree, when, print, ret.
      cbv beta iota delta [fs stdout rm_calls]. rewrite Hs.
      destruct (path_is_dir (getcwd env) fs0 path).
      * destruct (lstat_error path fs0); [eexists; reflexivity|].
        destruct (path_is_symlink (getcwd env) fs0 path); cbn [negb].
        -- destruct (unlink_fs env path fs0) as [fs'|e];
             [destruct verbose; eexists; reflexivity|].
           destruct (kind e); destruct verbose; eexists; reflexivity.
        -- destruct verbose; eexists; reflexivity.
      * destruct (unlink_fs env path fs0) as [fs'|e];
          [destruct verbose; eexists; reflexivity|].
        destruct (kind e); destruct verbose; eexists; reflexivity.
    + intros ->. reflexivity.
Qed.

(** After [chmod 000 /home/u/.gradle] the first removal of the user-level
    tier, of the directory [daemon], ends with the [PermissionError] of
    [os.stat]; before it, on the same disk, the call returns. *)
Lemma safe_rm_raises_from_exists_witness :
  let daemon := Sample.u_home // #".gradle" // #"daemon" in
  Faults.safe_rm Sample.world Sample.no_search Sample.no_error daemon false true
    Sample.start
  = (Raise (Exn PermissionError
              "[Errno 13] Permission denied: '/home/u/.gradle/daemon'"),
     called daemon Sample.start) /\
  exists st',
    Faults.safe_rm Sample.world Sample.no_error Sample.no_error daemon false true
      Sample.start
    = (Ok tt, st').
Proof.
  intros daemon. split.
  - exact (proj1 (safe_rm_raises_from_exists Sample.world Sample.no_search
                    Sample.no_error daemon false true Sample.start)
             (Sample.denied daemon) eq_refl).
  - exact (proj1 (proj2 (safe_rm_raises_from_exists Sample.world Sample.no_error
                           Sample.no_error daemon false true Sample.start)
                    eq_refl)).
Defined.

End Removal.

(** ** The External Process Runner *)

Lemma run_cmd_dry env cmd cwd verbose st :
  run_cmd env cmd cwd true verbose st
  = (Ok 0%Z,
     printed [("DRY-RUN: would run: " ++ join_with " " cmd
               ++ " (cwd=" ++ str cwd ++ ")")%string] st).
Proof. reflexivity. Qed.

Lemma run_cmd_real env cmd cwd verbose st :
  run_cmd env cmd cwd false verbose st
  = match spawn env cmd cwd (fs st) with
    | Completed rc fs' => (Ok rc, with_fs fs' (announce_run verbose cmd cwd st))
    | NotStarted e =>
        (Ok 1%Z,
         printed [("WARN: command failed: " ++ join_with " " cmd ++ " -> "
                   ++ message e)%string] (announce_run verbose cmd cwd st))
    end.
Proof.
  destruct st as [fs0 out calls].
  unfold run_cmd, try_except, bind, when, subprocess_run, print, ret, announce_run,
    printed, with_fs.
  destruct verbose; cbv beta iota delta [fs stdout rm_calls];
    destruct (spawn env cmd cwd fs0); reflexivity.
Qed.

Lemma returns_run_cmd env cmd cwd dry_run verbose :
  returns (run_cmd env cmd cwd dry_run verbose).
Proof.
  intros st. destruct dry_run.
  - do 2 eexists; apply run_cmd_dry.
  - rewrite run_cmd_real. destruct (spawn env cmd cwd (fs st)); do 2 eexists; reflexivity.
Qed.

(** ** The orchestrator returns *)

Ltac returns_step :=
  first
    [ apply returns_bind; [|intros ?]
    | apply returns_for_each; intros ?
    | apply returns_when
    | apply returns_try_except; intros ?
    | apply returns_safe_rm
    | apply returns_run_cmd
    | apply returns_print
    | apply returns_ret
    | match goal with |- returns (if ?b then _ else _) => destruct b end
    | match goal with |- returns (match ?o with Some _ => _ | None => _ end) =>
        destruct o end
    | (intros ?; do 2 eexists; reflexivity) ].

Ltac returns_auto := repeat returns_step.

Lemma returns_confirm_under_home env path home :
  returns (confirm_under_home env path home).
Proof. intros st; do 2 eexists; apply confirm_under_home_run. Qed.

Lemma returns_glob_and_remove env base patterns dry_run verbose :
  returns (glob_and_remove env base patterns dry_run verbose).
Proof. unfold glob_and_remove. returns_auto. Qed.

Lemma returns_print_banner env args : returns (print_banner env args).
Proof. unfold print_banner. returns_auto. Qed.

Lemma returns_stop_daemons env args : returns (stop_daemons env args).
Proof. unfold stop_daemons. returns_auto. Qed.

Lemma returns_clean_build_cache env args : returns (clean_build_cache env args).
Proof. unfold clean_build_cache. returns_auto. Qed.

Lemma returns_remove_project_local env args : returns (remove_project_local env args).
Proof. unfold remove_project_local. returns_auto. Qed.

Lemma returns_prune_user_caches env args : returns (prune_user_caches env args).
Proof.
  unfold prune_user_caches. returns_auto; apply returns_glob_and_remove.
Qed.

Lemma returns_user_level_prune env args : returns (user_level_prune env args).
Proof.
  unfold user_level_prune. apply returns_bind; [apply returns_confirm_under_home|].
  intros ok. destruct ok; simpl; [apply returns_prune_user_caches|apply returns_print].
Qed.

Lemma returns_remove_konan env args : returns (remove_konan env args).
Proof.
  unfold remove_konan. apply returns_when.
  apply returns_bind; [apply returns_confirm_under_home|].
  intros ok. destruct ok; returns_auto.
Qed.

Module Runner.

(** C6, as the code has it.  In a dry run [run_cmd] prints the command and
    the working directory and returns 0, and no process enters the result;
    otherwise it returns the exit status of the process, and when the
    process cannot be started it prints a warning and returns 1.  It never
    raises. *)
Theorem run_cmd_cases (env : Env) (cmd : list string) (cwd : Path) (verbose : bool)
  (st : state) :
  run_cmd env cmd cwd true verbose st
  = (Ok 0%Z,
     printed [("DRY-RUN: would run: " ++ join_with " " cmd
               ++ " (cwd=" ++ str cwd ++ ")")%string] st) /\
  (forall rc fs',
      spawn env cmd cwd (fs st) = Completed rc fs' ->
      run_cmd env cmd cwd false verbose st
      = (Ok rc, with_fs fs' (announce_run verbose cmd cwd st))) /\
  (forall e,
      spawn env cmd cwd (fs st) = NotStarted e ->
      run_cmd env cmd cwd false verbose st
      = (Ok 1%Z,
         printed [("WARN: command failed: " ++ join_with " " cmd ++ " -> "
                   ++ message e)%string] (announce_run verbose cmd cwd st))) /\
  (forall dry_run, exists rc st', run_cmd env cmd cwd dry_run verbose st = (Ok rc, st')).
Proof.
  split; [apply run_cmd_dry|]. split; [|split].
  - intros rc fs' E. rewrite run_cmd_real, E. reflexivity.
  - intros e E. rewrite run_cmd_real, E. reflexivity.
  - intros dry_run. apply returns_run_cmd.
Qed.

(** In the sample world no process can be started: [run_cmd] warns and
    returns 1; with a [gradle] that succeeds it returns its status 0. *)
Lemma run_cmd_cases_witness :
  run_cmd Sample.world ["gradle"; "--stop"]%string (Path_cwd Sample.world) false false
    Sample.start
  = (Ok 1%Z,
     printed ["WARN: command failed: gradle --stop -> [Errno 2] No such file or directory: 'gradle'"%string]
       Sample.start) /\
  run_cmd Sample.world_with_gradle ["gradle"; "--stop"]%string
    (Path_cwd Sample.world_with_gradle) false false Sample.start
  = (Ok 0%Z, Sample.start).
Proof.
  split.
  - apply (proj1 (proj2 (proj2 (run_cmd_cases Sample.world ["gradle"; "--stop"]%string
                                  (Path_cwd Sample.world) false Sample.start)))
             (Exn FileNotFoundError "[Errno 2] No such file or directory: 'gradle'")).
    reflexivity.
  - apply (proj1 (proj2 (run_cmd_cases Sample.world_with_gradle
                           ["gradle"; "--stop"]%string
                           (Path_cwd Sample.world_with_gradle) false Sample.start))
             0%Z Sample.disk).
    reflexivity.
Defined.

(** C6 as the specification has it fails: what a dry run returns is the exit
    status of a process that succeeded. *)
Lemma dry_run_result_is_an_exit_status :
  fst (run_cmd Sample.world_with_gradle ["gradle"; "--stop"]%string
         (Path_cwd Sample.world_with_gradle) true false Sample.start)
  = fst (run_cmd Sample.world_with_gradle ["gradle"; "--stop"]%string
           (Path_cwd Sample.world_with_gradle) false false Sample.start).
Proof. reflexivity. Qed.

End Runner.

(** ** Dry runs *)

Lemma keeps_fs_safe_rm_dry env path verbose : keeps_fs (safe_rm env path true verbose).
Proof.
  intros st. rewrite safe_rm_run. unfold safe_rm_state. cbv zeta.
  destruct (path_exists (getcwd env) (fs st) path); reflexivity.
Qed.

Lemma keeps_fs_run_cmd_dry env cmd cwd verbose : keeps_fs (run_cmd env cmd cwd true verbose).
Proof. intros st. rewrite run_cmd_dry. reflexivity. Qed.

Lemma keeps_fs_confirm_under_home env path home :
  keeps_fs (confirm_under_home env path home).
Proof. intros st. rewrite confirm_under_home_run. reflexivity. Qed.

Ltac keeps_fs_step :=
  first
    [ apply keeps_fs_bind; [|intros ?]
    | apply keeps_fs_for_each; intros ?
    | apply keeps_fs_when
    | apply keeps_fs_safe_rm_dry
    | apply keeps_fs_run_cmd_dry
    | apply keeps_fs_confirm_under_home
    | apply keeps_fs_print
    | apply keeps_fs_ret
    | match goal with |- keeps_fs (if ?b then _ else _) => destruct b end
    | match goal with |- keeps_fs (match ?o with Some _ => _ | None => _ end) =>
        destruct o end
    | (intros ?; reflexivity) ].

Ltac keeps_fs_auto := repeat keeps_fs_step.

Lemma keeps_fs_glob_and_remove_dry env base patterns verbose :
  keeps_fs (glob_and_remove env base patterns true verbose).
Proof. unfold glob_and_remove. keeps_fs_auto. Qed.

Lemma keeps_fs_run_args_dry env args :
  arg_dry_run args = true -> keeps_fs (run_args env args).
Proof.
  intros Hdry.
  unfold run_args, print_banner, stop_daemons, clean_build_cache,
    remove_project_local, user_level_prune, prune_user_caches, remove_konan,
    glob_and_remove.
  rewrite Hdry. keeps_fs_auto.
Qed.

Module DryRun.

(** C3.  In a dry run [safe_rm] only prints what it would remove, [run_cmd]
    only prints the command, [glob_and_remove] leaves the file system as it
    is, and so does the whole run: the file system after it is the file
    system before it, and the run is the same whatever a process would have
    done, since none is started. *)
Theorem dry_run_keeps_file_system (env : Env) (args : Args) (st : state) :
  arg_dry_run args = true ->
  (forall path verbose s,
      safe_rm env path true verbose s
      = (Ok tt,
         if path_exists (getcwd env) (fs s) path
         then printed [("DRY-RUN: rm -rf " ++ str path)%string] (called path s)
         else called path s)) /\
  (forall cmd cwd verbose s,
      run_cmd env cmd cwd true verbose s
      = (Ok 0%Z,
         printed [("DRY-RUN: would run: " ++ join_with " " cmd
                   ++ " (cwd=" ++ str cwd ++ ")")%string] s)) /\
  (forall base patterns verbose s,
      fs (snd (glob_and_remove env base patterns true verbose s)) = fs s) /\
  fs (snd (main env (CmdArgs args) st)) = fs st /\
  (forall processes,
      main (mkEnv (getcwd env) (home_dir env) (shutil_which env) processes)
        (CmdArgs args) st
      = main env (CmdArgs args) st).
Proof.
  intros Hdry. split; [|split; [|split; [|split]]].
  - intros path verbose s. rewrite safe_rm_run. unfold safe_rm_state. cbv zeta.
    destruct (path_exists (getcwd env) (fs s) path); reflexivity.
  - intros cmd cwd verbose s. apply run_cmd_dry.
  - intros base patterns verbose s. apply keeps_fs_glob_and_remove_dry.
  - apply keeps_fs_run_args_dry, Hdry.
  - intros processes. destruct args as [gw guh xdg dry agg konan verbose].
    simpl in Hdry. subst dry. reflexivity.
Qed.

(** A dry run of the aggressive clean in the sample world leaves the disk as
    it is. *)
Lemma dry_run_keeps_file_system_witness :
  fs (snd (main Sample.world
             (CmdArgs (Sample.options (Sample.u_home // #".gradle")
                         (abs_path [#"tmp"; #"cache"]) true true))
             Sample.start))
  = Sample.disk.
Proof.
  apply (dry_run_keeps_file_system Sample.world
           (Sample.options (Sample.u_home // #".gradle")
              (abs_path [#"tmp"; #"cache"]) true true) Sample.start).
  reflexivity.
Defined.

End DryRun.

(** ** The orchestrator, tier by tier *)

(** A run is its first three steps, then the user-level tier, then the
    rest. *)
Lemma run_args_split env args st :
  let st2 := snd (before_project_local env args st) in
  let st3 := snd (remove_project_local env args st2) in
  run_args env args st
  = after_user_level env args (snd (user_level_prune env args st3)).
Proof.
  unfold run_args, before_project_local, after_user_level, bind. cbv zeta.
  destruct (returns_print_banner env args st) as ([] & s1 & ->).
  destruct (returns_stop_daemons env args s1) as ([] & s2 & ->).
  destruct (returns_clean_build_cache env args s2) as ([] & s3 & ->).
  cbn [snd].
  destruct (returns_remove_project_local env args s3) as ([] & s4 & ->).
  cbn [snd].
  destruct (returns_user_level_prune env args s4) as ([] & s5 & ->).
  reflexivity.
Qed.

Module SafetySkip.

(** C7.  When the guard rejects the Gradle user home (asked, as the script
    does, after the project-local step), the user-level tier calls
    [safe_rm] not once and leaves the file system as it is; it prints one
    line that names the rejected directory and the home; and the run is the
    first three steps as ever, this warning, and the steps after the
    tier. *)
Theorem rejected_home_skips_tier (env : Env) (args : Args) (st : state) :
  let st2 := snd (before_project_local env args st) in
  let st3 := snd (remove_project_local env args st2) in
  fst (confirm_under_home env (arg_gradle_user_home args) (Path_home env) st3)
  = Ok false ->
  user_level_prune env args st3
  = (Ok tt, mkState (fs st3) (stdout st3 ++ [safety_warning env args]) (rm_calls st3)) /\
  safety_warning env args
  = ("SAFETY: GRADLE_USER_HOME (" ++ str (arg_gradle_user_home args)
     ++ ") is not under HOME (" ++ str (Path_home env)
     ++ "); skipping user-level prune")%string /\
  main env (CmdArgs args) st
  = after_user_level env args (printed [safety_warning env args] st3).
Proof.
  intros st2 st3 H. rewrite confirm_under_home_run in H. simpl in H.
  injection H as H.
  assert (E : user_level_prune env args st3
              = (Ok tt, printed [safety_warning env args] st3)).
  { rewrite user_level_prune_rejected by exact H. reflexivity. }
  split; [exact E|]. split; [reflexivity|].
  simpl main. rewrite run_args_split. fold st2. fold st3. rewrite E. reflexivity.
Qed.

(** With the Gradle user home set to [/tmp/cache] in the sample world, the
    tier is skipped and the project-local directories are removed all the
    same. *)
Lemma rejected_home_skips_tier_witness :
  let args := Sample.options (abs_path [#"tmp"; #"cache"]) (abs_path [#"tmp"; #"cache"])
                false true in
  let final := snd (main Sample.world (CmdArgs args) Sample.start) in
  map str (rm_calls final)
  = ["/home/u/proj/build"; "/home/u/proj/src/build"; "/home/u/proj/src/main/build"]%string /\
  lookup (fs final) [#"tmp"; #"cache"; #"gradle"; #"z"] = Some (File false) /\
  lookup (fs final) [#"home"; #"u"; #"proj"; #"build"] = None.
Proof.
  intros args final.
  assert (H : fst (confirm_under_home Sample.world (arg_gradle_user_home args)
                     (Path_home Sample.world)
                     (snd (remove_project_local Sample.world args
                             (snd (before_project_local Sample.world args
                                     Sample.start)))))
              = Ok false) by (vm_compute; reflexivity).
  destruct (rejected_home_skips_tier Sample.world args Sample.start H) as (_ & _ & E).
  unfold final. rewrite E. vm_compute. repeat split.
Defined.

End SafetySkip.

Module Invariant.

(** C1 fails on the code.  In the sample world, with the XDG cache home set
    to [/tmp/cache]: the guard accepts the Gradle user home, the run calls
    [safe_rm] with [/tmp/cache/gradle], a path that the guard rejects, and
    the directory is gone afterwards. *)
Theorem xdg_removed_outside_home :
  let args := Sample.options (Sample.u_home // #".gradle") (abs_path [#"tmp"; #"cache"])
                false false in
  let xdg_gradle := abs_path [#"tmp"; #"cache"; #"gradle"] in
  let final := snd (main Sample.world (CmdArgs args) Sample.start) in
  fst (confirm_under_home Sample.world (Sample.u_home // #".gradle") Sample.u_home
         Sample.start) = Ok true /\
  In xdg_gradle (rm_calls final) /\
  fst (confirm_under_home Sample.world xdg_gradle Sample.u_home Sample.start) = Ok false /\
  fst (confirm_under_home Sample.world xdg_gradle Sample.u_home final) = Ok false /\
  lookup Sample.disk [#"tmp"; #"cache"; #"gradle"] <> None /\
  lookup (fs final) [#"tmp"; #"cache"; #"gradle"] = None.
Proof.
  cbv zeta. split; [|split; [|split; [|split; [|split]]]].
  - vm_compute. reflexivity.
  - vm_compute. do 8 right. left. reflexivity.
  - vm_compute. reflexivity.
  - vm_compute. reflexivity.
  - vm_compute. discriminate.
  - vm_compute. reflexivity.
Qed.

End Invariant.

(** ** The calls of [safe_rm] *)

Lemma calls_only_weaken {A} (P Q : Path -> Prop) (m : M A) :
  (forall p, P p -> Q p) -> calls_only P m -> calls_only Q m.
Proof.
  intros H Hm st. destruct (Hm st) as (new & E & F).
  exists new. split; [exact E|]. eapply Forall_impl; eassumption.
Qed.

Lemma calls_only_ret {A} P (a : A) : calls_only P (ret a).
Proof. intros st. exists []. simpl. rewrite app_nil_r. auto. Qed.

Lemma calls_only_quiet {A} P (m : M A) :
  (forall st, rm_calls (snd (m st)) = rm_calls st) -> calls_only P m.
Proof. intros H st. exists []. rewrite H, app_nil_r. auto. Qed.

Lemma calls_only_bind {A B} P (Q : A -> Prop) (m : M A) (k : A -> M B) :
  calls_only P m -> yields Q m -> (forall a, Q a -> calls_only P (k a)) ->
  calls_only P (bind m k).
Proof.
  intros Hm Hq Hk st. unfold bind. destruct (Hm st) as (new & E & F).
  specialize (Hq st). destruct (m st) as [[a|e] st']; simpl in E.
  - destruct (Hk a (Hq a st' eq_refl) st') as (new' & E' & F').
    exists (new ++ new'). rewrite E', E, app_assoc. split; [reflexivity|].
    apply Forall_app; auto.
  - exists new. simpl. auto.
Qed.

Lemma calls_only_seq {A B} P (m : M A) (k : A -> M B) :
  calls_only P m -> (forall a, calls_only P (k a)) -> calls_only P (bind m k).
Proof.
  intros Hm Hk. apply calls_only_bind with (Q := fun _ => True); auto.
  intros st a st' _. exact I.
Qed.

Lemma calls_only_for_each {A} P (l : list A) (body : A -> M unit) :
  (forall x, In x l -> calls_only P (body x)) -> calls_only P (for_each l body).
Proof.
  induction l as [|x l IH]; intros H; simpl.
  - apply calls_only_ret.
  - apply calls_only_seq; [apply H; left; reflexivity|].
    intros _. apply IH. intros y Hy. apply H. right; exact Hy.
Qed.

Lemma calls_only_when P b (m : M unit) : calls_only P m -> calls_only P (when b m).
Proof. destruct b; [auto|intros _; apply calls_only_ret]. Qed.

Lemma calls_only_safe_rm (P : Path -> Prop) env path dry_run verbose :
  P path -> calls_only P (safe_rm env path dry_run verbose).
Proof.
  intros HP st. exists [path]. rewrite safe_rm_run. split; [|auto].
  unfold safe_rm_state. cbv zeta.
  destruct (path_exists (getcwd env) (fs st) path); cbn [negb]; [|reflexivity].
  destruct dry_run; [reflexivity|].
  destruct (path_is_dir (getcwd env) (fs st) path
            && negb (path_is_symlink (getcwd env) (fs st) path));
    [destruct verbose; reflexivity|].
  destruct (unlink_fs env path (fs st)) as [fs'|e];
    [destruct verbose; reflexivity|].
  destruct (kind e); destruct verbose; reflexivity.
Qed.

Lemma yields_glob_glob env base pat :
  yields (fun hits => forall p, In p hits -> fits base pat p) (glob_glob env base pat).
Proof.
  intros st hits st' E. unfold glob_glob, glob_hits in E. injection E as <- _.
  intros p Hp. unfold fits. cbv zeta in Hp. destruct (pat_base pat) as [n|prefix].
  - destruct (path_lexists _ _ _); [|contradiction].
    destruct Hp as [<-|[]]. exists n. split; reflexivity.
  - apply in_map_iff in Hp as (k & <- & Hk). apply filter_In in Hk as [_ Hk].
    exists k. split; [reflexivity|exact Hk].
Qed.

Lemma calls_only_glob_and_remove env base patterns dry_run verbose :
  calls_only (fun p => exists pat, In pat patterns /\ fits base pat p)
    (glob_and_remove env base patterns dry_run verbose).
Proof.
  unfold glob_and_remove. apply calls_only_for_each. intros pat Hpat.
  eapply calls_only_bind; [|apply yields_glob_glob|].
  - apply calls_only_quiet. reflexivity.
  - intros hits Hhits. apply calls_only_for_each. intros hit Hhit.
    apply calls_only_safe_rm. exists pat. split; [exact Hpat|auto].
Qed.






(** ** Removals on a file system where nothing is locked *)

Lemma same_kind_refl n : same_kind n n.
Proof. destruct n; simpl; auto. Qed.

Lemma same_kind_trans a b c : same_kind a b -> same_kind b c -> same_kind a c.
Proof.
  destruct a, b, c; simpl; try tauto; try congruence.
  intros [-> ->] [-> ->]; auto.
Qed.

Lemma shrinks_refl a : shrinks a a.
Proof. intros q n H. exists n. split; [exact H|apply same_kind_refl]. Qed.

Lemma shrinks_trans a b c : shrinks a b -> shrinks b c -> shrinks a c.
Proof.
  intros Hab Hbc q n H. apply Hab in H as (m & H & K).
  apply Hbc in H as (m' & H & K'). exists m'. split; [exact H|].
  eapply same_kind_trans; eassumption.
Qed.

Lemma assoc_drop_name c es k :
  assoc (drop_name c es) k = if name_eqb k c then None else assoc es k.
Proof.
  induction es as [|[k' n] es IH]; simpl.
  - destruct (name_eqb k c); reflexivity.
  - destruct (name_eqb c k') eqn:E; simpl.
    + apply name_eqb_eq in E; subst k'. rewrite IH.
      destruct (name_eqb k c); reflexivity.
    + rewrite IH. destruct (name_eqb k k') eqn:E'; [|reflexivity].
      apply name_eqb_eq in E'; subst k'. rewrite name_eqb_sym, E. reflexivity.
Qed.

Lemma assoc_alter_assoc g c es k :
  assoc (alter_assoc g c es) k
  = if name_eqb k c
    then match assoc es c with Some n => g n | None => None end
    else assoc es k.
Proof.
  induction es as [|[k' n] es IH]; simpl.
  - destruct (name_eqb k c); reflexivity.
  - destruct (name_eqb c k') eqn:E.
    + apply name_eqb_eq in E; subst k'.
      destruct (g n) as [n'|]; simpl.
      * destruct (name_eqb k c); reflexivity.
      * rewrite assoc_drop_name. destruct (name_eqb k c); reflexivity.
    + simpl. rewrite IH. destruct (name_eqb k k') eqn:E'; [|reflexivity].
      apply name_eqb_eq in E'; subst k'. rewrite name_eqb_sym, E. reflexivity.
Qed.

Lemma shrinks_alter g :
  (forall m, shrinks (g m) m) -> forall rd n, shrinks (alter g rd n) n.
Proof.
  intros Hg. induction rd as [|c rd IH]; intros n; simpl; [apply Hg|].
  destruct n as [l|l t|l es]; try apply shrinks_refl.
  intros [|k q] n' H; simpl in H.
  - injection H as <-. eexists; split; [reflexivity|reflexivity].
  - rewrite assoc_alter_assoc in H. simpl.
    destruct (name_eqb k c) eqn:E.
    + apply name_eqb_eq in E; subst k.
      destruct (assoc es c) as [m|]; [|discriminate H].
      apply IH in H. exact H.
    + destruct (assoc es k) as [m|]; [|discriminate H].
      exists n'. split; [exact H|apply same_kind_refl].
Qed.

Lemma shrinks_alter_entry g rd c a :
  (forall m m', g m = Some m' -> shrinks m' m) ->
  shrinks (alter_entry g rd c a) a.
Proof.
  intros Hg. unfold alter_entry. apply shrinks_alter.
  intros [l|l t|l es]; try apply shrinks_refl.
  intros [|k q] n' H; simpl in H.
  - injection H as <-. eexists; split; [reflexivity|reflexivity].
  - rewrite assoc_alter_assoc in H. simpl.
    destruct (name_eqb k c) eqn:E.
    + apply name_eqb_eq in E; subst k.
      destruct (assoc es c) as [m|]; [|discriminate H].
      destruct (g m) as [m'|] eqn:Eg; [|discriminate H].
      apply (Hg _ _ Eg) in H. exact H.
    + destruct (assoc es k) as [m|]; [|discriminate H].
      exists n'. split; [exact H|apply same_kind_refl].
Qed.

Lemma lookup_app a p q :
  lookup a (p ++ q) = match lookup a p with Some m => lookup m q | None => None end.
Proof.
  revert a; induction p as [|c p IH]; intros a; simpl; [reflexivity|].
  destruct a as [l|l t|l es]; try reflexivity.
  destruct (assoc es c); [apply IH|reflexivity].
Qed.

Lemma lookup_alter_entry_gone rd c a :
  lookup (alter_entry (fun _ => None) rd c a) (rd ++ [c]) = None.
Proof.
  unfold alter_entry. revert a. induction rd as [|k rd IH]; intros a; simpl.
  - destruct a as [l|l t|l es]; try reflexivity.
    rewrite assoc_alter_assoc, name_eqb_refl. destruct (assoc es c); reflexivity.
  - destruct a as [l|l t|l es]; try reflexivity.
    rewrite assoc_alter_assoc, name_eqb_refl.
    destruct (assoc es k) as [m|]; [apply IH|reflexivity].
Qed.

Lemma shrinks_is_Dir a b q :
  shrinks a b -> is_Dir (lookup a q) = true -> is_Dir (lookup b q) = true.
Proof.
  intros S H. destruct (lookup a q) as [[| |l es]|] eqn:E; try discriminate H.
  apply S in E as (n & -> & K). destruct n; simpl in K; try contradiction. reflexivity.
Qed.

(** What resolves after a removal resolved before it, to the same place. *)
Lemma realpath_from_shrinks a b fuel :
  shrinks a b ->
  forall todo done r,
    realpath_from a true fuel done todo = Some r ->
    realpath_from b true fuel done todo = Some r.
Proof.
  intros S. induction fuel as [|fuel IHf];
    (induction todo as [|c rest IH]; intros done r H;
     [rewrite realpath_from_nil in H |- *; exact H|]);
    rewrite realpath_from_cons in H |- *; cbn [andb] in *;
    (destruct (is_Dir (lookup a done)) eqn:Ed; cbn [negb] in H; [|discriminate H]);
    rewrite (shrinks_is_Dir a b done S Ed); cbn [negb];
    (destruct (name_eqb c dot); [apply IH; exact H|]);
    (destruct (name_eqb c dotdot); [apply IH; exact H|]);
    (destruct (lookup a (done ++ [c])) as [n|] eqn:El; [|discriminate H]);
    apply S in El as (m & -> & K);
    destruct n as [l|l t|l es], m as [l'|l' t'|l' es']; simpl in K; try contradiction;
    try (apply IH; exact H).
  - discriminate H.
  - destruct K as [_ <-]. apply IHf. exact H.
Qed.

Lemma stat_shrinks cwd a b p n' :
  shrinks a b -> stat cwd a p = Some n' ->
  exists n, stat cwd b p = Some n /\ same_kind n' n.
Proof.
  unfold stat. intros S H.
  destruct (realpath_from a true MAXSYMLINKS [] (absolute cwd p)) as [r|] eqn:E;
    [|discriminate H].
  rewrite (realpath_from_shrinks a b _ S _ _ _ E). apply S, H.
Qed.

Lemma path_exists_shrinks cwd a b p :
  shrinks a b -> path_exists cwd b p = false -> path_exists cwd a p = false.
Proof.
  unfold path_exists. intros S H.
  destruct (stat cwd a p) as [n'|] eqn:E; [|reflexivity].
  destruct (stat_shrinks cwd a b p n' S E) as (n & E' & _). rewrite E' in H. exact H.
Qed.

(** The components before a last plain one resolve, and the last one names
    an entry where they lead. *)
Lemma realpath_from_unsnoc a fuel (x : name) :
  name_eqb x dot = false -> name_eqb x dotdot = false ->
  forall todo done r,
    realpath_from a true fuel done (todo ++ [x]) = Some r ->
    exists rd, realpath_from a true fuel done todo = Some rd /\
               lookup a (rd ++ [x]) <> None.
Proof.
  intros Hd Hdd. induction fuel as [|fuel IHf];
    (induction todo as [|c rest IH]; intros done r H;
     [ exists done; split; [apply realpath_from_nil|];
       simpl app in H; rewrite realpath_from_cons, Hd, Hdd in H;
       destruct (true && negb (is_Dir (lookup a done)))%bool; [discriminate H|];
       destruct (lookup a (done ++ [x])); [discriminate|discriminate H]
     | ]);
    simpl app in H; rewrite realpath_from_cons in H; rewrite realpath_from_cons;
    (destruct (true && negb (is_Dir (lookup a done)))%bool; [discriminate H|]);
    (destruct (name_eqb c dot); [apply IH with (r := r); exact H|]);
    (destruct (name_eqb c dotdot); [apply IH with (r := r); exact H|]);
    (destruct (lookup a (done ++ [c])) as [[l|l t|l es]|]; [| | |discriminate H]);
    try (apply IH with (r := r); exact H).
  - discriminate H.
  - rewrite app_assoc in H. apply IHf with (r := r). exact H.
Qed.

Lemma lookup_snoc_is_Dir a rd c :
  lookup a (rd ++ [c]) <> None -> is_Dir (lookup a rd) = true.
Proof.
  rewrite lookup_app. destruct (lookup a rd) as [[l|l t|l es]|]; simpl; congruence.
Qed.

Lemma split_last_app (d : list name) (c : name) : split_last (d ++ [c]) = Some (d, c).
Proof.
  induction d as [|a d IH]; [reflexivity|].
  simpl. rewrite IH. destruct (d ++ [c]) eqn:E; [|reflexivity].
  destruct d; discriminate E.
Qed.

Lemma split_last_Some l d c : split_last l = Some (d, c) -> l = d ++ [c].
Proof.
  revert d; induction l as [|a l IH]; intros d H; [discriminate H|].
  simpl in H. destruct l as [|b l].
  - injection H as <- <-. reflexivity.
  - destruct (split_last (b :: l)) as [[d' c']|]; [|discriminate H].
    injection H as <- <-. simpl. f_equal. apply IH. reflexivity.
Qed.

(** A path that exists and ends in a plain name has a place. *)
Lemma locate_of_exists cwd a p d c :
  absolute cwd p = d ++ [c] ->
  name_eqb c dot = false -> name_eqb c dotdot = false ->
  path_exists cwd a p = true ->
  exists rd, locate cwd a p = Some (rd, c) /\
             realpath_from a true MAXSYMLINKS [] d = Some rd /\
             lookup a (rd ++ [c]) <> None.
Proof.
  intros Ha Hd Hdd He. unfold path_exists, stat in He. rewrite Ha in He.
  destruct (realpath_from a true MAXSYMLINKS [] (d ++ [c])) as [r|] eqn:E;
    [|discriminate He].
  apply realpath_from_unsnoc in E as (rd & Er & Hl); try assumption.
  exists rd. unfold locate. rewrite Ha, split_last_app, Hd, Hdd. cbn [orb].
  rewrite Er, (lookup_snoc_is_Dir _ _ _ Hl). auto.
Qed.

(** After the entry of a path is taken away, the path does not exist. *)
Lemma gone_after_removal cwd a p d c rd :
  absolute cwd p = d ++ [c] ->
  name_eqb c dot = false -> name_eqb c dotdot = false ->
  realpath_from a true MAXSYMLINKS [] d = Some rd ->
  path_exists cwd (alter_entry (fun _ => None) rd c a) p = false.
Proof.
  intros Ha Hd Hdd Er.
  set (a' := alter_entry (fun _ => None) rd c a).
  destruct (path_exists cwd a' p) eqn:He; [|reflexivity]. exfalso.
  destruct (locate_of_exists cwd a' p d c Ha Hd Hdd He) as (rd' & _ & Er' & Hl).
  assert (S : shrinks a' a) by (apply shrinks_alter_entry; discriminate).
  apply (realpath_from_shrinks a' a _ S) in Er'. rewrite Er in Er'.
  injection Er' as <-. apply Hl. apply lookup_alter_entry_gone.
Qed.

Lemma locked_inside_Dir l es : locked_inside (Dir l es) = l || any_locked es.
Proof.
  cbn [locked_inside]. f_equal. unfold any_locked.
  induction es as [|[k c] tl IH]; [reflexivity|]. simpl. rewrite <- IH. reflexivity.
Qed.

Lemma any_locked_assoc es k m :
  any_locked es = false -> assoc es k = Some m -> locked_inside m = false.
Proof.
  induction es as [|[k' n] es IH]; simpl; [discriminate|].
  intros H E. apply orb_false_iff in H as [Hn Hes].
  destruct (name_eqb k k'); [injection E as <-; exact Hn|auto].
Qed.

Lemma locked_inside_lookup a q n :
  locked_inside a = false -> lookup a q = Some n -> locked_inside n = false.
Proof.
  revert a; induction q as [|k q IH]; intros a Ha H; simpl in H.
  - injection H as <-. exact Ha.
  - destruct a as [l|l t|l es]; try discriminate H.
    rewrite locked_inside_Dir in Ha. apply orb_false_iff in Ha as [_ Ha].
    destruct (assoc es k) as [m|] eqn:E; [|discriminate H].
    eapply IH; [|exact H]. eapply any_locked_assoc; eassumption.
Qed.

Lemma locked_inside_node_locked n : locked_inside n = false -> node_locked n = false.
Proof.
  destruct n as [l|l t|l es]; simpl; try tauto.
  intros H. apply orb_false_iff in H as [H _]. exact H.
Qed.

Lemma any_locked_drop_name c es :
  any_locked es = false -> any_locked (drop_name c es) = false.
Proof.
  unfold any_locked, drop_name. induction es as [|[k n] es IH]; simpl; [auto|].
  intros H. apply orb_false_iff in H as [Hn Hes].
  destruct (negb (name_eqb c k)); simpl; [rewrite Hn|]; auto.
Qed.

Lemma any_locked_alter_assoc g c es :
  (forall m m', locked_inside m = false -> g m = Some m' -> locked_inside m' = false) ->
  any_locked es = false -> any_locked (alter_assoc g c es) = false.
Proof.
  intros Hg. induction es as [|[k n] es IH]; simpl; [auto|].
  intros H. apply orb_false_iff in H as [Hn Hes].
  destruct (name_eqb c k).
  - destruct (g n) as [n'|] eqn:E.
    + simpl. rewrite (Hg _ _ Hn E). exact Hes.
    + apply any_locked_drop_name, Hes.
  - simpl. rewrite Hn. apply IH, Hes.
Qed.

Lemma locked_inside_alter g :
  (forall m, locked_inside m = false -> locked_inside (g m) = false) ->
  forall rd a, locked_inside a = false -> locked_inside (alter g rd a) = false.
Proof.
  intros Hg. induction rd as [|c rd IH]; intros a Ha; simpl; [auto|].
  destruct a as [l|l t|l es]; try exact Ha.
  rewrite locked_inside_Dir in Ha |- *. apply orb_false_iff in Ha as [-> Ha].
  simpl. apply any_locked_alter_assoc; [|exact Ha].
  intros m m' Hm E. injection E as <-. apply IH, Hm.
Qed.

Lemma locked_inside_alter_entry_None rd c a :
  locked_inside a = false ->
  locked_inside (alter_entry (fun _ => None) rd c a) = false.
Proof.
  intros Ha. unfold alter_entry. apply locked_inside_alter; [|exact Ha].
  intros [l|l t|l es] Hm; try exact Hm.
  rewrite locked_inside_Dir in Hm |- *. apply orb_false_iff in Hm as [-> Hm].
  simpl. apply any_locked_alter_assoc; [discriminate|exact Hm].
Qed.

Lemma alter_assoc_ext g1 g2 c es :
  (forall m, assoc es c = Some m -> g1 m = g2 m) ->
  alter_assoc g1 c es = alter_assoc g2 c es.
Proof.
  induction es as [|[k n] es IH]; intros H; simpl; [reflexivity|].
  simpl in H. destruct (name_eqb c k).
  - rewrite (H n eq_refl). reflexivity.
  - f_equal. apply IH, H.
Qed.

Lemma alter_ext g1 g2 :
  forall rd a, (forall m, lookup a rd = Some m -> g1 m = g2 m) ->
               alter g1 rd a = alter g2 rd a.
Proof.
  induction rd as [|c rd IH]; intros a H; simpl; [apply H; reflexivity|].
  destruct a as [l|l t|l es]; try reflexivity. f_equal.
  apply alter_assoc_ext. intros m Em. f_equal. apply IH.
  intros m' H'. apply H. simpl. rewrite Em. exact H'.
Qed.

Lemma alter_entry_None_eq g rd c a n :
  lookup a (rd ++ [c]) = Some n -> g n = None ->
  alter_entry g rd c a = alter_entry (fun _ => None) rd c a.
Proof.
  intros Hl Hg. unfold alter_entry. apply alter_ext.
  intros m Hm. rewrite lookup_app, Hm in Hl.
  destruct m as [l|l t|l es]; try reflexivity. f_equal.
  apply alter_assoc_ext. intros m' Em. simpl in Hl. rewrite Em in Hl.
  injection Hl as <-. exact Hg.
Qed.

(** Strict resolution of a last component that is an entry and no link. *)
Lemma realpath_from_snoc_strict a fuel (x : name) :
  name_eqb x dot = false -> name_eqb x dotdot = false ->
  forall todo done r n,
    realpath_from a true fuel done todo = Some r ->
    lookup a (r ++ [x]) = Some n -> is_Link (Some n) = false ->
    realpath_from a true fuel done (todo ++ [x]) = Some (r ++ [x]).
Proof.
  intros Hd Hdd. induction fuel as [|fuel IHf];
    (induction todo as [|c rest IH]; intros done r n H Hl L;
     [ rewrite realpath_from_nil in H; injection H as <-;
       simpl app; rewrite realpath_from_cons, Hd, Hdd, Hl;
       rewrite (lookup_snoc_is_Dir a done x) by congruence; cbn [andb negb];
       destruct n; try discriminate L; first [reflexivity | apply realpath_from_nil]
     | ]);
    simpl app; rewrite realpath_from_cons in H; rewrite realpath_from_cons;
    (destruct (true && negb (is_Dir (lookup a done)))%bool; [discriminate H|]);
    (destruct (name_eqb c dot); [eapply IH; eassumption|]);
    (destruct (name_eqb c dotdot); [eapply IH; eassumption|]);
    (destruct (lookup a (done ++ [c])) as [[l|l t|l es]|]; [| | |discriminate H]);
    try (eapply IH; eassumption).
  - discriminate H.
  - rewrite app_assoc. eapply IHf; eassumption.
Qed.

Lemma fs_report_removed verbose p st : fs (report_removed verbose p st) = fs st.
Proof. destruct verbose; reflexivity. Qed.

(** On a file system where nothing is locked, [safe_rm] takes away the entry
    of a path that exists and ends in a plain name. *)
Lemma safe_rm_state_unlocked env p verbose st d c :
  absolute (getcwd env) p = d ++ [c] ->
  name_eqb c dot = false -> name_eqb c dotdot = false ->
  locked_inside (fs st) = false ->
  path_exists (getcwd env) (fs st) p = true ->
  exists rd,
    realpath_from (fs st) true MAXSYMLINKS [] d = Some rd /\
    fs (safe_rm_state env p false verbose st)
    = alter_entry (fun _ => None) rd c (fs st).
Proof.
  intros Ha Hd Hdd Hu He.
  destruct (locate_of_exists _ _ _ _ _ Ha Hd Hdd He) as (rd & Hloc & Er & Hl).
  exists rd. split; [exact Er|].
  destruct (lookup (fs st) (rd ++ [c])) as [n|] eqn:En; [clear Hl|congruence].
  pose proof (locked_inside_lookup _ _ _ Hu En) as Hn.
  assert (Hlstat : lstat (getcwd env) (fs st) p = Some n).
  { unfold lstat. rewrite Hloc. exact En. }
  unfold safe_rm_state. cbv zeta. rewrite He. cbn [negb].
  assert (Hunlink : is_Dir (Some n) = false ->
                    unlink_fs env p (fs st)
                    = Ok (alter_entry (fun _ => None) rd c (fs st))).
  { intros Hnd. unfold unlink_fs. rewrite Hloc, En.
    destruct n as [l|l t|l es]; try discriminate Hnd;
      rewrite (locked_inside_node_locked _ Hn); reflexivity. }
  destruct n as [l|l t|l es].
  - assert (Hstat : stat (getcwd env) (fs st) p = Some (File l)).
    { unfold stat. rewrite Ha.
      rewrite (realpath_from_snoc_strict _ _ _ Hd Hdd _ _ _ _ Er En eq_refl). exact En. }
    unfold path_is_dir. rewrite Hstat. cbn [is_Dir andb].
    rewrite Hunlink by reflexivity. apply fs_report_removed.
  - unfold path_is_symlink. rewrite Hlstat. cbn [is_Link negb].
    rewrite andb_false_r, Hunlink by reflexivity. apply fs_report_removed.
  - assert (Hstat : stat (getcwd env) (fs st) p = Some (Dir l es)).
    { unfold stat. rewrite Ha.
      rewrite (realpath_from_snoc_strict _ _ _ Hd Hdd _ _ _ _ Er En eq_refl). exact En. }
    unfold path_is_dir, path_is_symlink. rewrite Hstat, Hlstat. cbn [is_Dir is_Link negb andb].
    rewrite fs_report_removed. cbn [with_fs fs]. unfold rmtree_fs.
    rewrite Hlstat, Hloc. eapply alter_entry_None_eq; [exact En|].
    apply rmtree_node_None_iff, Hn.
Qed.

Lemma plain_end_absolute cwd p :
  plain_end p ->
  exists d c, absolute cwd p = d ++ [c] /\
              name_eqb c dot = false /\ name_eqb c dotdot = false.
Proof.
  intros (d & c & E & Hd & Hdd). unfold absolute. rewrite E.
  destruct (anchored p); [exists d, c; auto|].
  exists (cwd ++ d), c. rewrite app_assoc. auto.
Qed.

(** What a removal by [safe_rm] does when nothing is locked: nothing stays
    locked, the file system only loses entries, and the path is gone. *)
Lemma safe_rm_unlocked env p verbose st :
  plain_end p -> locked_inside (fs st) = false ->
  let st' := snd (safe_rm env p false verbose st) in
  locked_inside (fs st') = false /\
  shrinks (fs st') (fs st) /\
  path_exists (getcwd env) (fs st') p = false.
Proof.
  intros Hp Hu. rewrite safe_rm_run. cbn [snd].
  destruct (plain_end_absolute (getcwd env) p Hp) as (d & c & Ha & Hd & Hdd).
  destruct (path_exists (getcwd env) (fs st) p) eqn:He.
  - destruct (safe_rm_state_unlocked env p verbose st d c Ha Hd Hdd Hu He)
      as (rd & Er & ->).
    split; [apply locked_inside_alter_entry_None, Hu|]. split.
    + apply shrinks_alter_entry. discriminate.
    + eapply gone_after_removal; eassumption.
  - assert (E : fs (safe_rm_state env p false verbose st) = fs st).
    { unfold safe_rm_state. cbv zeta. rewrite He. reflexivity. }
    rewrite E. split; [exact Hu|]. split; [apply shrinks_refl|exact He].
Qed.

Lemma only_removes_keeps {A} (m : M A) : keeps_fs m -> only_removes m.
Proof. intros H st Hu. rewrite H. split; [exact Hu|apply shrinks_refl]. Qed.

Lemma only_removes_bind {A B} (m : M A) (k : A -> M B) :
  only_removes m -> (forall a, only_removes (k a)) -> only_removes (bind m k).
Proof.
  intros Hm Hk st Hu. unfold bind. destruct (Hm st Hu) as [Hu' S].
  destruct (m st) as [[a|e] st']; cbn [snd] in *.
  - destruct (Hk a st' Hu') as [Hu'' S']. split; [exact Hu''|].
    eapply shrinks_trans; eassumption.
  - auto.
Qed.

Lemma only_removes_for_each {A} (l : list A) (body : A -> M unit) :
  (forall x, In x l -> only_removes (body x)) -> only_removes (for_each l body).
Proof.
  induction l as [|x l IH]; intros H; simpl.
  - apply only_removes_keeps, keeps_fs_ret.
  - apply only_removes_bind; [apply H; left; reflexivity|].
    intros _. apply IH. intros y Hy. apply H. right; exact Hy.
Qed.

Lemma only_removes_when b (m : M unit) : only_removes m -> only_removes (when b m).
Proof. destruct b; [auto|intros _; apply only_removes_keeps, keeps_fs_ret]. Qed.

Lemma only_removes_safe_rm env p verbose :
  plain_end p -> only_removes (safe_rm env p false verbose).
Proof.
  intros Hp st Hu. destruct (safe_rm_unlocked env p verbose st Hp Hu) as (H1 & H2 & _).
  auto.
Qed.

Lemma plain_end_joinpath (p : Path) (c : name) :
  name_eqb c dot = false -> name_eqb c dotdot = false -> plain_end (p // c).
Proof. intros Hd Hdd. exists (parts p), c. auto. Qed.

Lemma plain_patterns_of_script pat :
  In pat safe_patterns \/ In pat aggressive_patterns -> plain_pattern pat.
Proof.
  intros H k Hk.
  simpl in H.
  destruct H as [[<-|[<-|[]]]|[<-|[<-|[<-|[<-|[]]]]]]; simpl in Hk;
    try (subst k; split; reflexivity);
    (split; [destruct (name_eqb k dot) eqn:E|destruct (name_eqb k dotdot) eqn:E];
     try reflexivity; apply name_eqb_eq in E; subst k; discriminate Hk).
Qed.

Lemma fits_plain_end base pat p : plain_pattern pat -> fits base pat p -> plain_end p.
Proof.
  intros Hpat (k & -> & Hk). destruct (Hpat k Hk). apply plain_end_joinpath; assumption.
Qed.

Lemma assoc_In es k n : assoc es k = Some n -> In k (map fst es).
Proof.
  induction es as [|[k' n'] es IH]; simpl; [discriminate|].
  destruct (name_eqb k k') eqn:E; [|auto].
  intros _. left. symmetry. apply name_eqb_eq, E.
Qed.

(** [glob] finds every path of the form of the pattern that exists. *)
Lemma exists_in_glob_hits env base pat p a :
  plain_pattern pat -> fits base pat p ->
  path_exists (getcwd env) a p = true ->
  In p (glob_hits env base pat a).
Proof.
  intros Hpat (k & -> & Hk) He. destruct (Hpat k Hk) as [Hd Hdd].
  set (dir := joinparts base (pat_dir pat)) in *.
  destruct (locate_of_exists (getcwd env) a (dir // k) _ _
              (absolute_joinpath _ dir k) Hd Hdd He) as (rd & Hloc & Er & Hl).
  unfold glob_hits. fold dir. cbv zeta. destruct (pat_base pat) as [n|prefix]; simpl in Hk.
  - subst n. unfold path_lexists, lstat. rewrite Hloc.
    destruct (lookup a (rd ++ [k])); [left; reflexivity|congruence].
  - apply in_map. apply filter_In. split; [|exact Hk].
    unfold listdir, stat. rewrite Er. rewrite lookup_app in Hl.
    destruct (lookup a rd) as [[l|l t|l es]|]; simpl in Hl; try congruence.
    destruct (assoc es k) as [n|] eqn:En; [|congruence].
    eapply assoc_In; eassumption.
Qed.

Lemma for_each_safe_rm_unlocked env verbose (hits : list Path) :
  (forall p, In p hits -> plain_end p) ->
  forall st, locked_inside (fs st) = false ->
  exists st',
    for_each hits (fun hit => safe_rm env hit false verbose) st = (Ok tt, st') /\
    locked_inside (fs st') = false /\
    shrinks (fs st') (fs st) /\
    forall p, In p hits -> path_exists (getcwd env) (fs st') p = false.
Proof.
  induction hits as [|h hits IH]; intros Hp st Hu.
  - exists st. repeat split; [exact Hu|apply shrinks_refl|intros p []].
  - simpl. unfold bind.
    destruct (safe_rm_unlocked env h verbose st (Hp h (or_introl eq_refl)) Hu)
      as (Hu1 & S1 & G1).
    rewrite safe_rm_run in *. cbn [snd] in *.
    destruct (IH (fun p H => Hp p (or_intror H)) _ Hu1) as (st' & E & Hu' & S' & G').
    exists st'. split; [exact E|]. split; [exact Hu'|]. split.
    + eapply shrinks_trans; eassumption.
    + intros p [<-|H]; [|auto]. eapply path_exists_shrinks; eassumption.
Qed.

(** After [glob_and_remove] on a file system where nothing is locked, no
    path of the form of one of the patterns exists. *)
Lemma glob_and_remove_unlocked env base verbose (patterns : list pattern) :
  (forall pat, In pat patterns -> plain_pattern pat) ->
  forall st, locked_inside (fs st) = false ->
  exists st',
    glob_and_remove env base patterns false verbose st = (Ok tt, st') /\
    locked_inside (fs st') = false /\
    shrinks (fs st') (fs st) /\
    forall pat p, In pat patterns -> fits base pat p ->
                  path_exists (getcwd env) (fs st') p = false.
Proof.
  unfold glob_and_remove.
  induction patterns as [|pat rest IH]; intros Hpl st Hu.
  - exists st. repeat split; [exact Hu|apply shrinks_refl|intros pat p []].
  - simpl. unfold bind at 1 2. unfold glob_glob at 1.
    destruct (for_each_safe_rm_unlocked env verbose (glob_hits env base pat (fs st)))
      with (st := st) as (st1 & E1 & Hu1 & S1 & G1); [|exact Hu|].
    { intros p Hp. apply (fits_plain_end base pat); [apply Hpl; left; reflexivity|].
      apply (yields_glob_glob env base pat st _ st eq_refl). exact Hp. }
    rewrite E1.
    destruct (IH (fun q H => Hpl q (or_intror H)) st1 Hu1) as (st' & E & Hu' & S' & G').
    exists st'. split; [exact E|]. split; [exact Hu'|].
    assert (S : shrinks (fs st') (fs st)) by (eapply shrinks_trans; eassumption).
    split; [exact S|].
    intros q p [<-|Hq] Hfit; [|eauto].
    destruct (path_exists (getcwd env) (fs st) p) eqn:He.
    + apply (path_exists_shrinks _ _ _ _ S'). apply G1.
      apply exists_in_glob_hits; [apply Hpl; left; reflexivity|exact Hfit|exact He].
    + apply (path_exists_shrinks _ _ _ _ S). exact He.
Qed.

Lemma only_removes_bind_yields {A B} (Q : A -> Prop) (m : M A) (k : A -> M B) :
  only_removes m -> yields Q m -> (forall a, Q a -> only_removes (k a)) ->
  only_removes (bind m k).
Proof.
  intros Hm Hq Hk st Hu. unfold bind. destruct (Hm st Hu) as [Hu' S].
  specialize (Hq st). destruct (m st) as [[a|e] st']; cbn [snd] in *.
  - destruct (Hk a (Hq a st' eq_refl) st' Hu') as [Hu'' S']. split; [exact Hu''|].
    eapply shrinks_trans; eassumption.
  - auto.
Qed.

Lemma only_removes_glob_and_remove env base verbose patterns :
  (forall pat, In pat patterns -> plain_pattern pat) ->
  only_removes (glob_and_remove env base patterns false verbose).
Proof.
  intros Hpl st Hu.
  destruct (glob_and_remove_unlocked env base verbose patterns Hpl st Hu)
    as (st' & -> & Hu' & S & _). auto.
Qed.

Ltac only_removes_read := apply only_removes_keeps; intros ?; reflexivity.

(** The safe subset of the user-level tier only takes entries away. *)
Lemma only_removes_user_level_prune env args :
  arg_dry_run args = false -> only_removes (user_level_prune env args).
Proof.
  intros Hdry. unfold user_level_prune.
  apply only_removes_bind; [apply only_removes_keeps, keeps_fs_confirm_under_home|].
  intros ok. destruct ok; cbn [negb]; [|only_removes_read].
  unfold prune_user_caches. rewrite Hdry.
  apply only_removes_bind; [only_removes_read|]. intros _.
  apply only_removes_bind.
  { apply only_removes_for_each. intros sub Hsub. apply only_removes_safe_rm.
    destruct Hsub as [<-|[<-|[]]]; apply plain_end_joinpath; reflexivity. }
  intros _. apply only_removes_bind.
  { apply only_removes_glob_and_remove. intros pat Hpat.
    apply plain_patterns_of_script. left; exact Hpat. }
  intros _. apply only_removes_bind; [only_removes_read|]. intros there.
  apply only_removes_bind.
  { apply only_removes_when. apply only_removes_bind; [only_removes_read|].
    intros subdirs. apply only_removes_for_each. intros subdir _.
    apply only_removes_bind; [only_removes_read|]. intros is_dir.
    apply only_removes_when. apply only_removes_safe_rm.
    apply plain_end_joinpath; reflexivity. }
  intros _. apply only_removes_bind; [only_removes_read|]. intros there'.
  apply only_removes_bind.
  { apply only_removes_when. apply only_removes_safe_rm.
    apply plain_end_joinpath; reflexivity. }
  intros _. apply only_removes_when.
  apply only_removes_bind; [only_removes_read|]. intros _.
  apply only_removes_glob_and_remove. intros pat Hpat.
  apply plain_patterns_of_script. right; exact Hpat.
Qed.

Lemma only_removes_after_user_level env args :
  arg_dry_run args = false -> only_removes (after_user_level env args).
Proof.
  intros Hdry. unfold after_user_level, remove_konan. rewrite Hdry.
  apply only_removes_bind; [|intros _; only_removes_read].
  apply only_removes_when.
  apply only_removes_bind; [apply only_removes_keeps, keeps_fs_confirm_under_home|].
  intros ok. destruct ok; [|only_removes_read].
  apply only_removes_bind; [only_removes_read|]. intros _.
  apply only_removes_safe_rm. apply plain_end_joinpath; reflexivity.
Qed.

(** ** The aggressive tier *)


Lemma rm_calls_run_cmd env cmd cwd dry_run verbose st :
  rm_calls (snd (run_cmd env cmd cwd dry_run verbose st)) = rm_calls st.
Proof.
  destruct dry_run; [rewrite run_cmd_dry; reflexivity|].
  rewrite run_cmd_real. destruct (spawn env cmd cwd (fs st)); destruct verbose; reflexivity.
Qed.

Lemma yields_find_project_dirs env root :
  yields (fun targets => forall p, In p targets ->
                         exists k, ends_with p k /\ artifact k = true)
    (find_project_dirs_to_remove env root).
Proof.
  intros st targets st' E p Hp.
  apply find_project_dirs_iff in E as [_ Hiff].
  apply Hiff, artifact_under_shape in Hp as (cs & d & -> & _ & Hd).
  exists d. split; [|exact Hd].
  exists (parts root ++ cs). simpl. apply app_assoc.
Qed.

Ltac calls_quiet := apply calls_only_quiet; intros ?; reflexivity.


(** * Further properties of the script *)

(** ** The Safety Guard as an order on paths *)

(** A last component [".."] takes the last resolved component away. *)
Lemma realpath_from_snoc_dotdot a fuel :
  forall todo done,
    realpath_from a false fuel done (todo ++ [dotdot])
    = match realpath_from a false fuel done todo with
      | Some r => Some (removelast r)
      | None => None
      end.
Proof.
  induction fuel as [|fuel IHf];
    (induction todo as [|c rest IH]; intros done;
     [ rewrite realpath_from_nil; simpl app; rewrite realpath_from_cons;
       cbn [andb]; change (name_eqb dotdot dot) with false;
       change (name_eqb dotdot dotdot) with true; cbv iota;
       apply realpath_from_nil
     | ]);
    simpl app; rewrite !realpath_from_cons; cbn [andb];
    (destruct (name_eqb c dot); [apply IH|]);
    (destruct (name_eqb c dotdot); [apply IH|]);
    (destruct (lookup a (done ++ [c])) as [[l|l t|l es]|]; try apply IH).
  - reflexivity.
  - rewrite app_assoc. apply IHf.
Qed.

Lemma resolve_dotdot cwd a (h : Path) :
  resolve cwd a (h // dotdot)
  = match resolve cwd a h with Some r => Some (removelast r) | None => None end.
Proof.
  unfold resolve. rewrite absolute_joinpath. apply realpath_from_snoc_dotdot.
Qed.

Lemma under_home_short cwd a (p h : Path) (o r : list name) :
  resolve cwd a p = Some o -> resolve cwd a h = Some r ->
  List.length o <= List.length r ->
  under_home cwd a p h = false.
Proof.
  intros Ho Hr Hlen. destruct (under_home cwd a p h) eqn:E; [|reflexivity].
  apply under_home_iff in E as (r' & x & rest & H1 & _ & H2).
  rewrite Hr in H1; injection H1 as <-. rewrite Ho in H2; injection H2 as ->.
  rewrite List.length_app in Hlen. simpl in Hlen. lia.
Qed.

Lemma length_removelast (l : list name) : List.length (removelast l) <= List.length l.
Proof.
  induction l as [|a l IH]; [simpl; lia|].
  destruct l as [|b l]; [simpl; lia|].
  change (removelast (a :: b :: l)) with (a :: removelast (b :: l)). simpl in *. lia.
Qed.

Lemma length_removelast_lt (l : list name) :
  l <> [] -> List.length (removelast l) < List.length l.
Proof.
  induction l as [|a l IH]; [congruence|intros _].
  destruct l as [|b l]; [simpl; lia|].
  change (removelast (a :: b :: l)) with (a :: removelast (b :: l)).
  assert (b :: l <> []) by discriminate. apply IH in H. simpl in *. lia.
Qed.

Lemma under_home_trans cwd a (p q h : Path) :
  under_home cwd a p q = true -> under_home cwd a q h = true ->
  under_home cwd a p h = true.
Proof.
  intros H1 H2.
  apply under_home_iff in H1 as (rq & x & rest & Eq & Nq & Ep).
  apply under_home_iff in H2 as (rh & y & rest' & Eh & Nh & Eq').
  rewrite Eq in Eq'. injection Eq' as ->.
  apply under_home_iff. exists rh, y, (rest' ++ x :: rest).
  repeat split; try assumption. rewrite Ep, <- app_assoc. reflexivity.
Qed.

Lemma under_home_asym cwd a (p h : Path) :
  under_home cwd a p h = true -> under_home cwd a h p = false.
Proof.
  intros H. apply under_home_iff in H as (rh & x & rest & Eh & _ & Ep).
  eapply under_home_short; [exact Eh|exact Ep|].
  rewrite List.length_app. simpl. lia.
Qed.

Lemma under_home_child cwd a (p h : Path) (x : name) (rp : list name) :
  under_home cwd a p h = true ->
  resolve cwd a p = Some rp ->
  name_eqb x dot = false -> name_eqb x dotdot = false ->
  is_Link (lookup a (rp ++ [x])) = false ->
  under_home cwd a (p // x) h = true.
Proof.
  intros H Hp Hd Hdd L.
  apply under_home_iff in H as (rh & y & rest & Eh & Nh & Ep).
  rewrite Hp in Ep. injection Ep as ->.
  apply under_home_iff. exists rh, y, (rest ++ [x]). repeat split; try assumption.
  rewrite (resolve_child cwd a p x _ Hp Hd Hdd L), <- app_assoc. reflexivity.
Qed.

Lemma lookup_leaf n q m :
  is_Dir (Some n) = false -> lookup n q = Some m -> q = [].
Proof.
  intros Hn H. destruct q as [|k q]; [reflexivity|].
  destruct n; simpl in *; discriminate.
Qed.

(** Taking a leaf away leaves every other entry where it is. *)
Lemma lookup_alter_entry_kept rd c :
  forall a n q m,
    lookup a (rd ++ [c]) = Some n -> is_Dir (Some n) = false ->
    lookup a q = Some m -> q <> rd ++ [c] ->
    exists m', lookup (alter_entry (fun _ => None) rd c a) q = Some m' /\ same_kind m' m.
Proof.
  unfold alter_entry. induction rd as [|k0 rd IH]; intros a n q m Hn Hleaf Hq Hne.
  - simpl in Hn. destruct a as [l|l t|l es]; try discriminate Hn. simpl.
    destruct q as [|k q].
    + simpl in Hq. injection Hq as <-. eexists; split; reflexivity.
    + simpl in Hq |- *. rewrite assoc_alter_assoc.
      destruct (name_eqb k c) eqn:E.
      * apply name_eqb_eq in E; subst k.
        destruct (assoc es c) as [n'|]; [|discriminate Hn]. injection Hn as ->.
        apply (lookup_leaf _ _ _ Hleaf) in Hq. subst q. contradiction.
      * destruct (assoc es k) as [m0|]; [|discriminate Hq].
        exists m. split; [exact Hq|apply same_kind_refl].
  - simpl in Hn. destruct a as [l|l t|l es]; try discriminate Hn. simpl.
    destruct (assoc es k0) as [m0|] eqn:E0; [|discriminate Hn].
    destruct q as [|k q].
    + simpl in Hq. injection Hq as <-. eexists; split; reflexivity.
    + simpl in Hq |- *. rewrite assoc_alter_assoc.
      destruct (name_eqb k k0) eqn:E.
      * apply name_eqb_eq in E; subst k. rewrite E0 in Hq |- *.
        eapply IH; try eassumption. intros ->. apply Hne. reflexivity.
      * destruct (assoc es k) as [m1|]; [|discriminate Hq].
        exists m. split; [exact Hq|apply same_kind_refl].
Qed.

(** Off the line of its ancestors nothing changes at all. *)
Lemma lookup_alter_entry_frame rd c :
  forall a n q,
    lookup a (rd ++ [c]) = Some n -> is_Dir (Some n) = false ->
    (forall s, rd ++ [c] <> q ++ s) ->
    lookup (alter_entry (fun _ => None) rd c a) q = lookup a q.
Proof.
  unfold alter_entry. induction rd as [|k0 rd IH]; intros a n q Hn Hleaf Hq.
  - simpl in Hn. destruct a as [l|l t|l es]; try discriminate Hn. simpl.
    destruct q as [|k q]; [exfalso; apply (Hq [c]); reflexivity|].
    simpl. rewrite assoc_alter_assoc.
    destruct (name_eqb k c) eqn:E; [|reflexivity].
    apply name_eqb_eq in E; subst k.
    destruct (assoc es c) as [n'|]; [|reflexivity]. injection Hn as ->.
    destruct q as [|k' q]; [exfalso; apply (Hq []); reflexivity|].
    destruct n; simpl in *; try discriminate; reflexivity.
  - simpl in Hn. destruct a as [l|l t|l es]; try discriminate Hn. simpl.
    destruct (assoc es k0) as [m0|] eqn:E0; [|discriminate Hn].
    destruct q as [|k q]; [exfalso; apply (Hq (k0 :: rd ++ [c])); reflexivity|].
    simpl. rewrite assoc_alter_assoc.
    destruct (name_eqb k k0) eqn:E; [|reflexivity].
    apply name_eqb_eq in E; subst k. rewrite E0.
    eapply IH; try eassumption. intros s Hs. apply (Hq s). simpl. f_equal. exact Hs.
Qed.

(** [safe_rm] on a file or a link that can be removed takes away its entry. *)
Lemma safe_rm_state_leaf env p verbose st d c n :
  absolute (getcwd env) p = d ++ [c] ->
  name_eqb c dot = false -> name_eqb c dotdot = false ->
  path_exists (getcwd env) (fs st) p = true ->
  lstat (getcwd env) (fs st) p = Some n ->
  is_Dir (Some n) = false -> node_locked n = false ->
  exists rd,
    locate (getcwd env) (fs st) p = Some (rd, c) /\
    lookup (fs st) (rd ++ [c]) = Some n /\
    fs (safe_rm_state env p false verbose st)
    = alter_entry (fun _ => None) rd c (fs st).
Proof.
  intros Ha Hd Hdd He Hl Hleaf Hlock.
  destruct (locate_of_exists _ _ _ _ _ Ha Hd Hdd He) as (rd & Hloc & Er & Hne).
  exists rd. split; [exact Hloc|].
  assert (En : lookup (fs st) (rd ++ [c]) = Some n).
  { unfold lstat in Hl. rewrite Hloc in Hl. exact Hl. }
  split; [exact En|].
  assert (Hunlink : unlink_fs env p (fs st)
                    = Ok (alter_entry (fun _ => None) rd c (fs st))).
  { unfold unlink_fs. rewrite Hloc, En.
    destruct n as [l|l t|l es]; try discriminate Hleaf; simpl in Hlock; subst l;
      reflexivity. }
  unfold safe_rm_state. cbv zeta. rewrite He. cbn [negb].
  destruct n as [l|l t|l es]; try discriminate Hleaf.
  - assert (Hstat : stat (getcwd env) (fs st) p = Some (File l)).
    { unfold stat. rewrite Ha.
      rewrite (realpath_from_snoc_strict _ _ _ Hd Hdd _ _ _ _ Er En eq_refl). exact En. }
    unfold path_is_dir. rewrite Hstat. cbn [is_Dir andb].
    rewrite Hunlink. apply fs_report_removed.
  - unfold path_is_symlink. rewrite Hl. cbn [is_Link negb].
    rewrite andb_false_r, Hunlink. apply fs_report_removed.
Qed.

Lemma safe_rm_missing env p dry_run verbose st :
  path_exists (getcwd env) (fs st) p = false ->
  safe_rm env p dry_run verbose st = (Ok tt, called p st).
Proof.
  intros He. rewrite safe_rm_run. unfold safe_rm_state. cbv zeta. rewrite He. reflexivity.
Qed.

Lemma rm_calls_safe_rm env p dry_run verbose st :
  rm_calls (snd (safe_rm env p dry_run verbose st)) = rm_calls st ++ [p].
Proof.
  destruct (calls_only_safe_rm (fun _ => True) env p dry_run verbose I st) as (new & E & _).
  rewrite safe_rm_run in *. cbn [snd] in *. unfold safe_rm_state. cbv zeta.
  destruct (path_exists (getcwd env) (fs st) p); cbn [negb]; [|reflexivity].
  destruct dry_run; [reflexivity|].
  destruct (path_is_dir (getcwd env) (fs st) p
            && negb (path_is_symlink (getcwd env) (fs st) p));
    [destruct verbose; reflexivity|].
  destruct (unlink_fs env p (fs st)) as [fs'|e]; [destruct verbose; reflexivity|].
  destruct (kind e); destruct verbose; reflexivity.
Qed.

Lemma rm_calls_for_each_safe_rm env dry_run verbose (l : list Path) :
  forall st,
    rm_calls (snd (for_each l (fun p => safe_rm env p dry_run verbose) st))
    = rm_calls st ++ l.
Proof.
  induction l as [|p l IH]; intros st; simpl; [symmetry; apply app_nil_r|].
  unfold bind. pose proof (rm_calls_safe_rm env p dry_run verbose st) as E.
  rewrite safe_rm_run in *. cbn [snd] in E. rewrite IH, E, <- app_assoc. reflexivity.
Qed.

(** Where no path of the form of the patterns exists, [glob_and_remove]
    removes nothing and prints nothing. *)
Lemma glob_and_remove_nothing env base dry_run verbose (patterns : list pattern) :
  forall st,
    (forall pat p, In pat patterns -> fits base pat p ->
                   path_exists (getcwd env) (fs st) p = false) ->
    exists st',
      glob_and_remove env base patterns dry_run verbose st = (Ok tt, st') /\
      fs st' = fs st /\ stdout st' = stdout st.
Proof.
  unfold glob_and_remove.
  assert (Hhits : forall (hits : list Path) st,
             (forall p, In p hits -> path_exists (getcwd env) (fs st) p = false) ->
             exists st', for_each hits (fun hit => safe_rm env hit dry_run verbose) st
                         = (Ok tt, st') /\ fs st' = fs st /\ stdout st' = stdout st).
  { induction hits as [|h hits IH]; intros st H.
    - exists st. auto.
    - simpl. unfold bind. rewrite safe_rm_missing by (apply H; left; reflexivity).
      destruct (IH (called h st)) as (st' & E & F & O).
      { intros p Hp. apply H. right; exact Hp. }
      exists st'. auto. }
  induction patterns as [|pat rest IH]; intros st H; [exists st; auto|].
  simpl. unfold bind at 1 2. unfold glob_glob at 1.
  destruct (Hhits (glob_hits env base pat (fs st)) st) as (st1 & E & F & O).
  { intros p Hp. apply (H pat); [left; reflexivity|].
    apply (yields_glob_glob env base pat st _ st eq_refl). exact Hp. }
  rewrite E. destruct (IH st1) as (st' & E' & F' & O').
  { intros q p Hq Hfit. rewrite F. apply (H q); [right; exact Hq|exact Hfit]. }
  exists st'. rewrite F', O'. auto.
Qed.

Lemma descendant_joinparts (root : Path) (cs : list name) (d : name) :
  descendant (joinparts root (cs ++ [d])) root.
Proof.
  split; [reflexivity|]. simpl.
  destruct cs as [|c cs]; [exists d, []|exists c, (cs ++ [d])]; reflexivity.
Qed.

Lemma descendant_joinpath (p q : Path) (k : name) :
  descendant p q -> descendant (p // k) q.
Proof.
  intros [Ha (x & rest & E)]. split; [exact Ha|].
  exists x, (rest ++ [k]). simpl. rewrite E, <- app_assoc. reflexivity.
Qed.

Lemma descendant_child (q : Path) (k : name) : descendant (q // k) q.
Proof. split; [reflexivity|]. exists k, []. reflexivity. Qed.

Lemma fits_descendant base pat p : fits base pat p -> descendant p base.
Proof.
  intros (k & -> & _). split; [reflexivity|]. simpl.
  destruct (pat_dir pat) as [|c cs] eqn:E.
  - exists k, []. rewrite app_nil_r. reflexivity.
  - exists c, (cs ++ [k]). rewrite <- app_assoc. reflexivity.
Qed.

Lemma yields_Path_glob_star env p :
  yields (fun hits => forall q, In q hits -> exists k, q = p // k) (Path_glob_star env p).
Proof.
  intros st hits st' E q Hq. unfold Path_glob_star in E. injection E as <- _.
  apply in_map_iff in Hq as (k & <- & _). exists k. reflexivity.
Qed.

(** The calls of the user-level tier. *)
Lemma calls_only_user_level_prune_scope env args :
  calls_only (fun p => descendant p (arg_gradle_user_home args)
                       \/ p = arg_xdg_cache_home args // #"gradle")
    (user_level_prune env args).
Proof.
  unfold user_level_prune.
  apply calls_only_seq.
  { apply calls_only_quiet. intros st. rewrite confirm_under_home_run. reflexivity. }
  intros ok. destruct ok; cbn [negb]; [|calls_quiet].
  unfold prune_user_caches.
  apply calls_only_seq; [calls_quiet|]. intros _.
  apply calls_only_seq.
  { apply calls_only_for_each. intros sub _. apply calls_only_safe_rm.
    left. apply descendant_child. }
  intros _. apply calls_only_seq.
  { eapply calls_only_weaken; [|apply calls_only_glob_and_remove].
    intros p (pat & _ & Hfit). left. eapply fits_descendant; eassumption. }
  intros _. apply calls_only_seq; [calls_quiet|].
  intros there. apply calls_only_seq.
  { apply calls_only_when.
    eapply calls_only_bind; [calls_quiet|apply yields_Path_glob_star|].
    intros subdirs Hsub. apply calls_only_for_each. intros subdir Hin.
    apply calls_only_seq; [calls_quiet|].
    intros is_dir. apply calls_only_when. apply calls_only_safe_rm.
    left. destruct (Hsub subdir Hin) as (k & ->).
    apply descendant_joinpath, descendant_joinpath, descendant_child. }
  intros _. apply calls_only_seq; [calls_quiet|].
  intros there'. apply calls_only_seq.
  { apply calls_only_when. apply calls_only_safe_rm. right. reflexivity. }
  intros _. apply calls_only_when.
  apply calls_only_seq; [calls_quiet|]. intros _.
  eapply calls_only_weaken; [|apply calls_only_glob_and_remove].
  intros p (pat & _ & Hfit). left. eapply fits_descendant; eassumption.
Qed.

Lemma calls_only_remove_konan env args :
  calls_only (fun p => p = Path_home env // #".konan") (remove_konan env args).
Proof.
  unfold remove_konan. apply calls_only_when.
  apply calls_only_seq.
  { apply calls_only_quiet. intros st. rewrite confirm_under_home_run. reflexivity. }
  intros ok. destruct ok; [|calls_quiet].
  apply calls_only_seq; [calls_quiet|]. intros _.
  apply calls_only_safe_rm. reflexivity.
Qed.

Lemma artifact_plain (k : name) :
  artifact k = true -> name_eqb k dot = false /\ name_eqb k dotdot = false.
Proof.
  intros H. apply name_in_In in H. simpl in H.
  destruct H as [<-|[<-|[]]]; split; reflexivity.
Qed.

Lemma only_removes_remove_project_local env args :
  arg_dry_run args = false -> only_removes (remove_project_local env args).
Proof.
  intros Hdry. unfold remove_project_local. rewrite Hdry.
  apply only_removes_bind; [only_removes_read|]. intros _.
  eapply only_removes_bind_yields;
    [only_removes_read|apply yields_find_project_dirs|].
  intros targets Ht. apply only_removes_for_each. intros pth Hin.
  apply only_removes_safe_rm.
  destruct (Ht pth Hin) as (k & [d E] & Ha). destruct (artifact_plain k Ha).
  exists d, k. auto.
Qed.

(** Without a Gradle to run, the first two steps only print. *)
Lemma before_project_local_no_gradle env args st :
  path_exists (getcwd env) (fs st) (arg_gradlew args) = false ->
  which env "gradle" = None ->
  fs (snd (before_project_local env args st)) = fs st.
Proof.
  intros Hg Hw. unfold before_project_local, bind.
  destruct (returns_print_banner env args st) as ([] & s1 & E1).
  assert (F1 : fs s1 = fs st).
  { assert (K : keeps_fs (print_banner env args)) by (unfold print_banner; keeps_fs_auto).
    specialize (K st). rewrite E1 in K. exact K. }
  rewrite E1. unfold stop_daemons, clean_build_cache, bind, Path_exists.
  rewrite F1, Hg, Hw. simpl. rewrite F1, Hg. reflexivity.
Qed.

Lemma confirm_true_under env p h st :
  fst (confirm_under_home env p h st) = Ok true ->
  under_home (getcwd env) (fs st) p h = true.
Proof. rewrite confirm_under_home_run. simpl. intros H; injection H as ->. reflexivity. Qed.

Module GuardOrder.

(** X1.  The guard is a strict order: what is under a directory that is
    under [c] is under [c], and of two paths at most one is under the
    other. *)
Theorem confirm_under_home_strict_order (env : Env) (st : state) (a b c : Path) :
  (fst (confirm_under_home env a b st) = Ok true ->
   fst (confirm_under_home env b c st) = Ok true ->
   fst (confirm_under_home env a c st) = Ok true) /\
  (fst (confirm_under_home env a b st) = Ok true ->
   fst (confirm_under_home env b a st) = Ok false).
Proof.
  split.
  - intros H1 H2. apply confirm_true_under in H1, H2.
    rewrite confirm_under_home_run. simpl.
    rewrite (under_home_trans _ _ _ _ _ H1 H2). reflexivity.
  - intros H. apply confirm_true_under in H.
    rewrite confirm_under_home_run. simpl.
    rewrite (under_home_asym _ _ _ _ H). reflexivity.
Qed.

Lemma confirm_under_home_strict_order_witness :
  let gradle := Sample.u_home // #".gradle" in
  fst (confirm_under_home Sample.world (gradle // #"caches") Sample.u_home Sample.start)
  = Ok true /\
  fst (confirm_under_home Sample.world gradle (gradle // #"caches") Sample.start)
  = Ok false.
Proof.
  intros gradle.
  destruct (confirm_under_home_strict_order Sample.world Sample.start
              (gradle // #"caches") gradle Sample.u_home) as [Ht _].
  destruct (confirm_under_home_strict_order Sample.world Sample.start
              (gradle // #"caches") gradle gradle) as [_ Ha].
  split; [apply Ht; reflexivity|apply Ha; reflexivity].
Defined.

(** X2.  A path whose resolved form has no more components than the
    resolved home is never under it, however its text starts; so the parent
    [h/..] is rejected, and so is what [h/../x] names. *)
Theorem confirm_under_home_rejects_short (env : Env) (st : state) (h : Path) :
  (forall (p : Path) (o r : list name),
      resolve (getcwd env) (fs st) p = Some o ->
      resolve (getcwd env) (fs st) h = Some r ->
      List.length o <= List.length r ->
      confirm_under_home env p h st = (Ok false, st)) /\
  confirm_under_home env (h // dotdot) h st = (Ok false, st) /\
  (forall (x : name) (r : list name),
      resolve (getcwd env) (fs st) h = Some r ->
      name_eqb x dot = false -> name_eqb x dotdot = false ->
      is_Link (lookup (fs st) (removelast r ++ [x])) = false ->
      confirm_under_home env (h // dotdot // x) h st = (Ok false, st)).
Proof.
  split; [|split].
  - intros p o r Ho Hr Hlen. rewrite confirm_under_home_run.
    rewrite (under_home_short _ _ _ _ _ _ Ho Hr Hlen). reflexivity.
  - rewrite confirm_under_home_run. f_equal. f_equal.
    destruct (resolve (getcwd env) (fs st) h) as [r|] eqn:Hr.
    + eapply under_home_short; [rewrite resolve_dotdot, Hr; reflexivity|exact Hr|].
      apply length_removelast.
    + unfold under_home. rewrite resolve_dotdot, Hr. reflexivity.
  - intros x r Hr Hd Hdd L. rewrite confirm_under_home_run. f_equal. f_equal.
    destruct r as [|a r].
    + apply under_home_root, Hr.
    + eapply under_home_short; [|exact Hr|].
      * apply resolve_child; [rewrite resolve_dotdot, Hr; reflexivity| | |]; assumption.
      * rewrite List.length_app. simpl List.length at 2.
        pose proof (length_removelast_lt (a :: r)) as Hlt.
        assert (a :: r <> []) by discriminate. apply Hlt in H. lia.
Qed.

(** [/home/u2] starts with the text of the home [/home/u] and is not under
    it; neither is [/home/u/../etc]. *)
Lemma confirm_under_home_rejects_short_witness :
  confirm_under_home Sample.world (abs_path [#"home"; #"u2"]) Sample.u_home Sample.start
  = (Ok false, Sample.start) /\
  startswith (str (abs_path [#"home"; #"u2"])) (str Sample.u_home) = true /\
  confirm_under_home Sample.world (Sample.u_home // dotdot // #"etc") Sample.u_home
    Sample.start = (Ok false, Sample.start).
Proof.
  destruct (confirm_under_home_rejects_short Sample.world Sample.start Sample.u_home)
    as (Hshort & _ & Hup).
  split; [|split].
  - apply (Hshort _ [#"home"; #"u2"] [#"home"; #"u"]); [reflexivity|reflexivity|].
    simpl. lia.
  - reflexivity.
  - apply (Hup #"etc" [#"home"; #"u"]); reflexivity.
Defined.

(** X3.  What the guard accepts, it accepts with its children: a plain name
    that is no link, below a path that is under the home, is under the
    home. *)
Theorem confirm_under_home_children (env : Env) (st : state) (p h : Path)
  (x : name) (rp : list name) :
  fst (confirm_under_home env p h st) = Ok true ->
  resolve (getcwd env) (fs st) p = Some rp ->
  name_eqb x dot = false -> name_eqb x dotdot = false ->
  is_Link (lookup (fs st) (rp ++ [x])) = false ->
  confirm_under_home env (p // x) h st = (Ok true, st).
Proof.
  intros H Hp Hd Hdd L. apply confirm_true_under in H.
  rewrite confirm_under_home_run.
  rewrite (under_home_child _ _ _ _ _ _ H Hp Hd Hdd L). reflexivity.
Qed.

Lemma confirm_under_home_children_witness :
  confirm_under_home Sample.world (Sample.u_home // #".gradle" // #"daemon")
    Sample.u_home Sample.start = (Ok true, Sample.start).
Proof.
  apply (confirm_under_home_children Sample.world Sample.start
           (Sample.u_home // #".gradle") Sample.u_home #"daemon"
           [#"home"; #"u"; #".gradle"]); reflexivity.
Defined.

End GuardOrder.

Module Leaf.

(** X4.  On a file or a link that can be removed, [safe_rm] takes away that
    one entry: its place is empty afterwards, every other entry is still
    there with its kind, and off the line of the directories above it
    nothing has changed at all.  What a link points to is not removed. *)
Theorem safe_rm_removes_only_the_leaf (env : Env) (p : Path) (verbose : bool)
  (st : state) (n : node) :
  plain_end p ->
  path_exists (getcwd env) (fs st) p = true ->
  lstat (getcwd env) (fs st) p = Some n ->
  is_Dir (Some n) = false -> node_locked n = false ->
  exists rd c,
    locate (getcwd env) (fs st) p = Some (rd, c) /\
    let st' := snd (safe_rm env p false verbose st) in
    lookup (fs st') (rd ++ [c]) = None /\
    (forall q m, lookup (fs st) q = Some m -> q <> rd ++ [c] ->
                 exists m', lookup (fs st') q = Some m' /\ same_kind m' m) /\
    (forall q, (forall s, rd ++ [c] <> q ++ s) ->
               lookup (fs st') q = lookup (fs st) q).
Proof.
  intros Hp He Hl Hleaf Hlock.
  destruct (plain_end_absolute (getcwd env) p Hp) as (d & c & Ha & Hd & Hdd).
  destruct (safe_rm_state_leaf env p verbose st d c n Ha Hd Hdd He Hl Hleaf Hlock)
    as (rd & Hloc & En & Efs).
  exists rd, c. split; [exact Hloc|]. cbv zeta. rewrite safe_rm_run. cbn [snd].
  rewrite Efs. split; [apply lookup_alter_entry_gone|]. split.
  - intros q m Hq Hne. eapply lookup_alter_entry_kept; eassumption.
  - intros q Hq. eapply lookup_alter_entry_frame; eassumption.
Qed.

(** In the sample world [src/main/build] is a link to [/tmp]: [safe_rm]
    removes the link, and [/tmp/cache/gradle/z] is where it was. *)
Lemma safe_rm_removes_only_the_leaf_witness :
  let link := Path_cwd Sample.world // #"src" // #"main" // #"build" in
  let st' := snd (safe_rm Sample.world link false false Sample.start) in
  lookup (fs st') [#"home"; #"u"; #"proj"; #"src"; #"main"; #"build"] = None /\
  lookup (fs st') [#"tmp"; #"cache"; #"gradle"; #"z"] = Some (File false).
Proof.
  intros link st'.
  destruct (safe_rm_removes_only_the_leaf Sample.world link false Sample.start
              (Link false (abs_path [#"tmp"])))
    as (rd & c & Hloc & Hgone & _ & Hframe).
  - exists [#"home"; #"u"; #"proj"; #"src"; #"main"], #"build". repeat split.
  - reflexivity.
  - reflexivity.
  - reflexivity.
  - reflexivity.
  - vm_compute in Hloc. injection Hloc as <- <-. cbv zeta in Hgone, Hframe.
    split; [exact Hgone|]. unfold st'. rewrite Hframe; [reflexivity|].
    intros s Hs. destruct s as [|k0 [|k1 s]]; discriminate Hs.
Defined.

End Leaf.

Module Again.

(** X5.  On a file system where nothing is locked, a second [safe_rm] of the
    same path finds nothing: it removes nothing and prints nothing. *)
Theorem safe_rm_twice (env : Env) (p : Path) (verbose : bool) (st : state) :
  plain_end p -> locked_inside (fs st) = false ->
  let st1 := snd (safe_rm env p false verbose st) in
  path_exists (getcwd env) (fs st1) p = false /\
  safe_rm env p false verbose st1
  = (Ok tt, mkState (fs st1) (stdout st1) (rm_calls st1 ++ [p])).
Proof.
  intros Hp Hu st1.
  destruct (safe_rm_unlocked env p verbose st Hp Hu) as (_ & _ & Hgone).
  fold st1 in Hgone. split; [exact Hgone|].
  rewrite (safe_rm_missing env p false verbose st1 Hgone). reflexivity.
Qed.

Lemma safe_rm_twice_witness :
  let daemon := Sample.u_home // #".gradle" // #"daemon" in
  let st1 := snd (safe_rm Sample.world daemon false true Sample.start_unlocked) in
  path_exists (getcwd Sample.world) Sample.disk_unlocked daemon = true /\
  path_exists (getcwd Sample.world) (fs st1) daemon = false /\
  stdout (snd (safe_rm Sample.world daemon false true st1)) = stdout st1.
Proof.
  intros daemon st1.
  destruct (safe_rm_twice Sample.world daemon true Sample.start_unlocked)
    as [Hgone Hagain].
  - exists [#"home"; #"u"; #".gradle"], #"daemon". repeat split.
  - reflexivity.
  - cbv zeta in Hgone, Hagain. split; [reflexivity|]. split; [exact Hgone|].
    unfold st1. rewrite Hagain. reflexivity.
Defined.

(** X6.  For a base directory whose path holds none of the wildcard
    characters of [glob], and patterns with no wildcard but a star at the
    end: every path that [glob_and_remove] hands to [safe_rm] lies below
    the base directory and has the form of one of the patterns.  Where
    nothing is locked, no path of such a form exists afterwards, and a
    second [glob_and_remove] removes nothing and prints nothing. *)
Theorem glob_and_remove_clears (env : Env) (base : Path) (verbose : bool)
  (patterns : list pattern) (st : state) :
  has_magic (str base) = false ->
  (forall pat, In pat patterns -> star_only pat = true) ->
  (exists new,
      rm_calls (snd (glob_and_remove env base patterns false verbose st))
      = rm_calls st ++ new /\
      forall p, In p new ->
                descendant p base /\ exists pat, In pat patterns /\ fits base pat p) /\
  ((forall pat, In pat patterns -> plain_pattern pat) ->
   locked_inside (fs st) = false ->
   exists st',
     glob_and_remove env base patterns false verbose st = (Ok tt, st') /\
     (forall pat p, In pat patterns -> fits base pat p ->
                    path_exists (getcwd env) (fs st') p = false) /\
     exists st'',
       glob_and_remove env base patterns false verbose st' = (Ok tt, st'') /\
       fs st'' = fs st' /\ stdout st'' = stdout st').
Proof.
  intros _ _. split.
  - destruct (calls_only_glob_and_remove env base patterns false verbose st)
      as (new & E & F).
    exists new. split; [exact E|]. intros p Hp. rewrite Forall_forall in F.
    destruct (F p Hp) as (pat & Hpat & Hfit).
    split; [eapply fits_descendant; eassumption|exists pat; auto].
  - intros Hpl Hu.
    destruct (glob_and_remove_unlocked env base verbose patterns Hpl st Hu)
      as (st' & E & _ & _ & G).
    exists st'. split; [exact E|]. split; [exact G|].
    apply glob_and_remove_nothing. exact G.
Qed.

Lemma glob_and_remove_clears_witness :
  let gradle := Sample.u_home // #".gradle" in
  let st' := snd (glob_and_remove Sample.world gradle aggressive_patterns false false
                    Sample.start_unlocked) in
  path_exists (getcwd Sample.world) Sample.disk_unlocked (gradle // #"caches" // #"jars-9")
  = true /\
  path_exists (getcwd Sample.world) (fs st') (gradle // #"caches" // #"jars-9") = false /\
  fs (snd (glob_and_remove Sample.world gradle aggressive_patterns false false st'))
  = fs st'.
Proof.
  intros gradle st'.
  destruct (glob_and_remove_clears Sample.world gradle false aggressive_patterns
              Sample.start_unlocked) as [_ H].
  { reflexivity. }
  { intros pat [<-|[<-|[<-|[<-|[]]]]]; reflexivity. }
  destruct H as (st1 & E & G & st2 & E2 & F2 & _).
  - intros pat Hpat. apply plain_patterns_of_script. right; exact Hpat.
  - reflexivity.
  - assert (Es : st' = st1) by (unfold st'; rewrite E; reflexivity).
    rewrite Es. split; [reflexivity|]. split.
    + apply (G (mkPattern [#"caches"] (Star "jars-"))).
      * right; left; reflexivity.
      * exists #"jars-9". split; reflexivity.
    + rewrite E2. exact F2.
Defined.

End Again.

Module Reach.

(** X7.  Step 3 calls [safe_rm] once for each path of the scanner's list, in
    its order, whether it is a dry run or not; the list is made before
    anything is removed, and each of its paths lies strictly below the
    working directory. *)
Theorem project_local_calls (env : Env) (args : Args) (st : state) :
  exists targets,
    find_project_dirs_to_remove env (Path_cwd env) st = (Ok targets, st) /\
    rm_calls (snd (remove_project_local env args st)) = rm_calls st ++ targets /\
    forall p, In p targets -> descendant p (Path_cwd env).
Proof.
  eexists. split; [apply find_project_dirs_to_remove_run|]. split.
  - unfold remove_project_local, bind, print, find_project_dirs_to_remove.
    cbn [fs stdout rm_calls]. rewrite rm_calls_for_each_safe_rm. reflexivity.
  - intros p Hp.
    destruct (find_project_dirs_iff env (Path_cwd env) st _ _
                (find_project_dirs_to_remove_run env (Path_cwd env) st)) as [_ Hiff].
    apply Hiff, artifact_under_shape in Hp as (cs & d & -> & _ & _).
    apply descendant_joinparts.
Qed.

Lemma project_local_calls_witness :
  let root := Path_cwd Sample.world in
  let real := Sample.options (Sample.u_home // #".gradle") (abs_path [#"tmp"]) false false in
  let dry := Sample.options (Sample.u_home // #".gradle") (abs_path [#"tmp"]) true false in
  rm_calls (snd (remove_project_local Sample.world real Sample.start))
  = [root // #"build"; root // #"src" // #"build"; root // #"src" // #"main" // #"build"] /\
  rm_calls (snd (remove_project_local Sample.world dry Sample.start))
  = rm_calls (snd (remove_project_local Sample.world real Sample.start)) /\
  descendant (root // #"src" // #"build") root.
Proof.
  intros root real dry.
  destruct (project_local_calls Sample.world real Sample.start) as (t & E & C & D).
  destruct (project_local_calls Sample.world dry Sample.start) as (t' & E' & C' & _).
  rewrite E in E'. injection E' as <-.
  vm_compute in E. injection E as <-.
  split; [exact C|]. split; [rewrite C, C'; reflexivity|].
  apply D. right; left; reflexivity.
Defined.

(** X8.  For a Gradle user home whose path holds none of the wildcard
    characters of [glob], every path that the user-level tier hands to
    [safe_rm] lies strictly below the Gradle user home, the one for the XDG
    cache apart; step 6 hands over nothing but [.konan] in the home. *)
Theorem user_level_calls (env : Env) (args : Args) (st : state) :
  (has_magic (str (arg_gradle_user_home args)) = false ->
   exists new,
      rm_calls (snd (user_level_prune env args st)) = rm_calls st ++ new /\
      forall p, In p new ->
                descendant p (arg_gradle_user_home args)
                \/ p = arg_xdg_cache_home args // #"gradle") /\
  (exists new,
      rm_calls (snd (remove_konan env args st)) = rm_calls st ++ new /\
      forall p, In p new -> p = Path_home env // #".konan").
Proof.
  split.
  - intros _.
    destruct (calls_only_user_level_prune_scope env args st) as (new & E & F).
    exists new. split; [exact E|]. apply Forall_forall, F.
  - destruct (calls_only_remove_konan env args st) as (new & E & F).
    exists new. split; [exact E|]. apply Forall_forall, F.
Qed.

Lemma user_level_calls_witness :
  Forall (fun p => descendant p (Sample.u_home // #".gradle")
                   \/ p = abs_path [#"tmp"; #"cache"; #"gradle"])
    (rm_calls (snd (user_level_prune Sample.world
                      (Sample.options (Sample.u_home // #".gradle")
                         (abs_path [#"tmp"; #"cache"]) false true)
                      Sample.start))).
Proof.
  destruct (user_level_calls Sample.world
              (Sample.options (Sample.u_home // #".gradle")
                 (abs_path [#"tmp"; #"cache"]) false true)
              Sample.start) as [H _].
  destruct (H eq_refl) as (new & E & F).
  rewrite E. apply Forall_forall. exact F.
Defined.

(** X9.  With no Gradle to run and nothing locked, a run only takes
    entries away: every entry of the file system after it was there before
    it, with the same kind. *)
Theorem run_only_removes (env : Env) (args : Args) (st : state) :
  arg_dry_run args = false ->
  path_exists (getcwd env) (fs st) (arg_gradlew args) = false ->
  which env "gradle" = None ->
  locked_inside (fs st) = false ->
  forall q n',
    lookup (fs (snd (main env (CmdArgs args) st))) q = Some n' ->
    exists n, lookup (fs st) q = Some n /\ same_kind n' n.
Proof.
  intros Hdry Hg Hw Hu. simpl main. rewrite run_args_split. cbv zeta.
  pose proof (before_project_local_no_gradle env args st Hg Hw) as F2.
  set (st2 := snd (before_project_local env args st)) in *.
  assert (Hu2 : locked_inside (fs st2) = false) by (rewrite F2; exact Hu).
  destruct (only_removes_remove_project_local env args Hdry st2 Hu2) as [Hu3 S3].
  set (st3 := snd (remove_project_local env args st2)) in *.
  destruct (only_removes_user_level_prune env args Hdry st3 Hu3) as [Hu4 S4].
  set (st4 := snd (user_level_prune env args st3)) in *.
  destruct (only_removes_after_user_level env args Hdry st4 Hu4) as [_ S5].
  rewrite <- F2.
  exact (shrinks_trans _ _ _ S5 (shrinks_trans _ _ _ S4 S3)).
Qed.

Lemma run_only_removes_witness :
  exists n' n,
    lookup (fs (snd (main Sample.world
                       (CmdArgs (Sample.options (Sample.u_home // #".gradle")
                                   (abs_path [#"tmp"; #"cache"]) false true))
                       Sample.start_unlocked)))
      [#"home"; #"u"; #".gradle"; #"caches"] = Some n' /\
    lookup Sample.disk_unlocked [#"home"; #"u"; #".gradle"; #"caches"] = Some n /\
    same_kind n' n.
Proof.
  destruct (lookup (fs (snd (main Sample.world
                       (CmdArgs (Sample.options (Sample.u_home // #".gradle")
                                   (abs_path [#"tmp"; #"cache"]) false true))
                       Sample.start_unlocked)))
      [#"home"; #"u"; #".gradle"; #"caches"]) as [n'|] eqn:E.
  - exists n'.
    destruct (run_only_removes Sample.world
                (Sample.options (Sample.u_home // #".gradle")
                   (abs_path [#"tmp"; #"cache"]) false true)
                Sample.start_unlocked eq_refl eq_refl eq_refl eq_refl
                [#"home"; #"u"; #".gradle"; #"caches"] n' E) as (n & Hn & Hk).
    exists n. split; [reflexivity|]. split; [exact Hn | exact Hk].
  - exfalso. vm_compute in E. discriminate E.
Defined.

End Reach.

(** ** What the scanner returns is a directory *)

Lemma tidy_cons l k c tl :
  tidy (Dir l ((k, c) :: tl))
  = negb (name_eqb k dot) && negb (name_eqb k dotdot)
    && negb (name_in k (map fst tl)) && tidy c && tidy (Dir l tl).
Proof. reflexivity. Qed.

(** In a tidy directory an entry is the one that its name leads to. *)
Lemma tidy_entry l es k c :
  tidy (Dir l es) = true -> In (k, c) es ->
  assoc es k = Some c /\ name_eqb k dot = false /\ name_eqb k dotdot = false
  /\ tidy c = true.
Proof.
  induction es as [|[k' c'] tl IH]; intros Ht Hin; [destruct Hin|].
  rewrite tidy_cons in Ht.
  apply andb_prop in Ht as [Ht Htl]. apply andb_prop in Ht as [Ht Hc].
  apply andb_prop in Ht as [Ht Hn]. apply andb_prop in Ht as [Hd Hdd].
  apply negb_true_iff in Hd, Hdd, Hn.
  destruct Hin as [E | Hin].
  - injection E as -> ->. simpl. rewrite name_eqb_refl. auto.
  - simpl. destruct (name_eqb k k') eqn:E.
    + exfalso. apply name_eqb_eq in E. subst k'.
      assert (H : name_in k (map fst tl) = true).
      { apply name_in_In. apply in_map_iff. exists (k, c). split; [reflexivity | exact Hin]. }
      congruence.
    + apply IH; assumption.
Qed.

Lemma tidy_lookup a : forall p n, tidy a = true -> lookup a p = Some n -> tidy n = true.
Proof.
  induction a as [l|l t|l es IH] using node_tree_ind; intros p n Ht H.
  - destruct p; simpl in H; [injection H as <-; exact Ht | discriminate H].
  - destruct p; simpl in H; [injection H as <-; exact Ht | discriminate H].
  - destruct p as [|c p]; simpl in H; [injection H as <-; exact Ht|].
    destruct (assoc es c) as [m|] eqn:E; [|discriminate H].
    assert (Hin : In (c, m) es).
    { clear - E. induction es as [|[k' n'] es IHes]; simpl in E; [discriminate|].
      destruct (name_eqb c k') eqn:Ek.
      - injection E as ->. apply name_eqb_eq in Ek. subst k'. left. reflexivity.
      - right. apply IHes, E. }
    rewrite Forall_forall in IH.
    apply (IH (c, m) Hin p n); [|exact H].
    apply (tidy_entry l es c m Ht Hin).
Qed.

(** The child of a resolved directory, by its name. *)
Lemma stat_child env fs0 (cur : Path) (r : list name) l es k c :
  realpath_from fs0 true MAXSYMLINKS [] (absolute (getcwd env) cur) = Some r ->
  lookup fs0 r = Some (Dir l es) ->
  assoc es k = Some c -> name_eqb k dot = false -> name_eqb k dotdot = false ->
  is_Link (Some c) = false ->
  realpath_from fs0 true MAXSYMLINKS [] (absolute (getcwd env) (cur // k))
  = Some (r ++ [k])
  /\ lookup fs0 (r ++ [k]) = Some c.
Proof.
  intros Hr Hl Ha Hd Hdd HL.
  assert (Hc : lookup fs0 (r ++ [k]) = Some c).
  { rewrite lookup_app, Hl. simpl. rewrite Ha. reflexivity. }
  split; [|exact Hc].
  rewrite absolute_joinpath.
  apply (realpath_from_snoc_strict fs0 MAXSYMLINKS k Hd Hdd _ _ r c Hr Hc HL).
Qed.

Lemma artifact_at_is_dir env fs0 cur n p :
  artifact_at env fs0 cur n p ->
  forall r,
    realpath_from fs0 true MAXSYMLINKS [] (absolute (getcwd env) cur) = Some r ->
    lookup fs0 r = Some n -> tidy n = true ->
    path_is_dir (getcwd env) fs0 p = true.
Proof.
  induction 1 as [cur l es k c Hin Hd Ha | cur l es k l' es' p Hin Hp Hb IH];
    intros r Hr Hl Ht.
  - destruct (tidy_entry l es k c Ht Hin) as (Hk & Hdot & Hdd & _).
    destruct c as [lc|lc t|lc ec]; unfold entry_is_dir in Hd; simpl in Hd.
    + discriminate Hd.
    + exact Hd.
    + destruct (stat_child env fs0 cur r l es k (Dir lc ec) Hr Hl Hk Hdot Hdd eq_refl)
        as [H1 H2].
      unfold path_is_dir, stat. rewrite H1, H2. reflexivity.
  - destruct (tidy_entry l es k (Dir l' es') Ht Hin) as (Hk & Hdot & Hdd & Htc).
    destruct (stat_child env fs0 cur r l es k (Dir l' es') Hr Hl Hk Hdot Hdd eq_refl)
      as [H1 H2].
    apply (IH (r ++ [k]) H1 H2 Htc).
Qed.

Module Targets.

(** X11.  On a tidy tree (no name twice in a directory, no entry called
    ["."] or [".."]) every path that [find_project_dirs_to_remove] returns
    is a directory, or a link that leads to one, when it is returned: a
    regular file called [build] or [.gradle] is never in the list. *)
Theorem find_project_dirs_are_directories (env : Env) (root : Path) (st st' : state)
  (targets : list Path) :
  tidy (fs st) = true ->
  find_project_dirs_to_remove env root st = (Ok targets, st') ->
  forall p, In p targets ->
            path_is_dir (getcwd env) (fs st) p = true
            /\ exists n, stat (getcwd env) (fs st) p = Some n
                         /\ n <> File true /\ n <> File false.
Proof.
  intros Ht E p Hin.
  assert (Hd : path_is_dir (getcwd env) (fs st) p = true).
  { destruct (find_project_dirs_iff env root st targets st' E) as [_ Hiff].
    apply Hiff in Hin. destruct Hin as (n & Hs & Ha).
    unfold stat in Hs.
    destruct (realpath_from (fs st) true MAXSYMLINKS [] (absolute (getcwd env) root))
      as [r|] eqn:Hr; [|discriminate Hs].
    apply (artifact_at_is_dir env (fs st) root n p Ha r Hr Hs).
    apply (tidy_lookup (fs st) r n Ht Hs). }
  split; [exact Hd|].
  unfold path_is_dir in Hd.
  destruct (stat (getcwd env) (fs st) p) as [[l|l t|l es]|]; try discriminate Hd.
  exists (Dir l es). split; [reflexivity|]. split; discriminate.
Qed.

Lemma find_project_dirs_are_directories_witness :
  Forall (fun p => path_is_dir (getcwd Sample.world) Sample.disk p = true)
    [Path_cwd Sample.world // #"build";
     Path_cwd Sample.world // #"src" // #"build";
     Path_cwd Sample.world // #"src" // #"main" // #"build"].
Proof.
  apply Forall_forall. intros p Hp.
  apply (find_project_dirs_are_directories Sample.world (Path_cwd Sample.world)
           Sample.start Sample.start _ eq_refl eq_refl p Hp).
Defined.

End Targets.

(** * Removals on a file system where something is locked *)

(** ** Places *)

Lemma prefixb_nil_r a : prefixb a [] = true -> a = [].
Proof. destruct a; [reflexivity|discriminate]. Qed.

Lemma related_sym a b : related a b = related b a.
Proof. unfold related. apply orb_comm. Qed.

Lemma related_cons x a y b :
  related (x :: a) (y :: b) = name_eqb x y && related a b.
Proof.
  unfold related. simpl. rewrite (name_eqb_sym y x).
  destruct (name_eqb x y); reflexivity.
Qed.

Lemma related_nil_l b : related [] b = true.
Proof. reflexivity. Qed.

Lemma related_nil_r a : related a [] = true.
Proof. unfold related. simpl. apply orb_true_r. Qed.

(** Rewriting the node at one place leaves the other places as they are. *)
Lemma lookup_alter_unrelated g :
  forall rd a q, related rd q = false -> lookup (alter g rd a) q = lookup a q.
Proof.
  induction rd as [|c rd IH]; intros a q H; [discriminate H|].
  destruct q as [|k q]; [rewrite related_nil_r in H; discriminate H|].
  rewrite related_cons in H. simpl.
  destruct a as [l|l t|l es]; try reflexivity.
  simpl. rewrite assoc_alter_assoc. rewrite (name_eqb_sym k c).
  destruct (name_eqb c k) eqn:E; [|reflexivity].
  apply name_eqb_eq in E; subst k. simpl in H.
  destruct (assoc es c) as [m|]; [|reflexivity].
  apply IH, H.
Qed.

Lemma lookup_alter_entry_unrelated g c :
  forall rd a q, related (rd ++ [c]) q = false ->
                 lookup (alter_entry g rd c a) q = lookup a q.
Proof.
  unfold alter_entry.
  induction rd as [|x rd IH]; intros a q H.
  - simpl in H |- *. destruct q as [|k q]; [discriminate H|].
    rewrite related_cons in H.
    destruct a as [l|l t|l es]; try reflexivity.
    simpl. rewrite assoc_alter_assoc, (name_eqb_sym k c).
    destruct (name_eqb c k); [|reflexivity].
    simpl in H. rewrite related_nil_l in H. discriminate H.
  - destruct q as [|k q]; [rewrite related_nil_r in H; discriminate H|].
    simpl app in H. rewrite related_cons in H. simpl.
    destruct a as [l|l t|l es]; try reflexivity.
    simpl. rewrite assoc_alter_assoc, (name_eqb_sym k x).
    destruct (name_eqb x k) eqn:E; [|reflexivity].
    apply name_eqb_eq in E; subst k. simpl in H.
    destruct (assoc es x) as [m|]; [|reflexivity].
    apply IH, H.
Qed.

(** ** Tidy trees under removal *)

Lemma assoc_In_entry es k m : assoc es k = Some m -> In (k, m) es.
Proof.
  induction es as [|[k' n'] es IH]; simpl; [discriminate|].
  destruct (name_eqb k k') eqn:E.
  - intros H; injection H as ->. apply name_eqb_eq in E. subst k'. left. reflexivity.
  - intros H. right. apply IH, H.
Qed.

Lemma tidy_assoc l es k m : tidy (Dir l es) = true -> assoc es k = Some m -> tidy m = true.
Proof.
  intros Ht E. apply assoc_In_entry in E. apply (tidy_entry l es k m Ht E).
Qed.

Lemma tidy_cons_inv l k c tl :
  tidy (Dir l ((k, c) :: tl)) = true ->
  negb (name_eqb k dot) && negb (name_eqb k dotdot) = true
  /\ name_in k (map fst tl) = false /\ tidy c = true /\ tidy (Dir l tl) = true.
Proof.
  rewrite tidy_cons. intros Ht.
  apply andb_prop in Ht as [Ht Htl]. apply andb_prop in Ht as [Ht Hc].
  apply andb_prop in Ht as [Ht Hn]. apply negb_true_iff in Hn. auto.
Qed.

Lemma tidy_cons_intro l k c tl :
  negb (name_eqb k dot) && negb (name_eqb k dotdot) = true ->
  name_in k (map fst tl) = false -> tidy c = true -> tidy (Dir l tl) = true ->
  tidy (Dir l ((k, c) :: tl)) = true.
Proof. intros H1 H2 H3 H4. rewrite tidy_cons, H1, H2, H3, H4. reflexivity. Qed.

Lemma name_in_drop_name k c es :
  name_in k (map fst (drop_name c es)) = true -> name_in k (map fst es) = true.
Proof.
  unfold drop_name. induction es as [|[k' n] es IH]; simpl; [auto|].
  destruct (negb (name_eqb c k')); simpl.
  - destruct (name_eqb k k'); simpl; [auto|exact IH].
  - intros H. rewrite (IH H). apply orb_true_r.
Qed.

Lemma tidy_drop_name l c es : tidy (Dir l es) = true -> tidy (Dir l (drop_name c es)) = true.
Proof.
  induction es as [|[k n] es IH]; [auto|].
  intros Ht. apply tidy_cons_inv in Ht as (Ht & Hn & Hc & Htl).
  unfold drop_name. simpl filter. fold (drop_name c es).
  destruct (negb (name_eqb c k)); [|apply IH, Htl].
  apply tidy_cons_intro; auto.
  destruct (name_in k (map fst (drop_name c es))) eqn:E; [|reflexivity].
  apply name_in_drop_name in E. congruence.
Qed.

Lemma name_in_alter_assoc g k c es :
  name_in k (map fst (alter_assoc g c es)) = true -> name_in k (map fst es) = true.
Proof.
  induction es as [|[k' n] es IH]; simpl; [auto|].
  destruct (name_eqb c k').
  - destruct (g n); simpl.
    + auto.
    + intros H. rewrite (name_in_drop_name _ _ _ H). apply orb_true_r.
  - simpl. destruct (name_eqb k k'); simpl; [auto|exact IH].
Qed.

Lemma tidy_alter_assoc g l c es :
  (forall m m', assoc es c = Some m -> g m = Some m' -> tidy m' = true) ->
  tidy (Dir l es) = true -> tidy (Dir l (alter_assoc g c es)) = true.
Proof.
  induction es as [|[k n] es IH]; intros Hg; [auto|].
  intros Ht. apply tidy_cons_inv in Ht as (Ht & Hn & Hc & Htl).
  simpl alter_assoc. simpl in Hg. destruct (name_eqb c k) eqn:E.
  - destruct (g n) as [n'|] eqn:Eg.
    + apply tidy_cons_intro; auto. apply (Hg n n' eq_refl Eg).
    + apply tidy_drop_name, Htl.
  - apply tidy_cons_intro; auto.
    destruct (name_in k (map fst (alter_assoc g c es))) eqn:E'; [|reflexivity].
    apply name_in_alter_assoc in E'. congruence.
Qed.

Lemma tidy_alter g :
  (forall m, tidy m = true -> tidy (g m) = true) ->
  forall rd a, tidy a = true -> tidy (alter g rd a) = true.
Proof.
  intros Hg. induction rd as [|c rd IH]; intros a Ha; simpl; [auto|].
  destruct a as [l|l t|l es]; try exact Ha.
  apply tidy_alter_assoc; [|exact Ha].
  intros m m' Em E. injection E as <-. apply IH. eapply tidy_assoc; eassumption.
Qed.

Lemma tidy_alter_entry g rd c a :
  (forall m m', tidy m = true -> g m = Some m' -> tidy m' = true) ->
  tidy a = true -> tidy (alter_entry g rd c a) = true.
Proof.
  intros Hg. unfold alter_entry. apply tidy_alter.
  intros [l|l t|l es] Hm; try exact Hm.
  apply tidy_alter_assoc; [|exact Hm].
  intros m m' Em E. apply (Hg m m'); [|exact E]. eapply tidy_assoc; eassumption.
Qed.

(** ** Trees that wane *)

Lemma wanes_refl a : wanes a a.
Proof.
  intros q n H. exists n. split; [exact H|]. split; [apply same_kind_refl|auto].
Qed.

Lemma wanes_trans a b c : wanes a b -> wanes b c -> wanes a c.
Proof.
  intros Hab Hbc q n H. apply Hab in H as (m & H & K & U).
  apply Hbc in H as (m' & H & K' & U'). exists m'. split; [exact H|].
  split; [eapply same_kind_trans; eassumption|auto].
Qed.

Lemma wanes_shrinks a b : wanes a b -> shrinks a b.
Proof.
  intros W q n H. apply W in H as (m & H & K & _). exists m. auto.
Qed.

Lemma wanes_alter g :
  (forall m, tidy m = true -> wanes (g m) m) ->
  (forall m, locked_inside m = false -> locked_inside (g m) = false) ->
  forall rd a, tidy a = true -> wanes (alter g rd a) a.
Proof.
  intros Hg Hu. induction rd as [|c rd IH]; intros a Ha; simpl; [apply Hg, Ha|].
  destruct a as [l|l t|l es]; try apply wanes_refl.
  intros [|k q] n' H; simpl in H.
  - injection H as <-. eexists; split; [reflexivity|]. split; [reflexivity|].
    intros U. apply (locked_inside_alter g Hu (c :: rd) (Dir l es) U).
  - rewrite assoc_alter_assoc in H. simpl.
    destruct (name_eqb k c) eqn:E.
    + apply name_eqb_eq in E; subst k.
      destruct (assoc es c) as [m|] eqn:Em; [|discriminate H].
      apply (IH m (tidy_assoc _ _ _ _ Ha Em)) in H. exact H.
    + destruct (assoc es k) as [m|]; [|discriminate H].
      apply (wanes_refl m), H.
Qed.

Lemma wanes_alter_entry g rd c a :
  (forall m m', tidy m = true -> g m = Some m' -> wanes m' m) ->
  (forall m m', locked_inside m = false -> g m = Some m' -> locked_inside m' = false) ->
  tidy a = true -> wanes (alter_entry g rd c a) a.
Proof.
  intros Hg Hu. unfold alter_entry. apply wanes_alter.
  - intros [l|l t|l es] Hm; try apply wanes_refl.
    intros [|k q] n' H; simpl in H.
    + injection H as <-. eexists; split; [reflexivity|]. split; [reflexivity|].
      rewrite !locked_inside_Dir. intros U. apply orb_false_iff in U as [-> U].
      simpl. apply any_locked_alter_assoc; assumption.
    + rewrite assoc_alter_assoc in H. simpl.
      destruct (name_eqb k c) eqn:E.
      * apply name_eqb_eq in E; subst k.
        destruct (assoc es c) as [m|] eqn:Em; [|discriminate H].
        destruct (g m) as [m'|] eqn:Eg; [|discriminate H].
        apply (Hg _ _ (tidy_assoc _ _ _ _ Hm Em) Eg) in H. exact H.
      * destruct (assoc es k) as [m|]; [|discriminate H].
        apply (wanes_refl m), H.
  - intros [l|l t|l es] Hm; try exact Hm.
    rewrite locked_inside_Dir in Hm |- *. apply orb_false_iff in Hm as [-> Hm].
    simpl. apply any_locked_alter_assoc; assumption.
Qed.

Lemma rmtree_node_Dir l es :
  rmtree_node (Dir l es)
  = match rmtree_entries es, l with
    | [], false => None
    | es', _ => Some (Dir l es')
    end.
Proof.
  cbn [rmtree_node].
  replace ((fix go (es0 : list (name * node)) : list (name * node) :=
              match es0 with
              | [] => []
              | (k, c) :: tl =>
                  match rmtree_node c with
                  | None => go tl
                  | Some c' => (k, c') :: go tl
                  end
              end) es) with (rmtree_entries es);
    [destruct (rmtree_entries es); destruct l; reflexivity|].
  induction es as [|[k c] tl IH]; [reflexivity|]. simpl. rewrite IH. reflexivity.
Qed.

Lemma rmtree_inside_Dir l es : rmtree_inside (Dir l es) = Dir l (rmtree_entries es).
Proof.
  unfold rmtree_inside. rewrite rmtree_node_Dir.
  destruct (rmtree_entries es); reflexivity.
Qed.

Lemma name_in_rmtree_entries k es :
  name_in k (map fst (rmtree_entries es)) = true -> name_in k (map fst es) = true.
Proof.
  induction es as [|[k' c] tl IH]; simpl; [auto|].
  destruct (rmtree_node c); simpl.
  - destruct (name_eqb k k'); simpl; [auto|exact IH].
  - intros H. rewrite (IH H). apply orb_true_r.
Qed.

Lemma assoc_name_in es k m : assoc es k = Some m -> name_in k (map fst es) = true.
Proof. intros H. apply name_in_In. eapply assoc_In. exact H. Qed.

Lemma assoc_rmtree_entries l es k :
  tidy (Dir l es) = true ->
  assoc (rmtree_entries es) k
  = match assoc es k with
    | Some c => rmtree_node c
    | None => None
    end.
Proof.
  induction es as [|[k' c] tl IH]; [reflexivity|].
  intros Ht. apply tidy_cons_inv in Ht as (Ht & Hn & Hc & Htl).
  simpl. destruct (name_eqb k k') eqn:E.
  - apply name_eqb_eq in E; subst k'.
    destruct (rmtree_node c) as [c'|]; simpl; [rewrite name_eqb_refl; reflexivity|].
    destruct (assoc (rmtree_entries tl) k) as [m|] eqn:Em; [|reflexivity].
    apply assoc_name_in, name_in_rmtree_entries in Em. congruence.
  - destruct (rmtree_node c) as [c'|]; simpl; [rewrite E|]; apply IH, Htl.
Qed.

Lemma rmtree_entries_unlocked es : any_locked es = false -> rmtree_entries es = [].
Proof.
  unfold any_locked. induction es as [|[k c] tl IH]; simpl; [reflexivity|].
  intros H. apply orb_false_iff in H as [Hc Htl].
  apply rmtree_node_None_iff in Hc. rewrite Hc. apply IH, Htl.
Qed.

(** What [rmtree] leaves of a tidy tree is tidy and has waned. *)
Lemma rmtree_wanes n :
  tidy n = true ->
  (forall n', rmtree_node n = Some n' -> tidy n' = true /\ wanes n' n)
  /\ tidy (rmtree_inside n) = true /\ wanes (rmtree_inside n) n.
Proof.
  induction n as [l|l t|l es IH] using node_tree_ind; intros Ht.
  - split; [|split; [exact Ht|apply wanes_refl]].
    intros n'. simpl. destruct l; [|discriminate].
    intros H; injection H as <-. split; [reflexivity|apply wanes_refl].
  - split; [|split; [exact Ht|apply wanes_refl]].
    intros n'. simpl. destruct l; [|discriminate].
    intros H; injection H as <-. split; [reflexivity|apply wanes_refl].
  - assert (T : forall l', tidy (Dir l' (rmtree_entries es)) = true).
    { intros l'. clear - IH Ht. induction es as [|[k c] tl IHtl]; [reflexivity|].
      inversion IH as [|? ? Hc Htl]; subst. simpl in Hc.
      apply tidy_cons_inv in Ht as (Ht & Hn & Hc' & Htl').
      specialize (IHtl Htl Htl').
      cbn [rmtree_entries]. destruct (rmtree_node c) as [c'|] eqn:Ec; [|exact IHtl].
      destruct (Hc Hc') as [Hc1 _].
      apply (tidy_cons_intro l'); auto; [|apply (Hc1 c' eq_refl)].
      destruct (name_in k (map fst (rmtree_entries tl))) eqn:E'; [|reflexivity].
      apply name_in_rmtree_entries in E'. congruence. }
    assert (W : forall q k n', lookup (Dir l (rmtree_entries es)) (k :: q) = Some n' ->
                exists n, lookup (Dir l es) (k :: q) = Some n /\ same_kind n' n
                          /\ (locked_inside n = false -> locked_inside n' = false)).
    { intros q k n' H. simpl in H |- *.
      rewrite (assoc_rmtree_entries l es k Ht) in H.
      destruct (assoc es k) as [c|] eqn:Ec; [|discriminate H].
      destruct (rmtree_node c) as [c'|] eqn:Er; [|discriminate H].
      rewrite Forall_forall in IH.
      destruct (IH (k, c) (assoc_In_entry _ _ _ Ec) (tidy_assoc _ _ _ _ Ht Ec)) as [H1 _].
      destruct (H1 c' Er) as [_ Wc]. apply Wc, H. }
    split; [|split].
    + intros n'. rewrite rmtree_node_Dir. intros H.
      assert (E : n' = Dir l (rmtree_entries es)).
      { destruct (rmtree_entries es), l; congruence. }
      subst n'. split; [apply T|].
      intros [|k q] n' Hq; [|apply W, Hq].
      injection Hq as <-. eexists; split; [reflexivity|]. split; [reflexivity|].
      intros U. exfalso. apply rmtree_node_None_iff in U.
      rewrite rmtree_node_Dir in U. congruence.
    + rewrite rmtree_inside_Dir. apply T.
    + rewrite rmtree_inside_Dir.
      intros [|k q] n' Hq; [|apply W, Hq].
      injection Hq as <-. eexists; split; [reflexivity|]. split; [reflexivity|].
      rewrite !locked_inside_Dir. intros U. apply orb_false_iff in U as [-> U].
      rewrite (rmtree_entries_unlocked _ U). reflexivity.
Qed.

Lemma rmtree_inside_unlocked m :
  locked_inside m = false -> locked_inside (rmtree_inside m) = false.
Proof.
  destruct m as [l|l t|l es]; try (intros H; exact H).
  rewrite rmtree_inside_Dir, !locked_inside_Dir.
  intros U. apply orb_false_iff in U as [-> U].
  rewrite (rmtree_entries_unlocked _ U). reflexivity.
Qed.

Lemma rmtree_node_unlocked m m' :
  locked_inside m = false -> rmtree_node m = Some m' -> locked_inside m' = false.
Proof. intros U E. apply rmtree_node_None_iff in U. congruence. Qed.

(** ** One removal, wherever it is and whatever is locked *)

(** What [rmtree] does to the file system: nothing, or it goes through the
    entry that the path names. *)
Lemma rmtree_fs_cases env p fs0 :
  rmtree_fs env p fs0 = fs0
  \/ (exists rd c, locate (getcwd env) fs0 p = Some (rd, c)
                   /\ rmtree_fs env p fs0 = alter_entry rmtree_node rd c fs0)
  \/ (exists r, locate (getcwd env) fs0 p = None
                /\ realpath_from fs0 true MAXSYMLINKS [] (absolute (getcwd env) p) = Some r
                /\ rmtree_fs env p fs0 = alter rmtree_inside r fs0).
Proof.
  unfold rmtree_fs.
  destruct (lstat (getcwd env) fs0 p) as [[l|l t|l es]|]; auto.
  destruct (locate (getcwd env) fs0 p) as [[rd c]|].
  - right. left. exists rd, c. auto.
  - destruct (realpath_from fs0 true MAXSYMLINKS [] (absolute (getcwd env) p)) as [r|];
      [|auto].
    right. right. exists r. auto.
Qed.

Lemma unlink_fs_cases env p fs0 fs' :
  unlink_fs env p fs0 = Ok fs' ->
  exists rd c, locate (getcwd env) fs0 p = Some (rd, c)
               /\ fs' = alter_entry (fun _ => None) rd c fs0.
Proof.
  unfold unlink_fs. destruct (locate (getcwd env) fs0 p) as [[rd c]|].
  - destruct (lookup fs0 (rd ++ [c])) as [[l|l t|l es]|]; try discriminate;
      destruct l; try discriminate; intros H; injection H as <-; eauto.
  - destruct (path_exists (getcwd env) fs0 p); discriminate.
Qed.

(** The file system after [safe_rm]: as before, or with the entry that the
    path names rewritten. *)
Lemma fs_safe_rm_state env p dry_run verbose st :
  fs (safe_rm_state env p dry_run verbose st) = fs st
  \/ path_exists (getcwd env) (fs st) p = true
     /\ ((exists rd c g, place (getcwd env) (fs st) p = Some (rd ++ [c])
                         /\ (g = rmtree_node \/ g = (fun _ => None))
                         /\ fs (safe_rm_state env p dry_run verbose st)
                            = alter_entry g rd c (fs st))
         \/ (exists r, place (getcwd env) (fs st) p = Some r
                       /\ fs (safe_rm_state env p dry_run verbose st)
                          = alter rmtree_inside r (fs st))).
Proof.
  assert (R : forall st0,
             fs st0 = rmtree_fs env p (fs st) ->
             fs st0 = fs st
             \/ (exists rd c g, place (getcwd env) (fs st) p = Some (rd ++ [c])
                                /\ (g = rmtree_node \/ g = (fun _ => None))
                                /\ fs st0 = alter_entry g rd c (fs st))
             \/ (exists r, place (getcwd env) (fs st) p = Some r
                           /\ fs st0 = alter rmtree_inside r (fs st))).
  { intros st0 ->. unfold place.
    destruct (rmtree_fs_cases env p (fs st))
      as [E | [(rd & c & Hl & E) | (r & Hl & Hr & E)]]; rewrite E, ?Hl.
    - left. reflexivity.
    - right. left. exists rd, c, rmtree_node. auto.
    - right. right. exists r. auto. }
  unfold safe_rm_state. cbv zeta.
  destruct (path_exists (getcwd env) (fs st) p) eqn:He; cbn [negb]; [|left; reflexivity].
  destruct dry_run; [left; reflexivity|].
  destruct (path_is_dir (getcwd env) (fs st) p
            && negb (path_is_symlink (getcwd env) (fs st) p)).
  { rewrite fs_report_removed.
    destruct (R (with_fs (rmtree_fs env p (fs st)) (called p st)) eq_refl) as [E|E];
      [left; exact E|right; split; [reflexivity|exact E]]. }
  destruct (unlink_fs env p (fs st)) as [fs'|e] eqn:Eu.
  { rewrite fs_report_removed. cbn [with_fs fs].
    apply unlink_fs_cases in Eu as (rd & c & Hl & ->).
    right. split; [reflexivity|]. left. exists rd, c, (fun _ => None).
    unfold place. rewrite Hl. auto. }
  destruct (kind e); try (left; reflexivity).
  rewrite fs_report_removed.
  destruct (R (with_fs (rmtree_fs env p (fs st)) (called p st)) eq_refl) as [E|E];
    [left; exact E|right; split; [reflexivity|exact E]].
Qed.

Lemma alter_entry_careful g rd c a :
  (g = rmtree_node \/ g = (fun _ => None)) ->
  tidy a = true ->
  tidy (alter_entry g rd c a) = true /\ wanes (alter_entry g rd c a) a.
Proof.
  intros [-> | ->] Ha; split.
  - apply tidy_alter_entry; [|exact Ha].
    intros m m' Hm E. apply (proj1 (rmtree_wanes m Hm) m' E).
  - apply wanes_alter_entry; [| |exact Ha].
    + intros m m' Hm E. apply (proj1 (rmtree_wanes m Hm) m' E).
    + apply rmtree_node_unlocked.
  - apply tidy_alter_entry; [discriminate|exact Ha].
  - apply wanes_alter_entry; [discriminate|discriminate|exact Ha].
Qed.

Lemma alter_rmtree_inside_careful r a :
  tidy a = true ->
  tidy (alter rmtree_inside r a) = true /\ wanes (alter rmtree_inside r a) a.
Proof.
  intros Ha. split.
  - apply tidy_alter; [|exact Ha]. intros m Hm. apply (rmtree_wanes m Hm).
  - apply wanes_alter; [| |exact Ha].
    + intros m Hm. apply (rmtree_wanes m Hm).
    + apply rmtree_inside_unlocked.
Qed.

(** [safe_rm] on a tidy file system: what is left is tidy and has waned,
    and a place that the path does not touch is as it was. *)
Lemma safe_rm_state_careful env p dry_run verbose st :
  tidy (fs st) = true ->
  tidy (fs (safe_rm_state env p dry_run verbose st)) = true
  /\ wanes (fs (safe_rm_state env p dry_run verbose st)) (fs st)
  /\ forall q, touches (getcwd env) (fs st) p q = false ->
               lookup (fs (safe_rm_state env p dry_run verbose st)) q = lookup (fs st) q.
Proof.
  intros Ht.
  destruct (fs_safe_rm_state env p dry_run verbose st)
    as [E | [He [(rd & c & g & Hp & Hg & E) | (r & Hp & E)]]]; rewrite E.
  - split; [exact Ht|]. split; [apply wanes_refl|reflexivity].
  - destruct (alter_entry_careful g rd c (fs st) Hg Ht) as [T W].
    split; [exact T|]. split; [exact W|].
    intros q Hq. unfold touches in Hq. rewrite He, Hp in Hq.
    apply lookup_alter_entry_unrelated, Hq.
  - destruct (alter_rmtree_inside_careful r (fs st) Ht) as [T W].
    split; [exact T|]. split; [exact W|].
    intros q Hq. unfold touches in Hq. rewrite He, Hp in Hq.
    apply lookup_alter_unrelated, Hq.
Qed.

(** ** What a path touches, on a file system that loses entries *)

Lemma locate_shrinks cwd a b p rd c :
  shrinks a b -> locate cwd a p = Some (rd, c) -> locate cwd b p = Some (rd, c).
Proof.
  intros S. unfold locate.
  destruct (split_last (absolute cwd p)) as [[d c']|]; [|discriminate].
  destruct (name_eqb c' dot || name_eqb c' dotdot); [discriminate|].
  destruct (realpath_from a true MAXSYMLINKS [] d) as [r|] eqn:Er; [|discriminate].
  rewrite (realpath_from_shrinks a b _ S _ _ _ Er).
  destruct (is_Dir (lookup a r)) eqn:Ed; [|discriminate].
  rewrite (shrinks_is_Dir a b r S Ed). auto.
Qed.

Lemma place_shrinks cwd a b p r :
  shrinks a b -> path_exists cwd a p = true ->
  place cwd a p = Some r -> place cwd b p = Some r.
Proof.
  intros S He. unfold place.
  destruct (locate cwd a p) as [[rd c]|] eqn:El.
  - rewrite (locate_shrinks cwd a b p rd c S El). auto.
  - intros Hr. pose proof (realpath_from_shrinks a b _ S _ _ _ Hr) as Hr'.
    destruct (locate cwd b p) as [[rd c]|] eqn:El'; [|exact Hr'].
    exfalso. unfold locate in El, El'.
    destruct (split_last (absolute cwd p)) as [[d c']|] eqn:Es; [|discriminate El'].
    destruct (name_eqb c' dot) eqn:Hd; [discriminate El'|].
    destruct (name_eqb c' dotdot) eqn:Hdd; [discriminate El'|].
    cbn [orb] in El, El'. apply split_last_Some in Es.
    destruct (locate_of_exists cwd a p d c' Es Hd Hdd He) as (rd' & Hl & _).
    unfold locate in Hl. rewrite Es, split_last_app, Hd, Hdd in Hl. cbn [orb] in Hl.
    congruence.
Qed.

Lemma touches_shrinks cwd a b p q :
  shrinks a b -> touches cwd b p q = false -> touches cwd a p q = false.
Proof.
  intros S H. unfold touches in *.
  destruct (path_exists cwd a p) eqn:He; [|reflexivity].
  assert (He' : path_exists cwd b p = true).
  { destruct (path_exists cwd b p) eqn:E; [reflexivity|].
    rewrite (path_exists_shrinks cwd a b p S E) in He. discriminate He. }
  rewrite He' in H. cbn [andb] in *.
  destruct (place cwd a p) as [r|] eqn:Ep; [|reflexivity].
  rewrite (place_shrinks cwd a b p r S He Ep) in H. exact H.
Qed.

(** ** Careful computations *)

Lemma careful_idle {A} env (m : M A) :
  (forall st, fs (snd (m st)) = fs st /\ rm_calls (snd (m st)) = rm_calls st) ->
  careful env m.
Proof.
  intros H st Ht. destruct (H st) as [-> ->].
  split; [exact Ht|]. split; [apply wanes_refl|].
  exists []. split; [symmetry; apply app_nil_r|reflexivity].
Qed.

Lemma careful_bind {A B} env (m : M A) (k : A -> M B) :
  careful env m -> (forall a, careful env (k a)) -> careful env (bind m k).
Proof.
  intros Hm Hk st Ht. unfold bind.
  destruct (Hm st Ht) as (T1 & W1 & new1 & E1 & F1).
  destruct (m st) as [[a|e] st1]; cbn [snd] in *.
  - destruct (Hk a st1 T1) as (T2 & W2 & new2 & E2 & F2).
    split; [exact T2|]. split; [eapply wanes_trans; eassumption|].
    exists (new1 ++ new2). split; [rewrite E2, E1; symmetry; apply app_assoc|].
    intros q Hq. rewrite F2, F1; [reflexivity| |].
    + intros p Hp. apply Hq, in_or_app. left; exact Hp.
    + intros p Hp. apply (touches_shrinks _ _ _ _ _ (wanes_shrinks _ _ W1)).
      apply Hq, in_or_app. right; exact Hp.
  - split; [exact T1|]. split; [exact W1|]. exists new1. auto.
Qed.

Lemma careful_ret {A} env (a : A) : careful env (ret a).
Proof. apply careful_idle. intros st. split; reflexivity. Qed.

Lemma careful_print env line : careful env (print line).
Proof. apply careful_idle. intros st. split; reflexivity. Qed.

Lemma careful_when env b (m : M unit) : careful env m -> careful env (when b m).
Proof. destruct b; [auto|intros _; apply careful_ret]. Qed.

Lemma careful_for_each {A} env (l : list A) (body : A -> M unit) :
  (forall x, careful env (body x)) -> careful env (for_each l body).
Proof.
  intros H. induction l as [|x l IH]; simpl.
  - apply careful_ret.
  - apply careful_bind; [apply H|intros _; exact IH].
Qed.

Lemma careful_safe_rm env p dry_run verbose :
  careful env (safe_rm env p dry_run verbose).
Proof.
  intros st Ht. pose proof (rm_calls_safe_rm env p dry_run verbose st) as Ec.
  rewrite safe_rm_run in *. cbn [snd] in *.
  destruct (safe_rm_state_careful env p dry_run verbose st Ht) as (T & W & F).
  split; [exact T|]. split; [exact W|].
  exists [p]. split; [exact Ec|].
  intros q Hq. apply F, Hq. left; reflexivity.
Qed.

Lemma careful_run_cmd env cmd cwd dry_run verbose :
  processes_keep_fs env -> careful env (run_cmd env cmd cwd dry_run verbose).
Proof.
  intros Hp. apply careful_idle. intros st.
  split; [|apply rm_calls_run_cmd].
  destruct dry_run; [rewrite run_cmd_dry; reflexivity|].
  rewrite run_cmd_real.
  destruct (spawn env cmd cwd (fs st)) as [rc fs'|e] eqn:E.
  - apply Hp in E. subst fs'. destruct verbose; reflexivity.
  - destruct verbose; reflexivity.
Qed.

Lemma careful_confirm_under_home env path home :
  careful env (confirm_under_home env path home).
Proof.
  apply careful_idle. intros st. rewrite confirm_under_home_run. split; reflexivity.
Qed.

Ltac careful_read := apply careful_idle; intros ?; split; reflexivity.

Ltac careful_step :=
  lazymatch goal with
  | |- careful _ (safe_rm _ _ _ _) => apply careful_safe_rm
  | |- careful _ (run_cmd _ _ _ _ _) => apply careful_run_cmd; assumption
  | |- careful _ (confirm_under_home _ _ _) => apply careful_confirm_under_home
  | |- careful _ (print _) => apply careful_print
  | |- careful _ (ret _) => apply careful_ret
  | |- careful _ (for_each _ _) => apply careful_for_each; intros ?
  | |- careful _ (when _ _) => apply careful_when
  | |- careful _ (bind _ _) => apply careful_bind; [|intros ?]
  | |- careful _ (if ?b then _ else _) => destruct b
  | |- careful _ (match ?o with Some _ => _ | None => _ end) => destruct o
  | |- careful _ (Path_exists _ _) => careful_read
  | |- careful _ (Path_is_dir _ _) => careful_read
  | |- careful _ (Path_glob_star _ _) => careful_read
  | |- careful _ (glob_glob _ _ _) => careful_read
  | |- careful _ (find_project_dirs_to_remove _ _) => careful_read
  end.

Ltac careful_auto := repeat careful_step.


Lemma careful_print_banner env args : careful env (print_banner env args).
Proof. unfold print_banner. careful_auto. Qed.

Lemma careful_stop_daemons env args :
  processes_keep_fs env -> careful env (stop_daemons env args).
Proof. intros Hp. unfold stop_daemons. careful_auto. Qed.

Lemma careful_clean_build_cache env args :
  processes_keep_fs env -> careful env (clean_build_cache env args).
Proof. intros Hp. unfold clean_build_cache. careful_auto. Qed.






Lemma careful_before_project_local env args :
  processes_keep_fs env -> careful env (before_project_local env args).
Proof.
  intros Hp. unfold before_project_local.
  apply careful_bind; [apply careful_print_banner|]. intros _.
  apply careful_bind; [apply careful_stop_daemons, Hp|]. intros _.
  apply careful_clean_build_cache, Hp.
Qed.


(** ** Removal of an entry in which nothing is locked *)








Module Aggressive.




(** Nor are the caches safe from the third step: a run without
    [--aggressive] from the home directory finds [.gradle] there, as a
    project-local directory, and removes what can be removed in it. *)
Lemma caches_removed_from_the_home_directory :
  let gradle := Sample.u_home // #".gradle" in
  let final := snd (main Sample.world_at_home
                      (CmdArgs (Sample.options gradle (abs_path [#"tmp"; #"cache"])
                                  false false))
                      Sample.start) in
  In gradle (rm_calls final) /\
  path_exists (getcwd Sample.world_at_home) Sample.disk (gradle // #"caches" // #"modules-2")
  = true /\
  path_exists (getcwd Sample.world_at_home) (fs final) (gradle // #"caches" // #"modules-2")
  = false.
Proof. vm_compute. split; [|split; reflexivity]. left. reflexivity. Qed.

End Aggressive.

(* ===================================================================== *)
(** * Properties of the release script *)
(* ===================================================================== *)

Module ReleaseRun.

Import Release.

Section Host.

Variable W : Type.
Variable host : Host W.

Lemma bind_run {A B} (m : R W A) (k : A -> R W B) (s : session W) :
  bind m k s = match m s with
               | (Ok a, s1) => k a s1
               | (Raise e, s1) => (Raise e, s1)
               end.
Proof. reflexivity. Qed.

(** ** Computations that start no process *)

Lemma quiet_ret {A} (a : A) : quiet (ret (W:=W) a).
Proof. intros s. reflexivity. Qed.

Lemma quiet_print (line : string) : quiet (print (W:=W) line).
Proof. intros s. reflexivity. Qed.

Lemma quiet_lift {A} (r : result A) : quiet (lift (W:=W) r).
Proof. intros s. reflexivity. Qed.

Lemma quiet_bind {A B} (m : R W A) (k : A -> R W B) :
  quiet m -> (forall a, quiet (k a)) -> quiet (bind m k).
Proof.
  intros Hm Hk s. rewrite bind_run. specialize (Hm s).
  destruct (m s) as [[a|e] s1]; simpl in *.
  - rewrite Hk. exact Hm.
  - exact Hm.
Qed.

Lemma quiet_try_except {A} (m : R W A) (h : exn -> R W A) :
  quiet m -> (forall e, quiet (h e)) -> quiet (try_except m h).
Proof.
  intros Hm Hh s. unfold try_except. specialize (Hm s).
  destruct (m s) as [[a|e] s1]; simpl in *.
  - exact Hm.
  - rewrite Hh. exact Hm.
Qed.

Lemma quiet_when (b : bool) (m : R W unit) : quiet m -> quiet (when b m).
Proof. intros Hm. destruct b; [exact Hm | apply quiet_ret]. Qed.

Lemma quiet_open_read (p : Path) : quiet (open_read host p).
Proof. intros s. reflexivity. Qed.

Lemma quiet_open_write (p : Path) (text : string) : quiet (open_write host p text).
Proof.
  intros s. unfold open_write. destruct (write_text host p text (world s)). reflexivity.
Qed.

Lemma quiet_Path_glob (root : Path) (pattern : string) :
  quiet (Path_glob host root pattern).
Proof. intros s. reflexivity. Qed.

Lemma quiet_relative_to (p root : Path) : quiet (relative_to (W:=W) p root).
Proof.
  intros s. unfold relative_to.
  destruct (if Bool.eqb (anchored p) (anchored root)
            then strip_prefix (parts root) (parts p) else None); reflexivity.
Qed.

Ltac quiet_step :=
  first [ apply quiet_ret | apply quiet_print | apply quiet_lift
        | apply quiet_open_read | apply quiet_open_write | apply quiet_Path_glob
        | apply quiet_relative_to
        | apply quiet_when
        | apply quiet_bind; [|intros ?]
        | apply quiet_try_except; [|intros ?]
        | match goal with
          | |- quiet (if ?b then _ else _) => destruct b
          | |- quiet (match ?o with Some _ => _ | None => _ end) => destruct o
          end ].
Ltac quiet_auto := repeat quiet_step.

Variable self : ReleaseManager.

Lemma quiet_with_version_header (md_files : list Path) :
  quiet (with_version_header host md_files).
Proof.
  induction md_files as [|f rest IH]; simpl with_version_header.
  - apply quiet_ret.
  - apply quiet_bind; [quiet_auto|]. intros keep.
    apply quiet_bind; [exact IH|]. intros tl. apply quiet_ret.
Qed.

Lemma quiet_find_markdown_files : quiet (find_markdown_files host self).
Proof.
  unfold find_markdown_files.
  apply quiet_bind; [quiet_auto|]. intros a.
  apply quiet_bind; [quiet_auto|]. intros b.
  apply quiet_with_version_header.
Qed.

Lemma quiet_update_markdown_version (file_path : Path) (new_version : string) :
  quiet (update_markdown_version host self file_path new_version).
Proof. unfold update_markdown_version. quiet_auto. Qed.

Lemma quiet_update_gradle_version (new_version : string) :
  quiet (update_gradle_version host self new_version).
Proof. unfold update_gradle_version. quiet_auto. Qed.

Lemma quiet_update_changelog (new_version : string) :
  quiet (update_changelog host self new_version).
Proof. unfold update_changelog. quiet_auto. Qed.

Lemma quiet_update_each (md_files : list Path) (version : string) :
  quiet (update_each host self md_files version).
Proof.
  induction md_files as [|f rest IH]; simpl update_each.
  - apply quiet_ret.
  - apply quiet_bind; [apply quiet_update_markdown_version|]. intros updated.
    destruct updated; cbn [negb]; cbv iota.
    + apply quiet_bind; [apply quiet_relative_to|]. intros shown.
      apply quiet_bind; [apply quiet_print|]. intros _. exact IH.
    + apply quiet_ret.
Qed.

Lemma quiet_verify_maven_credentials : quiet (verify_maven_credentials host).
Proof. unfold verify_maven_credentials. quiet_auto. Qed.

(** ** Computations that never answer [True] *)

Lemma never_true_ret_false : never_true (ret (W:=W) false).
Proof. intros s. simpl. discriminate. Qed.

Lemma never_true_bind {A} (m : R W A) (k : A -> R W bool) :
  (forall a, never_true (k a)) -> never_true (bind m k).
Proof.
  intros Hk s. rewrite bind_run.
  destruct (m s) as [[a|e] s1]; [apply Hk | simpl; discriminate].
Qed.

Lemma never_true_bind_false (m : R W bool) (k : bool -> R W bool) :
  never_true m -> never_true (k false) -> never_true (bind m k).
Proof.
  intros Hm Hk s. rewrite bind_run. specialize (Hm s).
  destruct (m s) as [[[|]|e] s1]; simpl in *.
  - exfalso. apply Hm. reflexivity.
  - apply Hk.
  - discriminate.
Qed.

(** ** [run_command] *)

(** Every call of [run_command] starts its command and no other. *)
Lemma run_command_commands (cmd : list string) (capture_output : bool) (s : session W) :
  commands (snd (run_command host self cmd capture_output s)) = commands s ++ [cmd].
Proof.
  unfold run_command, subprocess_run. rewrite bind_run.
  destruct (spawn_process host cmd (project_root self) (world s)) as [[rc out err|e] w].
  - destruct (rc =? 0)%Z.
    + reflexivity.
    + cbv zeta. cbv beta iota.
      match goal with
      | |- commands (snd (?m ?s1)) = _ =>
          assert (Q : quiet m) by quiet_auto; rewrite (Q s1)
      end.
      reflexivity.
  - reflexivity.
Qed.

(** Without [capture_output] the value of [run_command] is [None], also
    when the command succeeded. *)
Lemma run_command_uncaptured (cmd : list string) (s : session W) :
  fst (run_command host self cmd false s) = Ok None
  \/ exists e, fst (run_command host self cmd false s) = Raise e.
Proof.
  unfold run_command, subprocess_run. rewrite bind_run.
  destruct (spawn_process host cmd (project_root self) (world s)) as [[rc out err|e] w].
  - destruct (rc =? 0)%Z; left; reflexivity.
  - right. exists e. reflexivity.
Qed.

(** With [capture_output] a command that ends with status 0 gives its
    output. *)
Lemma run_command_captured (cmd : list string) (s : session W) :
  forall rc out err w,
    spawn_process host cmd (project_root self) (world s) = (Exited rc out err, w) ->
    world (snd (run_command host self cmd true s)) = w /\
    ((rc = 0)%Z -> fst (run_command host self cmd true s) = Ok (Some out)) /\
    ((rc <> 0)%Z -> fst (run_command host self cmd true s) = Ok None).
Proof.
  intros rc out err w E.
  unfold run_command, subprocess_run. rewrite bind_run, E.
  destruct (Z.eqb_spec rc 0) as [-> | Hrc].
  - split; [reflexivity|]. split; [reflexivity|]. intros H; contradiction.
  - cbv zeta. cbv beta iota.
    split; [|split; [intros H; contradiction|intros _]];
      unfold bind, print, when, truthy, ret;
      destruct (out =? ""), (err =? ""); reflexivity.
Qed.

Lemma run_command_not_run (cmd : list string) (capture_output : bool) (s : session W) :
  forall e w,
    spawn_process host cmd (project_root self) (world s) = (NotRun e, w) ->
    fst (run_command host self cmd capture_output s) = Raise e.
Proof.
  intros e w E. unfold run_command, subprocess_run. rewrite bind_run, E. reflexivity.
Qed.

Lemma run_each_cons (announce : bool) (c : list string) (rest : list (list string)) :
  run_each host self announce (c :: rest)
  = bind (when announce (print ("Running: " ++ join_with " " c)))
      (fun _ => bind (run_command host self c false)
                  (fun result => match result with
                                 | None => ret false
                                 | Some _ => run_each host self announce rest
                                 end)).
Proof. reflexivity. Qed.

(** A loop over commands stops after the first one. *)
Lemma run_each_first (announce : bool) (c : list string) (rest : list (list string))
  (s : session W) :
  fst (run_each host self announce (c :: rest) s) <> Ok true /\
  commands (snd (run_each host self announce (c :: rest) s)) = commands s ++ [c].
Proof.
  rewrite run_each_cons, bind_run.
  assert (Hs : exists s1, when announce (print ("Running: " ++ join_with " " c)) s = (Ok tt, s1)
                          /\ commands s1 = commands s).
  { destruct announce; simpl; eexists; split; reflexivity. }
  destruct Hs as (s1 & -> & <-).
  rewrite bind_run.
  pose proof (run_command_uncaptured c s1) as Hv.
  pose proof (run_command_commands c false s1) as Hc.
  destruct (run_command host self c false s1) as [[[t|]|e] s2]; simpl in *.
  - destruct Hv as [Hv | [e Hv]]; discriminate Hv.
  - split; [discriminate | exact Hc].
  - split; [discriminate | exact Hc].
Qed.

Lemma never_true_run_each (announce : bool) (c : list string)
  (rest : list (list string)) :
  never_true (run_each host self announce (c :: rest)).
Proof. intros s. apply run_each_first. Qed.

Lemma never_true_verify_tests_pass : never_true (verify_tests_pass host self).
Proof.
  unfold verify_tests_pass. apply never_true_bind. intros _. apply never_true_run_each.
Qed.

Lemma never_true_is_some_run_command (cmd : list string) :
  never_true (bind (run_command host self cmd false) (fun result => ret (is_some result))).
Proof.
  intros s. rewrite bind_run.
  pose proof (run_command_uncaptured cmd s) as Hv.
  destruct (run_command host self cmd false s) as [[[t|]|e] s1]; simpl in *.
  - destruct Hv as [Hv | [e Hv]]; discriminate Hv.
  - discriminate.
  - discriminate.
Qed.

Lemma never_true_create_git_tag (version : string) :
  never_true (create_git_tag host self version).
Proof. unfold create_git_tag. apply never_true_is_some_run_command. Qed.

Ltac never_step :=
  first [ apply never_true_ret_false
        | apply never_true_bind_false;
          [ solve [ apply never_true_verify_tests_pass
                  | apply never_true_create_git_tag
                  | apply never_true_run_each ] | cbn [negb]; cbv iota ]
        | apply never_true_bind; intros ?
        | match goal with
          | |- never_true (if negb ?b then _ else _) => destruct b; cbn [negb]; cbv iota
          | |- never_true (if ?b then _ else _) => destruct b
          end ].

Lemma never_true_prepare_release (version : string) :
  never_true (prepare_release host self version).
Proof. unfold prepare_release. repeat never_step. Qed.

Lemma never_true_create_release (version : string) :
  never_true (create_release host self version).
Proof. unfold create_release. repeat never_step. Qed.

Lemma never_true_publish_to_maven (version : string) :
  never_true (publish_to_maven host self version).
Proof. unfold publish_to_maven. repeat never_step. Qed.

(** ** Step lemmas *)

Lemma bind_print {B} (line : string) (k : unit -> R W B) (s : session W) :
  bind (print line) k s = k tt (mkSession (world s) (output s ++ [line]) (commands s)).
Proof. reflexivity. Qed.

Lemma truthy_py_or (a b : option string) : truthy (py_or a b) = truthy a || truthy b.
Proof. unfold py_or. destruct (truthy a) eqn:E; [exact E | reflexivity]. Qed.

Lemma app_one_neq {A} (l : list A) (x : A) : l ++ [x] <> l.
Proof.
  intros H. apply (f_equal (@List.length A)) in H.
  rewrite List.length_app in H. simpl in H. lia.
Qed.

Lemma verify_clean_working_tree_run (s : session W) :
  commands (snd (verify_clean_working_tree host self s))
  = commands s ++ [["git"; "status"; "--porcelain"]] /\
  (forall rc out err w,
      spawn_process host ["git"; "status"; "--porcelain"] (project_root self) (world s)
      = (Exited rc out err, w) ->
      world (snd (verify_clean_working_tree host self s)) = w /\
      fst (verify_clean_working_tree host self s)
      = Ok ((rc =? 0)%Z && (String.length (strip host out) =? 0)%nat)).
Proof.
  unfold verify_clean_working_tree. rewrite bind_run.
  pose proof (run_command_commands ["git"; "status"; "--porcelain"] true s) as Hc.
  pose proof (run_command_captured ["git"; "status"; "--porcelain"] s) as Hv.
  destruct (run_command host self ["git"; "status"; "--porcelain"] true s)
    as [[[t|]|e] s1]; simpl in *.
  - split; [exact Hc|]. intros rc out err w E.
    destruct (Hv rc out err w E) as (Hw & H0 & H1). split; [exact Hw|].
    destruct (Z.eqb_spec rc 0) as [Hrc | Hrc].
    + specialize (H0 Hrc). injection H0 as ->. reflexivity.
    + specialize (H1 Hrc). discriminate H1.
  - split; [exact Hc|]. intros rc out err w E.
    destruct (Hv rc out err w E) as (Hw & H0 & H1). split; [exact Hw|].
    destruct (Z.eqb_spec rc 0) as [Hrc | Hrc].
    + specialize (H0 Hrc). discriminate H0.
    + reflexivity.
  - split; [exact Hc|]. intros rc out err w E.
    destruct (Hv rc out err w E) as (Hw & H0 & H1).
    destruct (Z.eqb_spec rc 0) as [Hrc | Hrc].
    + specialize (H0 Hrc). discriminate H0.
    + specialize (H1 Hrc). discriminate H1.
Qed.

Lemma create_git_tag_run (version : string) (s : session W) :
  fst (create_git_tag host self version s) <> Ok true /\
  commands (snd (create_git_tag host self version s))
  = commands s ++ [["git"; "tag"; "-a"; ("v" ++ version)%string; "-m"; ("Release version " ++ version)%string]].
Proof.
  split; [apply never_true_create_git_tag|].
  unfold create_git_tag. cbv zeta. rewrite bind_run.
  pose proof (run_command_commands
                ["git"; "tag"; "-a"; ("v" ++ version)%string; "-m"; ("Release version " ++ version)%string]
                false s) as Hc.
  destruct (run_command host self _ false s) as [[r|e] s1]; exact Hc.
Qed.

Lemma verify_maven_credentials_run (s : session W) :
  fst (verify_maven_credentials host s)
  = Ok (env_set host "GPR_USER" "GITHUB_ACTOR" && env_set host "GPR_TOKEN" "GITHUB_TOKEN") /\
  world (snd (verify_maven_credentials host s)) = world s /\
  commands (snd (verify_maven_credentials host s)) = commands s.
Proof.
  unfold verify_maven_credentials, env_set. cbv zeta. rewrite !truthy_py_or.
  destruct (truthy (getenv host "GPR_USER") || truthy (getenv host "GITHUB_ACTOR"));
    destruct (truthy (getenv host "GPR_TOKEN") || truthy (getenv host "GITHUB_TOKEN"));
    simpl; repeat split; reflexivity.
Qed.

Lemma with_version_header_run (md_files : list Path) :
  forall s,
    exists s1,
      with_version_header host md_files s
      = (Ok (filter (has_version_header host (world s)) md_files), s1) /\
      world s1 = world s.
Proof.
  induction md_files as [|f rest IH]; intros s.
  - exists s. split; reflexivity.
  - simpl with_version_header. rewrite bind_run.
    match goal with
    | |- context [try_except ?m ?h s] =>
        assert (Hstep : exists s1,
                   try_except m h s = (Ok (has_version_header host (world s) f), s1)
                   /\ world s1 = world s)
    end.
    { unfold try_except, has_version_header. rewrite bind_run. unfold open_read.
      destruct (read_text host f (world s)) as [content|e];
        eexists; split; reflexivity. }
    destruct Hstep as (s1 & -> & Hw1).
    rewrite bind_run. destruct (IH s1) as (s2 & -> & Hw2).
    exists s2. rewrite Hw1 in *. split; [|exact Hw2].
    simpl filter. destruct (has_version_header host (world s) f); reflexivity.
Qed.

Lemma try_except_returns {A} (m : R W A) (h : exn -> R W A) (s : session W) :
  (forall e s1, exists a, fst (h e s1) = Ok a) ->
  exists a, fst (try_except m h s) = Ok a.
Proof.
  intros Hh. unfold try_except.
  destruct (m s) as [[a|e] s1]; [exists a; reflexivity | apply Hh].
Qed.

(** X12.  [create_release] starts [git status --porcelain] and at most the
    [git tag] command after it: nothing is pushed and no GitHub release is
    made, and the answer is never [True].  When the status command fails or
    reports a change, the tag is not made either. *)
Theorem create_release_stops_at_the_tag (version : string) (s : session W) :
  fst (create_release host self version s) <> Ok true /\
  (commands (snd (create_release host self version s))
   = commands s ++ [["git"; "status"; "--porcelain"]]
   \/ commands (snd (create_release host self version s))
      = commands s ++ [["git"; "status"; "--porcelain"];
                       ["git"; "tag"; "-a"; ("v" ++ version)%string;
                        "-m"; ("Release version " ++ version)%string]]) /\
  (forall rc out err w,
      spawn_process host ["git"; "status"; "--porcelain"] (project_root self) (world s)
      = (Exited rc out err, w) ->
      rc <> 0%Z \/ String.length (strip host out) <> 0 ->
      fst (create_release host self version s) = Ok false /\
      commands (snd (create_release host self version s))
      = commands s ++ [["git"; "status"; "--porcelain"]] /\
      world (snd (create_release host self version s)) = w).
Proof.
  split; [apply never_true_create_release|].
  unfold create_release. rewrite bind_print, bind_run.
  set (s0 := mkSession (world s) (output s ++ [("Creating release " ++ version ++ "...")%string])
               (commands s)).
  destruct (verify_clean_working_tree_run s0) as [Hc Hv].
  change (commands s0) with (commands s) in Hc.
  change (world s0) with (world s) in Hv.
  destruct (verify_clean_working_tree host self s0) as [[[|]|e] s1]; simpl in Hc, Hv.
  - cbv beta iota. cbn [negb]. cbv iota. rewrite bind_print, bind_run.
    set (s2 := mkSession (world s1) (output s1 ++ ["Creating git tag..."]) (commands s1)).
    destruct (create_git_tag_run version s2) as [Hn Ht].
    change (commands s2) with (commands s1) in Ht. rewrite Hc in Ht.
    rewrite <- app_assoc in Ht. simpl in Ht.
    split.
    + right. destruct (create_git_tag host self version s2) as [[[|]|e] s3]; simpl in *.
      * exfalso. apply Hn. reflexivity.
      * exact Ht.
      * exact Ht.
    + intros rc out err w E Hd. exfalso.
      destruct (Hv rc out err w E) as [_ Hb].
      destruct Hd as [Hd | Hd].
      * apply Z.eqb_neq in Hd. rewrite Hd in Hb. discriminate Hb.
      * apply Nat.eqb_neq in Hd. rewrite Hd, andb_false_r in Hb. discriminate Hb.
  - cbv beta iota. cbn [negb]. cbv iota. rewrite bind_print. simpl.
    split; [left; exact Hc|].
    intros rc out err w E _. destruct (Hv rc out err w E) as [Hw _].
    split; [reflexivity|]. split; [exact Hc | exact Hw].
  - simpl. split; [left; exact Hc|].
    intros rc out err w E _. destruct (Hv rc out err w E) as [_ Hb]. discriminate Hb.
Qed.

(** X13.  [publish_to_maven] never answers [True].  Without a user name or
    without a token in the environment it starts no process and leaves the
    world as it is; with both it starts [./gradlew clean build] and nothing
    after it, so the publishing task is never started. *)
Theorem publish_to_maven_stops_after_build (version : string) (s : session W) :
  fst (publish_to_maven host self version s) <> Ok true /\
  (env_set host "GPR_USER" "GITHUB_ACTOR" && env_set host "GPR_TOKEN" "GITHUB_TOKEN" = false ->
   fst (publish_to_maven host self version s) = Ok false /\
   commands (snd (publish_to_maven host self version s)) = commands s /\
   world (snd (publish_to_maven host self version s)) = world s) /\
  (env_set host "GPR_USER" "GITHUB_ACTOR" && env_set host "GPR_TOKEN" "GITHUB_TOKEN" = true ->
   commands (snd (publish_to_maven host self version s))
   = commands s ++ [["./gradlew"; "clean"; "build"]]).
Proof.
  split; [apply never_true_publish_to_maven|].
  unfold publish_to_maven. rewrite bind_print, bind_run.
  set (s0 := mkSession (world s)
               (output s ++ [("Publishing " ++ version ++ " to GitHub Packages...")%string])
               (commands s)).
  destruct (verify_maven_credentials_run s0) as (Hv & Hw & Hc).
  change (commands s0) with (commands s) in Hc.
  change (world s0) with (world s) in Hw.
  destruct (verify_maven_credentials host s0) as [[found|e] s1]; simpl in Hv, Hw, Hc;
    [|discriminate Hv].
  injection Hv as Hv. rewrite <- Hv. cbv beta iota.
  split.
  - intros ->. simpl. split; [reflexivity|]. split; [exact Hc | exact Hw].
  - intros ->. cbn [negb]. cbv iota. rewrite bind_run.
    destruct (run_each_first true ["./gradlew"; "clean"; "build"]
                [["./gradlew"; "publishAllPublicationsToGitHubPackagesRepository"]] s1)
      as [Hn Hr].
    rewrite Hc in Hr.
    destruct (run_each host self true _ s1) as [[[|]|e] s2]; simpl in *.
    + exfalso. apply Hn. reflexivity.
    + exact Hr.
    + exact Hr.
Qed.

(** X14.  [prepare_release] never answers [True], and it starts at most one
    process, [./gradlew clean build test check]: [make test-arch] and the
    security scan are never started.  When that command was started and
    the call returns, the last line printed says that the tests failed,
    whatever the status of the command was. *)
Theorem prepare_release_stops_at_the_tests (version : string) (s : session W) :
  fst (prepare_release host self version s) <> Ok true /\
  (commands (snd (prepare_release host self version s)) = commands s
   \/ commands (snd (prepare_release host self version s))
      = commands s ++ [["./gradlew"; "clean"; "build"; "test"; "check"]]) /\
  (forall b,
      fst (prepare_release host self version s) = Ok b ->
      commands (snd (prepare_release host self version s)) <> commands s ->
      last (output (snd (prepare_release host self version s))) ""
      = "❌ Tests or quality checks failed").
Proof.
  split; [apply never_true_prepare_release|].
  unfold prepare_release. rewrite bind_print, bind_run.
  set (s0 := mkSession (world s) (output s ++ [("Preparing release " ++ version ++ "...")%string])
               (commands s)).
  pose proof (quiet_find_markdown_files s0) as Q1.
  change (commands s0) with (commands s) in Q1.
  destruct (find_markdown_files host self s0) as [[md_files|e] s1]; simpl in Q1;
    [|simpl; split; [left; exact Q1 | intros b Hb; discriminate Hb]].
  cbv beta iota. rewrite bind_print, bind_run.
  set (s2 := mkSession (world s1) _ (commands s1)).
  pose proof (quiet_update_each md_files version s2) as Q2.
  change (commands s2) with (commands s1) in Q2. rewrite Q1 in Q2.
  destruct (update_each host self md_files version s2) as [[[|]|e] s3]; simpl in Q2;
    [ | simpl; split; [left; exact Q2 | intros b _ Hn; contradiction]
      | simpl; split; [left; exact Q2 | intros b Hb; discriminate Hb] ].
  cbv beta iota. cbn [negb]. cbv iota. rewrite bind_print, bind_run.
  set (s4 := mkSession (world s3) _ (commands s3)).
  pose proof (quiet_update_gradle_version version s4) as Q3.
  change (commands s4) with (commands s3) in Q3. rewrite Q2 in Q3.
  destruct (update_gradle_version host self version s4) as [[[|]|e] s5]; simpl in Q3;
    [ | simpl; split; [left; exact Q3 | intros b _ Hn; contradiction]
      | simpl; split; [left; exact Q3 | intros b Hb; discriminate Hb] ].
  cbv beta iota. cbn [negb]. cbv iota. rewrite !bind_print, bind_run.
  match goal with
  | |- context [update_changelog host self version ?st] => set (s6 := st)
  end.
  pose proof (quiet_update_changelog version s6) as Q4.
  change (commands s6) with (commands s5) in Q4. rewrite Q3 in Q4.
  destruct (update_changelog host self version s6) as [[[|]|e] s7]; simpl in Q4;
    [ | simpl; split; [left; exact Q4 | intros b _ Hn; contradiction]
      | simpl; split; [left; exact Q4 | intros b Hb; discriminate Hb] ].
  cbv beta iota. cbn [negb]. cbv iota. rewrite bind_print, bind_run.
  unfold verify_tests_pass. rewrite bind_print.
  match goal with
  | |- context [run_each host self true _ ?st] => set (s9 := st)
  end.
  destruct (run_each_first true ["./gradlew"; "clean"; "build"; "test"; "check"]
              [["make"; "test-arch"]] s9) as [Hn Hr].
  change (commands s9) with (commands s7) in Hr. rewrite Q4 in Hr.
  destruct (run_each host self true _ s9) as [[[|]|e] s10]; simpl in Hn, Hr.
  - exfalso. apply Hn. reflexivity.
  - cbv beta iota. cbn [negb]. cbv iota. rewrite bind_print. simpl.
    split; [right; exact Hr|]. intros b _ _. apply last_last.
  - simpl. split; [right; exact Hr|]. intros b Hb. discriminate Hb.
Qed.

(** X15.  The three update functions catch every exception: each of them
    returns a truth value and starts no process.  [update_changelog] on a
    changelog that cannot be read, or that has no unreleased section,
    answers [False] after one line of output and writes nothing. *)
Theorem updates_catch_every_exception (file_path : Path) (version : string)
  (s : session W) :
  (exists b, fst (update_markdown_version host self file_path version s) = Ok b) /\
  (exists b, fst (update_gradle_version host self version s) = Ok b) /\
  (exists b, fst (update_changelog host self version s) = Ok b) /\
  (forall e,
      read_text host (project_root self // #"CHANGELOG.md") (world s) = Raise e ->
      update_changelog host self version s
      = (Ok false, mkSession (world s)
                     (output s ++ [("Error updating changelog: " ++ message e)%string])
                     (commands s))) /\
  (forall content,
      read_text host (project_root self // #"CHANGELOG.md") (world s) = Ok content ->
      re_search host "## \[Unreleased\]\s*\n(.*?)(?=\n## |\Z)" true content = None ->
      update_changelog host self version s
      = (Ok false, mkSession (world s)
                     (output s ++ ["Could not find [Unreleased] section in CHANGELOG.md"])
                     (commands s))).
Proof.
  split; [|split; [|split; [|split]]].
  - apply try_except_returns. intros e s1. exists false. reflexivity.
  - apply try_except_returns. intros e s1. exists false. reflexivity.
  - apply try_except_returns. intros e s1. exists false. reflexivity.
  - intros e E. unfold update_changelog. cbv zeta. unfold try_except.
    rewrite bind_run. unfold open_read at 1. rewrite E. reflexivity.
  - intros content E Hs. unfold update_changelog. cbv zeta. unfold try_except.
    rewrite bind_run. unfold open_read at 1. rewrite E. cbv beta iota. rewrite Hs.
    reflexivity.
Qed.

(** X16.  [find_markdown_files] returns the files found by the two
    patterns, those of the first pattern before those of the second, that
    can be read and have a version header; a file found by both patterns is
    listed twice.  It writes nothing and starts no process. *)
Theorem find_markdown_files_filters (s : session W) (all_md readmes : list Path) :
  path_glob host (project_root self) "**/*.md" (world s) = Ok all_md ->
  path_glob host (project_root self) "**/README.md" (world s) = Ok readmes ->
  fst (find_markdown_files host self s)
  = Ok (filter (has_version_header host (world s)) all_md
        ++ filter (has_version_header host (world s)) readmes) /\
  world (snd (find_markdown_files host self s)) = world s /\
  commands (snd (find_markdown_files host self s)) = commands s.
Proof.
  intros Ha Hb.
  split; [|split; [|apply quiet_find_markdown_files]];
    unfold find_markdown_files; rewrite bind_run; unfold Path_glob at 1; rewrite Ha;
    cbv beta iota; rewrite bind_run; unfold Path_glob at 1; rewrite Hb; cbv beta iota;
    destruct (with_version_header_run (all_md ++ readmes) s) as (s1 & -> & Hw).
  - rewrite filter_app. reflexivity.
  - exact Hw.
Qed.

Lemma build_distribution_artifacts_run (version : string) (s : session W) :
  fst (build_distribution_artifacts host self version s) <> Ok true /\
  commands (snd (build_distribution_artifacts host self version s))
  = commands s ++ [["./gradlew"; "clean"; "build"]].
Proof.
  unfold build_distribution_artifacts. rewrite bind_print.
  apply (run_each_first true ["./gradlew"; "clean"; "build"] _
           (mkSession (world s) (output s ++ ["Building distribution artifacts..."])
              (commands s))).
Qed.

(** X17.  Called on their own, the helpers of a release stop after their
    first command and never answer [True]: [push_changes] starts
    [git push origin main] and does not push the tag,
    [build_distribution_artifacts] starts [./gradlew clean build] only, and
    [create_github_release] starts that build and never the [gh] command. *)
Theorem release_helpers_stop_after_one_command (version : string) (s : session W) :
  (fst (push_changes host self version s) <> Ok true /\
   commands (snd (push_changes host self version s))
   = commands s ++ [["git"; "push"; "origin"; "main"]]) /\
  (fst (build_distribution_artifacts host self version s) <> Ok true /\
   commands (snd (build_distribution_artifacts host self version s))
   = commands s ++ [["./gradlew"; "clean"; "build"]]) /\
  (fst (create_github_release host self version s) <> Ok true /\
   commands (snd (create_github_release host self version s))
   = commands s ++ [["./gradlew"; "clean"; "build"]]).
Proof.
  split; [|split].
  - unfold push_changes. apply (run_each_first false ["git"; "push"; "origin"; "main"]).
  - apply build_distribution_artifacts_run.
  - unfold create_github_release. cbv zeta. rewrite bind_run.
    match goal with
    | |- context [try_except ?m ?h s] =>
        assert (Q : quiet (try_except m h)) by quiet_auto;
        assert (T : exists a, fst (try_except m h s) = Ok a)
          by (apply try_except_returns; intros e s1; eexists; reflexivity);
        specialize (Q s); destruct (try_except m h s) as [[notes|e] s1]
    end; simpl in Q, T; [|destruct T as [a T]; discriminate T].
    cbv beta iota. rewrite bind_run.
    destruct (build_distribution_artifacts_run version s1) as [Hn Hc].
    rewrite Q in Hc.
    destruct (build_distribution_artifacts host self version s1) as [[[|]|e] s2];
      simpl in Hn, Hc; cbv beta iota.
    + exfalso. apply Hn. reflexivity.
    + cbn [negb]. cbv iota. rewrite bind_print. simpl. split; [discriminate | exact Hc].
    + simpl. split; [discriminate | exact Hc].
Qed.

End Host.

(** X18.  Once [argparse] has accepted the command line, the release
    script never exits with status 0: whatever the action, the version, the
    files and the outcome of the commands, [main] hands 1 to [sys.exit] or
    ends with an exception.  The cause is [run_command], whose value without
    [capture_output] is [None] also for a command that succeeded.  The
    status 0 is left to the exit of [argparse] itself, after [-h]: an exit
    of [argparse] ends the script with the status of [argparse]. *)
Theorem exit_status_is_never_zero (W : Type) (host : Host W) (script_file : Path)
  (args : Args) (s : session W) :
  (forall (self : ReleaseManager) (cmd : list string),
      fst (run_command host self cmd false s) = Ok None
      \/ exists e, fst (run_command host self cmd false s) = Raise e) /\
  (fst (main host script_file (CmdArgs args) s) = Ok 1%Z
   \/ exists e, fst (main host script_file (CmdArgs args) s) = Raise e) /\
  (forall status, main host script_file (CmdExit status) s = (Ok status, s)).
Proof.
  split; [intros self cmd; apply run_command_uncaptured|].
  split; [|intros status; reflexivity].
  unfold main.
  destruct (re_match host "^\d+\.\d+\.\d+$" (arg_version args)); cbn [negb]; cbv iota.
  - cbv zeta. rewrite bind_run.
    set (m := match arg_action args with
              | prepare => _ | release => _ | publish => _ end).
    assert (Hm : never_true m).
    { subst m. destruct (arg_action args);
        [ apply never_true_prepare_release
        | apply never_true_create_release
        | apply never_true_publish_to_maven ]. }
    specialize (Hm s).
    destruct (m s) as [[[|]|e] s1]; simpl in *.
    + exfalso. apply Hm. reflexivity.
    + left. reflexivity.
    + right. exists e. reflexivity.
  - left. reflexivity.
Qed.

Lemma create_release_stops_at_the_tag_witness :
  fst (create_release Sample.host_dirty Sample.manager "1.0.0" Sample.start) = Ok false /\
  commands (snd (create_release Sample.host_dirty Sample.manager "1.0.0" Sample.start))
  = [["git"; "status"; "--porcelain"]].
Proof.
  destruct (create_release_stops_at_the_tag _ Sample.host_dirty Sample.manager "1.0.0"
              Sample.start) as (_ & _ & H).
  destruct (H 0%Z " M README.md" "" [] eq_refl) as (Hr & Hc & _).
  - right. simpl. discriminate.
  - split; [exact Hr | exact Hc].
Defined.

Lemma publish_to_maven_stops_after_build_witness :
  fst (publish_to_maven Sample.host_anonymous Sample.manager "1.0.0" Sample.start)
  = Ok false /\
  commands (snd (publish_to_maven Sample.host_anonymous Sample.manager "1.0.0" Sample.start))
  = [] /\
  commands (snd (publish_to_maven Sample.host Sample.manager "1.0.0" Sample.start))
  = [["./gradlew"; "clean"; "build"]].
Proof.
  destruct (publish_to_maven_stops_after_build _ Sample.host_anonymous Sample.manager
              "1.0.0" Sample.start) as (_ & H & _).
  destruct (publish_to_maven_stops_after_build _ Sample.host Sample.manager
              "1.0.0" Sample.start) as (_ & _ & H').
  destruct (H eq_refl) as (Hr & Hc & _).
  split; [exact Hr|]. split; [exact Hc|]. exact (H' eq_refl).
Defined.

Lemma prepare_release_stops_at_the_tests_witness :
  fst (prepare_release Sample.host Sample.manager "1.0.0" Sample.start) = Ok false /\
  commands (snd (prepare_release Sample.host Sample.manager "1.0.0" Sample.start))
  = [["./gradlew"; "clean"; "build"; "test"; "check"]] /\
  last (output (snd (prepare_release Sample.host Sample.manager "1.0.0" Sample.start))) ""
  = "❌ Tests or quality checks failed".
Proof.
  assert (Hr : fst (prepare_release Sample.host Sample.manager "1.0.0" Sample.start)
               = Ok false) by (vm_compute; reflexivity).
  assert (Hc : commands (snd (prepare_release Sample.host Sample.manager "1.0.0"
                                Sample.start))
               = [["./gradlew"; "clean"; "build"; "test"; "check"]])
    by (vm_compute; reflexivity).
  split; [exact Hr|]. split; [exact Hc|].
  destruct (prepare_release_stops_at_the_tests _ Sample.host Sample.manager "1.0.0"
              Sample.start) as (_ & _ & H).
  apply (H false Hr). rewrite Hc. discriminate.
Defined.

Lemma updates_catch_every_exception_witness :
  update_changelog Sample.host Sample.manager "1.0.0" Sample.start_released
  = (Ok false,
     mkSession (world Sample.start_released)
       ["Could not find [Unreleased] section in CHANGELOG.md"] []).
Proof.
  destruct (updates_catch_every_exception _ Sample.host Sample.manager
              (mkPath false [#"README.md"]) "1.0.0" Sample.start_released)
    as (_ & _ & _ & _ & H).
  exact (H "## [1.0.0] - October 2026" eq_refl eq_refl).
Defined.

Lemma find_markdown_files_filters_witness :
  fst (find_markdown_files Sample.host Sample.manager Sample.start)
  = Ok [mkPath false [#"README.md"]; mkPath false [#"README.md"]].
Proof.
  destruct (find_markdown_files_filters _ Sample.host Sample.manager Sample.start
              [mkPath false [#"README.md"]; mkPath false [#"docs"; #"guide.md"]]
              [mkPath false [#"README.md"]] eq_refl eq_refl) as (H & _).
  exact H.
Defined.

End ReleaseRun.
